(** * ZenFlow voice assistant overlay: tool dispatcher, transcripts, audio
      capture and playback scheduling

    A shallow embedding of [src/components/VoiceAssistantOverlay.tsx]
    (with [src/types.ts], [src/utils/ids.ts] and the [updateState] of the
    application shell), and the properties of it that the specification
    states. The embedding covers an open session: the handlers
    [onmessage] and [onaudioprocess], the [ended] listener of a source,
    the toast timer, and the functions they call. Opening and closing a
    session are not part of it.

    Conventions of the embedding.
    - JavaScript strings are [string]s of 8-bit characters; [toLowerCase]
      and [trim] act on the ASCII range.
    - A string-valued property that may be [undefined] at run time is an
      [option string]; the arguments object of a tool call is a finite map
      from property names to strings.
    - Times of the audio clock are exact rationals ([Q]), in seconds, and
      so are audio samples: a sample times 32768 is exact in binary
      floating point, and so is a 16-bit integer divided by 32768.
    - React state, refs and the collaborators of the component are the
      fields of one record [World]; the code is a state transformer on it.
      The setters of the overlay run their updater at the call, on the
      latest value. The updaters given to [updateState] are run by React,
      at the call or at the next render: the caller sees neither their
      exceptions nor, unless they have run at the call, what they assign
      to its variables.
    - Promise reactions ([sessionPromise.then (...)]) are queued and run,
      first in first out, when the running handler has returned.
    - A typed array view of a buffer reads and writes 16-bit values low
      byte first. *)

From Stdlib Require Import ZArith QArith Qminmax Qround Lqa Lia ZifyNat.
From Stdlib Require Import String Ascii List Bool.
From stdpp Require Import base gmap strings list.
Import ListNotations.

Open Scope string_scope.

(** ** JavaScript string primitives *)

(** The double quote character, for the template strings that quote a title. *)
Definition dq : string := String (ascii_of_nat 34) EmptyString.

Definition isUpper (c : ascii) : bool :=
  Nat.leb 65 (nat_of_ascii c) && Nat.leb (nat_of_ascii c) 90.

Definition lowerChar (c : ascii) : ascii :=
  if isUpper c then ascii_of_nat (nat_of_ascii c + 32) else c.

(** [String.prototype.toLowerCase] *)
Fixpoint toLowerCase (s : string) : string :=
  match s with
  | EmptyString => EmptyString
  | String c s' => String (lowerChar c) (toLowerCase s')
  end.

(** [String.prototype.includes]: [sub] occurs in [s] at some position. *)
Fixpoint includes (s sub : string) : bool :=
  String.prefix sub s
  || match s with
     | EmptyString => false
     | String _ s' => includes s' sub
     end.

(** White space removed by [trim]: TAB, LF, VT, FF, CR and SPACE. *)
Definition isWhitespace (c : ascii) : bool :=
  let n := nat_of_ascii c in
  (Nat.leb 9 n && Nat.leb n 13) || Nat.eqb n 32.

Fixpoint trimStart (s : string) : string :=
  match s with
  | EmptyString => EmptyString
  | String c s' => if isWhitespace c then trimStart s' else s
  end.

Fixpoint trimEnd (s : string) : string :=
  match s with
  | EmptyString => EmptyString
  | String c s' =>
      match trimEnd s' with
      | EmptyString => if isWhitespace c then EmptyString else String c EmptyString
      | r => String c r
      end
  end.

(** [String.prototype.trim] *)
Definition trim (s : string) : string := trimEnd (trimStart s).

(** Truthiness of a string: [!s] is [true] exactly for the empty string. *)
Definition falsy (s : string) : bool :=
  match s with EmptyString => true | _ => false end.

(** A template placeholder [${v}] for a value that may be [undefined]. *)
Definition show (v : option string) : string := default "undefined" v.

(** [v === s] for a value that may be [undefined]. *)
Definition strictEq (v : option string) (s : string) : bool :=
  match v with Some x => String.eqb x s | None => false end.

(** ** Data model ([src/types.ts] and the interfaces of the overlay) *)

Record Todo := mkTodo {
  todo_id : string;
  todo_title : option string;
  todo_completed : bool;
  todo_dueDate : option string;
  todo_priority : option string;
  todo_createdAt : Z
}.

Record Note := mkNote {
  note_id : string;
  note_title : option string;
  note_content : option string;
  note_updatedAt : Z
}.

Record CalendarEvent := mkCalendarEvent {
  event_id : string;
  event_title : option string;
  event_date : option string;
  event_startTime : option string;
  event_endTime : option string;
  event_location : option string;
  event_description : option string
}.

Record ProductivityState := mkProductivityState {
  todos : list Todo;
  notes : list Note;
  events : list CalendarEvent;
  language : option string;
  theme : option string
}.

Inductive LogType := LogSuccess | LogError | LogInfo | LogTool.

Record ActionLog := mkActionLog {
  log_id : string;
  log_message : string;
  log_type : LogType;
  log_toolName : option string;
  log_timestamp : Z
}.

Record ConversationTurn := mkConversationTurn {
  turn_id : string;
  turn_user : string;
  turn_ai : string;
  turn_timestamp : Z
}.

Record ToastMessage := mkToastMessage {
  toast_id : string;
  toast_message : string;
  toast_type : LogType
}.

Inductive Status := Idle | Connecting | Listening | Speaking.

(** A tool-call request of the remote service; its [args] is an object,
    possibly without properties. *)
Record FunctionCall := mkFunctionCall {
  fc_id : string;
  fc_name : string;
  fc_args : gmap string string
}.

(** An entry of [toolDeclarations]: name, property names, required ones. *)
Record FunctionDeclaration := mkFunctionDeclaration {
  decl_name : string;
  decl_properties : list string;
  decl_required : list string
}.

Definition toolDeclarations : list FunctionDeclaration :=
  [ mkFunctionDeclaration "getWorkspaceData" [] [];
    mkFunctionDeclaration "setTheme" ["theme"] ["theme"];
    mkFunctionDeclaration "setLanguage" ["language"] ["language"];
    mkFunctionDeclaration "addTodo" ["title"; "dueDate"; "priority"] ["title"];
    mkFunctionDeclaration "addNote" ["title"; "content"] ["title"; "content"];
    mkFunctionDeclaration "addEvent"
      ["title"; "date"; "startTime"; "location"; "description"]
      ["title"; "date"; "startTime"];
    mkFunctionDeclaration "deleteItem" ["type"; "title"] ["type"; "title"];
    mkFunctionDeclaration "markTodoComplete" ["title"] ["title"] ].

(** The media blob of a real-time input frame. *)
Record Blob := mkBlob {
  blob_data : string;
  blob_mimeType : string
}.

(** The decoded audio of one response chunk. *)
Record AudioBuffer := mkAudioBuffer {
  numberOfChannels : nat;
  frameCount : nat;
  sampleRate : Z;
  channelData : list Q
}.

(** [AudioBuffer.duration], in seconds. *)
Definition duration (b : AudioBuffer) : Q :=
  inject_Z (Z.of_nat (frameCount b)) / inject_Z (sampleRate b).

(** One call of [source.start]: the node, its start time and its length. *)
Record Scheduled := mkScheduled {
  sched_node : nat;
  sched_start : Q;
  sched_duration : Q
}.

(** What a queued promise reaction will do with the open session. *)
Inductive Reaction :=
| SendToolResponse (id name result : string)
| SendRealtimeInput (media : Blob).

(** The observable steps of a run, oldest first. *)
Inductive Observation :=
| Dispatched (id : string)
| ToolResponseSent (id name result : string)
| RealtimeInputSent (media : Blob).

(** A transcription of a server message; its [text] may be missing. *)
Record Transcription := mkTranscription {
  text : option string
}.

(** The parts of a [LiveServerMessage] that [onmessage] reads:
    [serverContent.inputTranscription], [serverContent.outputTranscription],
    [serverContent.turnComplete], the inline data of the first part of
    [serverContent.modelTurn], [toolCall.functionCalls] and
    [serverContent.interrupted]. *)
Record LiveServerMessage := mkLiveServerMessage {
  inputTranscription : option Transcription;
  outputTranscription : option Transcription;
  turnComplete : bool;
  audioData : option string;
  toolCall : option (list FunctionCall);
  interrupted : bool
}.

(** What happens to an open session, one task of the event loop each. *)
Inductive Event :=
| Message (message : LiveServerMessage)
| Ended (node : nat)
| AudioProcess (inputData : list Q)
| ToastTimeout (toastId : string)
| Tick (dt : Q) (ms : Z).

(** ** Bytes, 16-bit samples and base64

    A [Uint8Array] is a list of byte values, an [Int16Array] a list of
    integers in the signed 16-bit range, a binary string a [string]. *)

Definition fromCharCode (b : Z) : ascii := ascii_of_N (Z.to_N b).
Definition charCodeAt (c : ascii) : Z := Z.of_N (N_of_ascii c).

(** The reading of an integer as a signed 16-bit value (modulo 2^16). *)
Definition wrapInt16 (n : Z) : Z :=
  let m := (n mod 65536)%Z in
  if (m <? 32768)%Z then m else (m - 65536)%Z.

(** The integer part of a number, rounding towards zero. *)
Definition truncate (x : Q) : Z := Z.quot (Qnum x) (Zpos (Qden x)).

(** A store of the number [x] into an [Int16Array]: the fraction is
    dropped, the integer wraps modulo 2^16. *)
Definition toInt16 (x : Q) : Z := wrapInt16 (truncate x).

(** The two bytes of a 16-bit value, low byte first. *)
Definition int16Bytes (v : Z) : list Z :=
  [ (v mod 256)%Z; ((v / 256) mod 256)%Z ].

(** [new Uint8Array (int16.buffer)] *)
Definition bytesOfInt16Array (samples : list Z) : list Z :=
  flat_map int16Bytes samples.

(** [new Int16Array (data.buffer)]; a buffer of odd length has no such view. *)
Fixpoint int16ArrayOfBytes (data : list Z) : option (list Z) :=
  match data with
  | [] => Some []
  | [_] => None
  | lo :: hi :: rest =>
      match int16ArrayOfBytes rest with
      | Some samples => Some (wrapInt16 (lo + 256 * hi) :: samples)
      | None => None
      end
  end.

Definition alphabet : list ascii :=
  list_ascii_of_string
    "ABCDEFGHIJKLMNOPQRSTUVWXYZabcdefghijklmnopqrstuvwxyz0123456789+/".

Definition padChar : ascii := ascii_of_nat 61.

Definition b64char (n : nat) : ascii := nth n alphabet padChar.

Fixpoint indexOf (c : ascii) (l : list ascii) : option nat :=
  match l with
  | [] => None
  | x :: rest =>
      if Ascii.eqb x c then Some 0%nat
      else match indexOf c rest with Some i => Some (S i) | None => None end
  end.

Definition b64value (c : ascii) : option nat := indexOf c alphabet.

(** Three bytes give four 6-bit groups; a last group of one or two bytes
    gives two or three. *)
Fixpoint sextetsOf (bytes : list nat) : list nat :=
  match bytes with
  | [] => []
  | [a] => [a / 4; a mod 4 * 16]%nat
  | [a; b] => [a / 4; a mod 4 * 16 + b / 16; b mod 16 * 4]%nat
  | a :: b :: c :: rest =>
      ([a / 4; a mod 4 * 16 + b / 16; b mod 16 * 4 + c / 64; c mod 64]%nat
       ++ sextetsOf rest)%list
  end.

Definition padding (n : nat) : list ascii :=
  match (n mod 3)%nat with
  | 1%nat => [padChar; padChar]
  | 2%nat => [padChar]
  | _ => []
  end.

(** [btoa] *)
Definition btoa (binary : string) : string :=
  let bytes := List.map nat_of_ascii (list_ascii_of_string binary) in
  string_of_list_ascii
    ((List.map b64char (sextetsOf bytes) ++ padding (length bytes))%list).

(** White space skipped by [atob]: TAB, LF, FF, CR and SPACE. *)
Definition isBase64Space (c : ascii) : bool :=
  let n := nat_of_ascii c in
  Nat.eqb n 9 || Nat.eqb n 10 || Nat.eqb n 12 || Nat.eqb n 13 || Nat.eqb n 32.

Definition dropPad (r : list ascii) : list ascii :=
  match r with
  | c :: r' => if Ascii.eqb c padChar then r' else r
  | [] => []
  end.

(** One or two [=] at the end of a text whose length is a multiple of four
    are removed. *)
Definition stripPadding (cs : list ascii) : list ascii :=
  if Nat.eqb (length cs mod 4) 0 then rev (dropPad (dropPad (rev cs))) else cs.

Fixpoint valuesOf (cs : list ascii) : option (list nat) :=
  match cs with
  | [] => Some []
  | c :: rest =>
      match b64value c, valuesOf rest with
      | Some v, Some vs => Some (v :: vs)
      | _, _ => None
      end
  end.

(** Four 6-bit groups give three bytes; the bits left over in a last group
    of two or three are dropped; a last group of one is an error. *)
Fixpoint octetsOf (vs : list nat) : option (list nat) :=
  match vs with
  | [] => Some []
  | [_] => None
  | [a; b] => Some [a * 4 + b / 16]%nat
  | [a; b; c] => Some [a * 4 + b / 16; b mod 16 * 16 + c / 4]%nat
  | a :: b :: c :: d :: rest =>
      match octetsOf rest with
      | Some bytes =>
          Some (([a * 4 + b / 16; b mod 16 * 16 + c / 4; c mod 4 * 64 + d]%nat
                 ++ bytes)%list)
      | None => None
      end
  end.

(** [atob]; [None] when it raises [InvalidCharacterError]. *)
Definition atob (base64 : string) : option string :=
  let cs :=
    stripPadding
      (List.filter (fun c => negb (isBase64Space c))
         (list_ascii_of_string base64)) in
  match valuesOf cs with
  | Some vs =>
      match octetsOf vs with
      | Some bytes => Some (string_of_list_ascii (List.map ascii_of_nat bytes))
      | None => None
      end
  | None => None
  end.

(** [encode]: the bytes as a binary string, in base64. *)
Definition encode (bytes : list Z) : string :=
  btoa (string_of_list_ascii (List.map fromCharCode bytes)).

(** [decode]: the bytes of a base64 text, when it is one. *)
Definition decode (base64 : string) : option (list Z) :=
  match atob base64 with
  | Some binaryString =>
      Some (List.map charCodeAt (list_ascii_of_string binaryString))
  | None => None
  end.

(** ** The world of the component

    The React state of the overlay, its refs, the collaborators it talks to
    (application store, audio clock, wall clock, identifier source) and the
    bookkeeping of what it has done (nodes created, buffers started and
    stopped, reactions queued, observations, updaters given to the
    application, exceptions left for its next render).

    [store] is the state of the application as of its next render: the
    last rendered state with the updaters applied that React has been
    given since, in the order of the calls. *)

Record World := mkWorld {
  status : Status;
  isActive : bool;
  userSpeech : string;
  aiSpeech : string;
  actionLogs : list ActionLog;
  history : list ConversationTurn;
  toast : option ToastMessage;
  nextStartTime : Q;
  sources : gset nat;
  store : ProductivityState;
  currentTime : Q;
  dateNow : Z;
  drawn : nat;
  nodes : nat;
  started : list Scheduled;
  stopped : list nat;
  reactions : list Reaction;
  journal : list Observation;
  updates : nat;
  renderErrors : list string
}.

Definition setStatus (v : Status) (w : World) : World :=
  mkWorld v (isActive w) (userSpeech w) (aiSpeech w) (actionLogs w) (history w)
    (toast w) (nextStartTime w) (sources w) (store w) (currentTime w) (dateNow w)
    (drawn w) (nodes w) (started w) (stopped w) (reactions w) (journal w)
    (updates w) (renderErrors w).

Definition setIsActive (v : bool) (w : World) : World :=
  mkWorld (status w) v (userSpeech w) (aiSpeech w) (actionLogs w) (history w)
    (toast w) (nextStartTime w) (sources w) (store w) (currentTime w) (dateNow w)
    (drawn w) (nodes w) (started w) (stopped w) (reactions w) (journal w)
    (updates w) (renderErrors w).

Definition setUserSpeech (v : string) (w : World) : World :=
  mkWorld (status w) (isActive w) v (aiSpeech w) (actionLogs w) (history w)
    (toast w) (nextStartTime w) (sources w) (store w) (currentTime w) (dateNow w)
    (drawn w) (nodes w) (started w) (stopped w) (reactions w) (journal w)
    (updates w) (renderErrors w).

Definition setAiSpeech (v : string) (w : World) : World :=
  mkWorld (status w) (isActive w) (userSpeech w) v (actionLogs w) (history w)
    (toast w) (nextStartTime w) (sources w) (store w) (currentTime w) (dateNow w)
    (drawn w) (nodes w) (started w) (stopped w) (reactions w) (journal w)
    (updates w) (renderErrors w).

Definition setActionLogs (v : list ActionLog) (w : World) : World :=
  mkWorld (status w) (isActive w) (userSpeech w) (aiSpeech w) v (history w)
    (toast w) (nextStartTime w) (sources w) (store w) (currentTime w) (dateNow w)
    (drawn w) (nodes w) (started w) (stopped w) (reactions w) (journal w)
    (updates w) (renderErrors w).

Definition setHistory (v : list ConversationTurn) (w : World) : World :=
  mkWorld (status w) (isActive w) (userSpeech w) (aiSpeech w) (actionLogs w) v
    (toast w) (nextStartTime w) (sources w) (store w) (currentTime w) (dateNow w)
    (drawn w) (nodes w) (started w) (stopped w) (reactions w) (journal w)
    (updates w) (renderErrors w).

Definition setToast (v : option ToastMessage) (w : World) : World :=
  mkWorld (status w) (isActive w) (userSpeech w) (aiSpeech w) (actionLogs w)
    (history w) v (nextStartTime w) (sources w) (store w) (currentTime w)
    (dateNow w) (drawn w) (nodes w) (started w) (stopped w) (reactions w)
    (journal w)
    (updates w) (renderErrors w).

Definition setNextStartTime (v : Q) (w : World) : World :=
  mkWorld (status w) (isActive w) (userSpeech w) (aiSpeech w) (actionLogs w)
    (history w) (toast w) v (sources w) (store w) (currentTime w) (dateNow w)
    (drawn w) (nodes w) (started w) (stopped w) (reactions w) (journal w)
    (updates w) (renderErrors w).

Definition setSources (v : gset nat) (w : World) : World :=
  mkWorld (status w) (isActive w) (userSpeech w) (aiSpeech w) (actionLogs w)
    (history w) (toast w) (nextStartTime w) v (store w) (currentTime w)
    (dateNow w) (drawn w) (nodes w) (started w) (stopped w) (reactions w)
    (journal w)
    (updates w) (renderErrors w).

Definition setStore (v : ProductivityState) (w : World) : World :=
  mkWorld (status w) (isActive w) (userSpeech w) (aiSpeech w) (actionLogs w)
    (history w) (toast w) (nextStartTime w) (sources w) v (currentTime w)
    (dateNow w) (drawn w) (nodes w) (started w) (stopped w) (reactions w)
    (journal w)
    (updates w) (renderErrors w).

(** The clocks move on: the audio clock by [dt] seconds, the wall clock by
    [ms] milliseconds. *)
Definition advanceClocks (dt : Q) (ms : Z) (w : World) : World :=
  mkWorld (status w) (isActive w) (userSpeech w) (aiSpeech w) (actionLogs w)
    (history w) (toast w) (nextStartTime w) (sources w) (store w)
    (currentTime w + dt)%Q (dateNow w + ms)%Z (drawn w) (nodes w) (started w)
    (stopped w) (reactions w) (journal w)
    (updates w) (renderErrors w).

Definition setDrawn (v : nat) (w : World) : World :=
  mkWorld (status w) (isActive w) (userSpeech w) (aiSpeech w) (actionLogs w)
    (history w) (toast w) (nextStartTime w) (sources w) (store w) (currentTime w)
    (dateNow w) v (nodes w) (started w) (stopped w) (reactions w) (journal w)
    (updates w) (renderErrors w).

Definition setNodes (v : nat) (w : World) : World :=
  mkWorld (status w) (isActive w) (userSpeech w) (aiSpeech w) (actionLogs w)
    (history w) (toast w) (nextStartTime w) (sources w) (store w) (currentTime w)
    (dateNow w) (drawn w) v (started w) (stopped w) (reactions w) (journal w)
    (updates w) (renderErrors w).

Definition setStarted (v : list Scheduled) (w : World) : World :=
  mkWorld (status w) (isActive w) (userSpeech w) (aiSpeech w) (actionLogs w)
    (history w) (toast w) (nextStartTime w) (sources w) (store w) (currentTime w)
    (dateNow w) (drawn w) (nodes w) v (stopped w) (reactions w) (journal w)
    (updates w) (renderErrors w).

Definition setStopped (v : list nat) (w : World) : World :=
  mkWorld (status w) (isActive w) (userSpeech w) (aiSpeech w) (actionLogs w)
    (history w) (toast w) (nextStartTime w) (sources w) (store w) (currentTime w)
    (dateNow w) (drawn w) (nodes w) (started w) v (reactions w) (journal w)
    (updates w) (renderErrors w).

Definition setReactions (v : list Reaction) (w : World) : World :=
  mkWorld (status w) (isActive w) (userSpeech w) (aiSpeech w) (actionLogs w)
    (history w) (toast w) (nextStartTime w) (sources w) (store w) (currentTime w)
    (dateNow w) (drawn w) (nodes w) (started w) (stopped w) v (journal w)
    (updates w) (renderErrors w).

Definition setJournal (v : list Observation) (w : World) : World :=
  mkWorld (status w) (isActive w) (userSpeech w) (aiSpeech w) (actionLogs w)
    (history w) (toast w) (nextStartTime w) (sources w) (store w) (currentTime w)
    (dateNow w) (drawn w) (nodes w) (started w) (stopped w) (reactions w) v
    (updates w) (renderErrors w).

Definition setUpdates (v : nat) (w : World) : World :=
  mkWorld (status w) (isActive w) (userSpeech w) (aiSpeech w) (actionLogs w)
    (history w) (toast w) (nextStartTime w) (sources w) (store w) (currentTime w)
    (dateNow w) (drawn w) (nodes w) (started w) (stopped w) (reactions w)
    (journal w) v (renderErrors w).

Definition setRenderErrors (v : list string) (w : World) : World :=
  mkWorld (status w) (isActive w) (userSpeech w) (aiSpeech w) (actionLogs w)
    (history w) (toast w) (nextStartTime w) (sources w) (store w) (currentTime w)
    (dateNow w) (drawn w) (nodes w) (started w) (stopped w) (reactions w)
    (journal w) (updates w) v.

(** The state of a freshly mounted overlay over a given store. *)
Definition mounted (s : ProductivityState) : World :=
  mkWorld Idle false EmptyString EmptyString [] [] None 0%Q ∅ s 0%Q 0%Z 0%nat
    0%nat [] [] [] [] 0%nat [].

(** ** Computations: a state monad over [World] with exceptions *)

Inductive Completion (A : Type) : Type :=
| Normal (a : A)
| Throw (message : string).
Arguments Normal {A} a.
Arguments Throw {A} message.

Definition Js (A : Type) : Type := World -> Completion A * World.

Definition ret {A : Type} (a : A) : Js A := fun w => (Normal a, w).

Definition bind {A B : Type} (c : Js A) (k : A -> Js B) : Js B :=
  fun w =>
    match c w with
    | (Normal a, w') => k a w'
    | (Throw m, w') => (Throw m, w')
    end.

(** [try { c } catch (err) { h err.message }] *)
Definition tryCatch {A : Type} (c : Js A) (h : string -> Js A) : Js A :=
  fun w =>
    match c w with
    | (Normal a, w') => (Normal a, w')
    | (Throw m, w') => h m w'
    end.

Definition modify (f : World -> World) : Js unit := fun w => (Normal tt, f w).

Definition gets {A : Type} (f : World -> A) : Js A := fun w => (Normal (f w), w).

Notation "'let*' x ':=' c 'in' k" := (bind c (fun x => k))
  (at level 10, x name, c at level 100, k at level 200).
Notation "c ';;' k" := (bind c (fun _ => k))
  (at level 100, k at level 200, right associativity).

(** ** Sample data *)

(** A platform whose [n]-th identifier is [id-] followed by [n] strokes. *)
Definition sampleIds (n : nat) : string :=
  "id-" ++ string_of_list_ascii (repeat "|"%char n).
Definition sampleStringify (s : ProductivityState) : string := "{}".
Definition sampleTypeError : string := "undefined has no properties".

(** Two schedulings of React: every updater is run at the call; only the
    first updater is (the others are queued behind it, as are those of one
    task under the batching of React 18). *)
Definition atTheCall (n : nat) : bool := true.
Definition firstOnly (n : nat) : bool := Nat.eqb n 0.

Definition buyMilk : Todo := mkTodo "t1" (Some "Buy Milk") false None None 0.
Definition walkDog : Todo := mkTodo "t2" (Some "Walk dog") false None None 0.
Definition milkshake : Todo := mkTodo "t3" (Some "milkshake") true None None 0.
Definition gateCode : Note := mkNote "n1" (Some "Gate code") (Some "5544") 0.

Definition sampleState : ProductivityState :=
  mkProductivityState [buyMilk; walkDog; milkshake] [gateCode] []
    (Some "en") (Some "light").

Definition sampleCall (id name : string) (args : list (string * string))
  : FunctionCall :=
  mkFunctionCall id name (list_to_map args).

(** A message that carries nothing. *)
Definition emptyMessage : LiveServerMessage :=
  mkLiveServerMessage None None false None None false.

(** A message that carries one audio chunk, of the given samples. *)
Definition chunkMessage (samples : list Z) : LiveServerMessage :=
  mkLiveServerMessage None None false
    (Some (encode (bytesOfInt16Array samples))) None false.

Definition interruption : LiveServerMessage :=
  mkLiveServerMessage None None false None None true.

Definition toolCallMessage (calls : list FunctionCall) : LiveServerMessage :=
  mkLiveServerMessage None None false None (Some calls) false.

Definition inputDelta (s : string) : LiveServerMessage :=
  mkLiveServerMessage (Some (mkTranscription (Some s))) None false None None
    false.

Definition outputDelta (s : string) : LiveServerMessage :=
  mkLiveServerMessage None (Some (mkTranscription (Some s))) false None None
    false.

Definition turnCompleted : LiveServerMessage :=
  mkLiveServerMessage None None true None None false.

(** ** The component *)

Section Overlay.

(** What the platform supplies: the [n]-th identifier handed out by
    [crypto.randomUUID] (or by the fallback of [generateSafeId]), the
    serialisation [JSON.stringify] of the state, the message of the
    [TypeError] raised by [undefined.toLowerCase ()], and the scheduling of
    React: whether the [n]-th updater given to the state of the
    application is run at the call (the fiber has no update pending, or
    the update is flushed at once) or is queued until the next render (an
    update is pending: under the batching of React 18, every updater of a
    task but the first). *)
Variable randomId : nat -> string.
Variable JSON_stringify : ProductivityState -> string.
Variable typeErrorMessage : string.
Variable runsAtCall : nat -> bool.

(** [src/utils/ids.ts] *)
Definition generateSafeId : Js string :=
  fun w => (Normal (randomId (drawn w)), setDrawn (S (drawn w)) w).

(** [Date.now ()] *)
Definition Date_now : Js Z := gets dateNow.

Definition raisesToast (type : LogType) : bool :=
  match type with LogSuccess | LogError => true | _ => false end.

(** [addLog]: the new entry goes to the head of the log, which keeps its
    first 15 entries; a success or an error also raises a toast. *)
Definition addLog (message : string) (type : LogType) (toolName : option string)
  : Js unit :=
  let* id := generateSafeId in
  let* timestamp := Date_now in
  let newLog := mkActionLog id message type toolName timestamp in
  modify (fun w => setActionLogs (take 15 (newLog :: actionLogs w)) w) ;;
  if raisesToast type then
    let* toastId := generateSafeId in
    modify (setToast (Some (mkToastMessage toastId message type)))
  else ret tt.

(** The timer of a toast fires, 4000 ms after [addLog] raised it. *)
Definition toastTimeout (toastId : string) (w : World) : World :=
  match toast w with
  | Some current =>
      if String.eqb (toast_id current) toastId then setToast None w else w
  | None => w
  end.

(** [addToHistory]: nothing when both texts are blank; else the new turn
    goes to the head of the history, which keeps its first 5 entries. *)
Definition addToHistory (user ai : string) : Js unit :=
  if falsy (trim user) && falsy (trim ai) then ret tt
  else
    let* id := generateSafeId in
    let* timestamp := Date_now in
    let newTurn := mkConversationTurn id user ai timestamp in
    modify (fun w => setHistory (take 5 (newTurn :: history w)) w).

(** [updateState updater], which is [setState (prev => updater (prev))]
    ([src/unnamed/part_002], lines 95-97). The updater is run by React, at
    the call or at the next render, on the latest state and in the order of
    the calls: the state of the next render is the same either way. What
    the caller sees is not. The second result of the updater stands for
    what it has assigned to the variables of the enclosing call ([found])
    when it returns or raises; the caller finds these assignments done only
    when the updater has run at the call, and finds the [initial] values
    otherwise. An exception of the updater never reaches the caller: React
    suppresses it at the call and raises it again in the render, where it
    is left here; the state is then as it was. *)
Definition updateState {B : Type} (initial : B)
  (updater : ProductivityState -> Completion ProductivityState * B) : Js B :=
  fun w =>
    let (outcome, assigned) := updater (store w) in
    let seen := if runsAtCall (updates w) then assigned else initial in
    let w1 := setUpdates (S (updates w)) w in
    match outcome with
    | Normal next => (Normal seen, setStore next w1)
    | Throw m => (Normal seen, setRenderErrors (renderErrors w ++ [m])%list w1)
    end.

(** [t.title.toLowerCase ().includes (title.toLowerCase ())], where either
    title may be [undefined]. *)
Definition titleIncludes (itemTitle title : option string) : Completion bool :=
  match itemTitle with
  | None => Throw typeErrorMessage
  | Some t =>
      match title with
      | None => Throw typeErrorMessage
      | Some q => Normal (includes (toLowerCase t) (toLowerCase q))
      end
  end.

(** [items.filter (x => !titleOf (x).toLowerCase ().includes (...))] *)
Fixpoint filterOut {A : Type} (titleOf : A -> option string)
  (title : option string) (items : list A) : Completion (list A) :=
  match items with
  | [] => Normal []
  | x :: rest =>
      match titleIncludes (titleOf x) title with
      | Throw m => Throw m
      | Normal hit =>
          match filterOut titleOf title rest with
          | Throw m => Throw m
          | Normal kept => Normal (if hit then kept else x :: kept)
          end
      end
  end.

Definition complete (t : Todo) : Todo :=
  mkTodo (todo_id t) (todo_title t) true (todo_dueDate t) (todo_priority t)
    (todo_createdAt t).

(** The [map] of [markTodoComplete]: the new list (or the exception), and
    whether the callback has set [found] by then. *)
Fixpoint completeMatching (title : option string) (items : list Todo)
  : Completion (list Todo) * bool :=
  match items with
  | [] => (Normal [], false)
  | t :: rest =>
      match titleIncludes (todo_title t) title with
      | Throw m => (Throw m, false)
      | Normal hit =>
          let (tail, found) := completeMatching title rest in
          (match tail with
           | Throw m => Throw m
           | Normal done => Normal ((if hit then complete t else t) :: done)
           end,
           hit || found)
      end
  end.

Definition withTheme (v : option string) (s : ProductivityState) :=
  mkProductivityState (todos s) (notes s) (events s) (language s) v.
Definition withLanguage (v : option string) (s : ProductivityState) :=
  mkProductivityState (todos s) (notes s) (events s) v (theme s).
Definition withTodos (v : list Todo) (s : ProductivityState) :=
  mkProductivityState v (notes s) (events s) (language s) (theme s).
Definition withNotes (v : list Note) (s : ProductivityState) :=
  mkProductivityState (todos s) v (events s) (language s) (theme s).
Definition withEvents (v : list CalendarEvent) (s : ProductivityState) :=
  mkProductivityState (todos s) (notes s) v (language s) (theme s).

(** The updater of [deleteItem]; [found] is assigned once the filter has
    returned. *)
Definition deleteUpdater (type title : option string) (prev : ProductivityState)
  : Completion ProductivityState * bool :=
  if strictEq type "todo" then
    match filterOut todo_title title (todos prev) with
    | Throw m => (Throw m, false)
    | Normal filtered =>
        (Normal (withTodos filtered prev),
         Nat.ltb (length filtered) (length (todos prev)))
    end
  else if strictEq type "note" then
    match filterOut note_title title (notes prev) with
    | Throw m => (Throw m, false)
    | Normal filtered =>
        (Normal (withNotes filtered prev),
         Nat.ltb (length filtered) (length (notes prev)))
    end
  else if strictEq type "event" then
    match filterOut event_title title (events prev) with
    | Throw m => (Throw m, false)
    | Normal filtered =>
        (Normal (withEvents filtered prev),
         Nat.ltb (length filtered) (length (events prev)))
    end
  else (Normal prev, false).

(** The updater of [markTodoComplete]. *)
Definition completeUpdater (title : option string) (prev : ProductivityState)
  : Completion ProductivityState * bool :=
  let (outcome, found) := completeMatching title (todos prev) in
  (match outcome with
   | Throw m => Throw m
   | Normal done => Normal (withTodos done prev)
   end,
   found).

(** *** The tools, one definition for each branch of [handleToolCall] *)

Definition getWorkspaceData (state : ProductivityState) : Js string :=
  ret (JSON_stringify state).

Definition setTheme (args : gmap string string) : Js string :=
  let theme := args !! "theme" in
  if strictEq theme "light" || strictEq theme "dark" then
    updateState tt (fun prev => (Normal (withTheme theme prev), tt)) ;;
    addLog ("Theme Updated: " ++ show theme ++ " mode") LogSuccess None ;;
    ret ("OK: Switched to " ++ show theme ++ " mode.")
  else ret "Error: Invalid theme specified.".

Definition setLanguage (args : gmap string string) : Js string :=
  let language := args !! "language" in
  updateState tt (fun prev => (Normal (withLanguage language prev), tt)) ;;
  addLog ("Language Changed: " ++ show language) LogSuccess None ;;
  ret ("OK: Language changed to " ++ show language ++ ".").

Definition addTodo (args : gmap string string) : Js string :=
  let* id := generateSafeId in
  let* createdAt := Date_now in
  let newTodo :=
    mkTodo id (args !! "title") false (args !! "dueDate") (args !! "priority")
      createdAt in
  updateState tt
    (fun prev => (Normal (withTodos (newTodo :: todos prev) prev), tt)) ;;
  addLog ("Task Added: " ++ dq ++ show (args !! "title") ++ dq) LogSuccess None ;;
  ret ("OK: Added task " ++ dq ++ show (args !! "title") ++ dq ++ ".").

Definition addNote (args : gmap string string) : Js string :=
  let* id := generateSafeId in
  let* updatedAt := Date_now in
  let newNote := mkNote id (args !! "title") (args !! "content") updatedAt in
  updateState tt
    (fun prev => (Normal (withNotes (newNote :: notes prev) prev), tt)) ;;
  addLog ("Note Saved: " ++ dq ++ show (args !! "title") ++ dq) LogSuccess None ;;
  ret ("OK: Saved note " ++ dq ++ show (args !! "title") ++ dq ++ ".").

(** In [{ id: generateSafeId (), ...args }] an [id] among the arguments
    overrides the generated one. Of the copied arguments the event keeps
    those that [CalendarEvent] declares. *)
Definition addEvent (args : gmap string string) : Js string :=
  let* id := generateSafeId in
  let newEvent :=
    mkCalendarEvent (default id (args !! "id")) (args !! "title")
      (args !! "date") (args !! "startTime") (args !! "endTime")
      (args !! "location") (args !! "description") in
  updateState tt
    (fun prev => (Normal (withEvents (events prev ++ [newEvent])%list prev), tt)) ;;
  addLog ("Event Scheduled: " ++ dq ++ show (args !! "title") ++ dq)
    LogSuccess None ;;
  ret ("OK: Scheduled " ++ dq ++ show (args !! "title") ++ dq ++ " for "
       ++ show (args !! "date") ++ " at " ++ show (args !! "startTime") ++ ".").

(** [found] is false until the updater assigns it. *)
Definition deleteItem (args : gmap string string) : Js string :=
  let type := args !! "type" in
  let title := args !! "title" in
  let* found := updateState false (deleteUpdater type title) in
  if negb found then
    ret ("Error: Item " ++ dq ++ show title ++ dq ++ " not found.")
  else
    addLog ("Removed: " ++ show type) LogSuccess None ;;
    ret ("OK: Removed " ++ show type ++ " " ++ dq ++ show title ++ dq ++ ".").

Definition markTodoComplete (args : gmap string string) : Js string :=
  let* found := updateState false (completeUpdater (args !! "title")) in
  if negb found then
    ret ("Error: Task " ++ dq ++ show (args !! "title") ++ dq ++ " not found.")
  else
    addLog ("Completed: " ++ dq ++ show (args !! "title") ++ dq)
      LogSuccess None ;;
    ret ("OK: Marked " ++ dq ++ show (args !! "title") ++ dq ++ " as done.").

(** [handleToolCall], for the [state] of the render that created the
    callback. The result is the text sent back to the remote service. *)
Definition handleToolCall (state : ProductivityState) (fc : FunctionCall)
  : Js string :=
  let name := fc_name fc in
  let args := fc_args fc in
  addLog ("Agent: Executing " ++ name) LogTool (Some name) ;;
  tryCatch
    (if String.eqb name "getWorkspaceData" then getWorkspaceData state
     else if String.eqb name "setTheme" then setTheme args
     else if String.eqb name "setLanguage" then setLanguage args
     else if String.eqb name "addTodo" then addTodo args
     else if String.eqb name "addNote" then addNote args
     else if String.eqb name "addEvent" then addEvent args
     else if String.eqb name "deleteItem" then deleteItem args
     else if String.eqb name "markTodoComplete" then markTodoComplete args
     else ret "OK")
    (fun message =>
       addLog ("Error: " ++ message) LogError None ;;
       ret ("Error: " ++ message)).

(** ** Audio playback *)

Definition throw {A : Type} (message : string) : Js A :=
  fun w => (Throw message, w).

(** The samples of one channel of the interleaved data, as numbers:
    [dataInt16[i * numChannels + channel] / 32768.0] for each frame [i]. *)
Definition channelSamples (dataInt16 : list Z) (numChannels frames channel : nat)
  : list Q :=
  List.map
    (fun i => inject_Z (nth (i * numChannels + channel) dataInt16 0%Z)
              / inject_Z 32768)%Q
    (seq 0 frames).

(** [decodeAudioData], of the result of [decode]. It raises when the text
    is not base64, when the bytes are not a whole number of 16-bit samples
    and when there is no frame to make a buffer of. *)
Definition decodeAudioData (data : option (list Z)) (rate : Z)
  (numChannels : nat) : Js AudioBuffer :=
  match data with
  | None => throw "InvalidCharacterError"
  | Some bytes =>
      match int16ArrayOfBytes bytes with
      | None => throw "RangeError"
      | Some dataInt16 =>
          let frames := (length dataInt16 / numChannels)%nat in
          if Nat.eqb frames 0 then throw "NotSupportedError"
          else
            ret (mkAudioBuffer numChannels frames rate
                   (flat_map (channelSamples dataInt16 numChannels frames)
                      (seq 0 numChannels)))
      end
  end.

(** [outputCtx.createBufferSource ()]: a node not seen before. *)
Definition createBufferSource : Js nat :=
  fun w => (Normal (nodes w), setNodes (S (nodes w)) w).

(** [source.start (when)] for a source playing [buffer]. *)
Definition start (source : nat) (when : Q) (buffer : AudioBuffer) : Js unit :=
  modify (fun w =>
    setStarted (started w ++ [mkScheduled source when (duration buffer)])%list w).

(** The listener of the [ended] event of a source. *)
Definition ended (source : nat) (w : World) : World :=
  let w1 := setSources (sources w ∖ {[ source ]}) w in
  if Nat.eqb (size (sources w1)) 0 then setStatus Listening w1 else w1.

(** ** The session *)

(** [sessionPromise.then (session => ...)]: the reaction waits for the
    running handler to return. *)
Definition thenSession (r : Reaction) : Js unit :=
  modify (fun w => setReactions (reactions w ++ [r])%list w).

Definition observe (o : Observation) : Js unit :=
  modify (fun w => setJournal (journal w ++ [o])%list w).

Definition react (r : Reaction) : Observation :=
  match r with
  | SendToolResponse id name result => ToolResponseSent id name result
  | SendRealtimeInput media => RealtimeInputSent media
  end.

(** The queued reactions run, in the order of their registration. *)
Definition runReactions (w : World) : World :=
  setReactions [] (setJournal (journal w ++ List.map react (reactions w))%list w).

(** [for (const x of items) body x] *)
Fixpoint forOf {A : Type} (items : list A) (body : A -> Js unit) : Js unit :=
  match items with
  | [] => ret tt
  | x :: rest => body x ;; forOf rest body
  end.

(** The body of the loop over the function calls of a message: the call
    is handled, and the response is left to a reaction of the session
    promise. *)
Definition loopBody (state : ProductivityState) (fc : FunctionCall) : Js unit :=
  observe (Dispatched (fc_id fc)) ;;
  let* result := handleToolCall state fc in
  thenSession (SendToolResponse (fc_id fc) (fc_name fc) result).

(** [for (const fc of message.toolCall.functionCalls) ...] *)
Definition toolCallLoop (state : ProductivityState) (calls : list FunctionCall)
  : Js unit :=
  forOf calls (loopBody state).

(** The transcription deltas of a message are appended to the partial
    transcripts. *)
Definition appendInput (message : LiveServerMessage) : Js unit :=
  match inputTranscription message with
  | Some t => modify (fun w => setUserSpeech (userSpeech w ++ show (text t)) w)
  | None => ret tt
  end.

Definition appendOutput (message : LiveServerMessage) : Js unit :=
  match outputTranscription message with
  | Some t => modify (fun w => setAiSpeech (aiSpeech w ++ show (text t)) w)
  | None => ret tt
  end.

(** The flush at [turnComplete]: the updater of [setUserSpeech] runs the
    updater of [setAiSpeech], which commits the turn; both return the empty
    string. *)
Definition flushTurn : Js unit :=
  let* currentUser := gets userSpeech in
  let* currentAi := gets aiSpeech in
  addToHistory currentUser currentAi ;;
  modify (setAiSpeech EmptyString) ;;
  modify (setUserSpeech EmptyString).

(** The scheduling of the audio chunk of a message. *)
Definition schedule (data : string) : Js unit :=
  modify (setStatus Speaking) ;;
  modify (fun w => setNextStartTime (Qmax (nextStartTime w) (currentTime w)) w) ;;
  let* buffer := decodeAudioData (decode data) 24000 1 in
  let* source := createBufferSource in
  let* when := gets nextStartTime in
  start source when buffer ;;
  modify (fun w => setNextStartTime (nextStartTime w + duration buffer)%Q w) ;;
  modify (fun w => setSources (sources w ∪ {[ source ]}) w).

(** The handling of [interrupted]: every source is stopped, the set is
    cleared, the cursor goes to zero. *)
Definition stopPlayback : Js unit :=
  modify (fun w => setStopped (stopped w ++ elements (sources w))%list w) ;;
  modify (setSources ∅) ;;
  modify (setNextStartTime 0%Q).

(** The body of [onmessage]. *)
Definition onmessageBody (state : ProductivityState) (message : LiveServerMessage)
  : Js unit :=
  appendInput message ;;
  appendOutput message ;;
  (if turnComplete message then flushTurn else ret tt) ;;
  match audioData message with
  | Some data => if falsy data then ret tt else schedule data
  | None => ret tt
  end ;;
  match toolCall message with
  | Some calls => toolCallLoop state calls
  | None => ret tt
  end ;;
  if interrupted message then stopPlayback else ret tt.

(** One task of the event loop: the handler runs (an exception ends it
    where it is raised), then the reactions it has queued. *)
Definition task (handler : Js unit) (w : World) : World :=
  runReactions (snd (handler w)).

Definition onmessage (state : ProductivityState) (message : LiveServerMessage)
  : World -> World :=
  task (onmessageBody state message).

(** ** Audio capture *)

(** The listener of [onaudioprocess], for the samples of channel 0. *)
Definition onaudioprocessBody (inputData : list Q) : Js unit :=
  let int16 := List.map (fun x => toInt16 (x * 32768)%Q) inputData in
  let pcmBlob :=
    mkBlob (encode (bytesOfInt16Array int16)) "audio/pcm;rate=16000" in
  thenSession (SendRealtimeInput pcmBlob).

Definition onaudioprocess (inputData : list Q) : World -> World :=
  task (onaudioprocessBody inputData).

(** ** Runs *)

Definition step (state : ProductivityState) (e : Event) (w : World) : World :=
  match e with
  | Message message => onmessage state message w
  | Ended node => ended node w
  | AudioProcess inputData => onaudioprocess inputData w
  | ToastTimeout toastId => toastTimeout toastId w
  | Tick dt ms => advanceClocks dt ms w
  end.

Definition run (state : ProductivityState) (es : list Event) (w : World) : World :=
  fold_left (fun w e => step state e w) es w.

(** ** The words of the specification *)

(** Two texts that differ at most in the case of their letters. *)
Inductive sameIgnoringCase : string -> string -> Prop :=
| sameIgnoringCase_nil : sameIgnoringCase EmptyString EmptyString
| sameIgnoringCase_cons (a b : ascii) (s t : string) :
    lowerChar a = lowerChar b ->
    sameIgnoringCase s t ->
    sameIgnoringCase (String a s) (String b t).

(** [query] is a substring of [title], case-insensitively. *)
Definition occursIgnoringCase (query title : string) : Prop :=
  exists pre mid post,
    title = pre ++ mid ++ post /\ sameIgnoringCase mid query.

(** An item title (which the store may lack) contains the query. *)
Definition titleMatches (query : string) (title : option string) : Prop :=
  exists t, title = Some t /\ occursIgnoringCase query t.

(** The same, decided as the code decides it. *)
Definition titleHas (query : string) (title : option string) : bool :=
  match title with
  | Some t => includes (toLowerCase t) (toLowerCase query)
  | None => false
  end.

(** The todo [t'] is the todo [t] marked complete: [completed] is true
    and every other property is that of [t]. *)
Definition markedComplete (t t' : Todo) : Prop :=
  todo_completed t' = true
  /\ todo_id t' = todo_id t
  /\ todo_title t' = todo_title t
  /\ todo_dueDate t' = todo_dueDate t
  /\ todo_priority t' = todo_priority t
  /\ todo_createdAt t' = todo_createdAt t.

(** Every item of the list has a title, as [src/types.ts] requires. *)
Definition titled {A : Type} (titleOf : A -> option string) (items : list A)
  : Prop :=
  Forall (fun x => titleOf x <> None) items.

(** ** Views of the world and what a computation does to them *)

(** The computation [c] leaves the view [p] of the world as it was. *)
Definition preserves {X A : Type} (p : World -> X) (c : Js A) : Prop :=
  forall w, p (snd (c w)) = p w.

(** A view that [addLog] cannot change: one that does not depend on the
    action log, the toast and the identifiers drawn. *)
Definition logBlind {X : Type} (p : World -> X) : Prop :=
  (forall v w, p (setActionLogs v w) = p w)
  /\ (forall v w, p (setToast v w) = p w)
  /\ (forall v w, p (setDrawn v w) = p w).

(** A view that the dispatcher cannot change: one that, moreover, does not
    depend on the store and on the bookkeeping of its updaters. *)
Definition dispatcherBlind {X : Type} (p : World -> X) : Prop :=
  logBlind p
  /\ (forall v w, p (setStore v w) = p w)
  /\ (forall v w, p (setUpdates v w) = p w)
  /\ (forall v w, p (setRenderErrors v w) = p w).

(** The computation [c] never raises. *)
Definition completes {A : Type} (c : Js A) : Prop :=
  forall w, exists a, fst (c w) = Normal a.

(** A view that scheduling and stopping leave alone: whatever does not depend on
    the status, the cursor, the sources and the bookkeeping of nodes. *)
Definition playbackBlind {X : Type} (p : World -> X) : Prop :=
  (forall v w, p (setStatus v w) = p w)
  /\ (forall v w, p (setNextStartTime v w) = p w)
  /\ (forall v w, p (setSources v w) = p w)
  /\ (forall v w, p (setNodes v w) = p w)
  /\ (forall v w, p (setStarted v w) = p w)
  /\ (forall v w, p (setStopped v w) = p w).

(** A relation between the world before and the world after that every
    piece of a computation respects. *)
Definition steps {A : Type} (R : World -> World -> Prop) (c : Js A) : Prop :=
  forall w, R w (snd (c w)).

(** ** Playback *)

(** [b] starts no earlier than [a], and no earlier than the end of [a]. *)
Definition follows (a b : Scheduled) : Prop :=
  (sched_start a <= sched_start b)%Q
  /\ (sched_start a + sched_duration a <= sched_start b)%Q.

(** Each buffer of the list follows the one before it. *)
Fixpoint backToBack (l : list Scheduled) : Prop :=
  match l with
  | a :: rest =>
      match rest with
      | b :: _ => follows a b /\ backToBack rest
      | [] => True
      end
  | [] => True
  end.

(** The cursor is at or past the end of the last buffer started. *)
Definition cursorCovers (w : World) : Prop :=
  backToBack (started w)
  /\ forall y, last (started w) = Some y ->
       (sched_start y <= nextStartTime w)%Q
       /\ (sched_start y + sched_duration y <= nextStartTime w)%Q.

(** An event that is not a message with the interruption flag. *)
Definition uninterrupted (e : Event) : Prop :=
  match e with
  | Message message => interrupted message = false
  | _ => True
  end.

(** The audio data decodes to at least one whole 16-bit sample. *)
Definition playable (data : string) : bool :=
  match decode data with
  | Some bytes =>
      match int16ArrayOfBytes bytes with
      | Some (_ :: _) => true
      | _ => false
      end
  | None => false
  end.

(** A message whose audio chunk, if it has one, can be played. *)
Definition wellFormed (message : LiveServerMessage) : Prop :=
  match audioData message with
  | Some data => falsy data = true \/ playable data = true
  | None => True
  end.

(** The world in which the chunk is decoded: the status is [speaking] and
    the cursor has caught up with the clock. *)
Definition caughtUp (w : World) : World :=
  setNextStartTime (Qmax (nextStartTime w) (currentTime w))
    (setStatus Speaking w).

(** The world after a decoded chunk has been scheduled. *)
Definition scheduled (buffer : AudioBuffer) (w : World) : World :=
  let when := Qmax (nextStartTime w) (currentTime w) in
  setSources (sources w ∪ {[ nodes w ]})
    (setNextStartTime (when + duration buffer)%Q
       (setStarted (started w ++ [mkScheduled (nodes w) when (duration buffer)])%list
          (setNodes (S (nodes w)) (caughtUp w)))).

(** The part of the world that playback scheduling reads and writes. *)
Definition playbackView (w : World) : Q * list Scheduled :=
  (nextStartTime w, started w).

(** ** Transcripts and the bounded buffers *)

(** The text that a message adds to the partial user transcript. *)
Definition inputText (message : LiveServerMessage) : string :=
  match inputTranscription message with
  | Some t => show (text t)
  | None => EmptyString
  end.

(** The text that a message adds to the partial assistant transcript. *)
Definition outputText (message : LiveServerMessage) : string :=
  match outputTranscription message with
  | Some t => show (text t)
  | None => EmptyString
  end.

(** The input deltas of the messages of a run, concatenated in order. *)
Fixpoint inputDeltas (es : list Event) : string :=
  match es with
  | [] => EmptyString
  | Message message :: rest => inputText message ++ inputDeltas rest
  | _ :: rest => inputDeltas rest
  end.

(** The output deltas of the messages of a run, concatenated in order. *)
Fixpoint outputDeltas (es : list Event) : string :=
  match es with
  | [] => EmptyString
  | Message message :: rest => outputText message ++ outputDeltas rest
  | _ :: rest => outputDeltas rest
  end.

(** An event that is not a message marking the turn complete. *)
Definition midTurn (e : Event) : Prop :=
  match e with
  | Message message => turnComplete message = false
  | _ => True
  end.

(** A text with nothing but white space in it. *)
Definition blank (s : string) : bool := falsy (trim s).

(** The world once the deltas of a message are appended. *)
Definition appended (message : LiveServerMessage) (w : World) : World :=
  snd (appendOutput message (snd (appendInput message w))).

(** The part of the world that the transcripts live in. *)
Definition transcriptView (w : World) : string * string * list ConversationTurn :=
  (userSpeech w, aiSpeech w, history w).

(** A burst of appends to the two bounded buffers. *)
Inductive Append :=
| AppendLog (message : string) (type : LogType) (toolName : option string)
| CommitTurn (user ai : string).

Definition append (a : Append) : Js unit :=
  match a with
  | AppendLog message type toolName => addLog message type toolName
  | CommitTurn user ai => addToHistory user ai
  end.

Definition burst (ops : list Append) (w : World) : World :=
  fold_left (fun w a => snd (append a w)) ops w.

(** Both buffers are within their bounds. *)
Definition bounded (w : World) : Prop :=
  (length (actionLogs w) <= 15)%nat /\ (length (history w) <= 5)%nat.

(** The part of the world that the two buffers live in. *)
Definition buffersView (w : World) : list ActionLog * list ConversationTurn :=
  (actionLogs w, history w).

(** What a log entry says, apart from its identifier and its time. *)
Definition logContent (l : ActionLog) : string * LogType * option string :=
  (log_message l, log_type l, log_toolName l).

Definition turnContent (t : ConversationTurn) : string * string :=
  (turn_user t, turn_ai t).

(** The log entries that a burst asks for, oldest first. *)
Fixpoint logged (ops : list Append) : list (string * LogType * option string) :=
  match ops with
  | [] => []
  | AppendLog message type toolName :: rest =>
      (message, type, toolName) :: logged rest
  | CommitTurn _ _ :: rest => logged rest
  end.

(** The turns that a burst commits, oldest first: those with a text that
    is not blank. *)
Fixpoint committed (ops : list Append) : list (string * string) :=
  match ops with
  | [] => []
  | CommitTurn user ai :: rest =>
      if blank user && blank ai then committed rest
      else (user, ai) :: committed rest
  | AppendLog _ _ _ :: rest => committed rest
  end.

(** ** Tool-call batches *)

(** The text of a completion. *)
Definition textOf (r : Completion string) : string :=
  match r with Normal s => s | Throw m => m end.

(** The calls of a batch dispatched one after the other, each in the
    world that the one before has left: the results and the last world. *)
Fixpoint dispatchAll (state : ProductivityState) (calls : list FunctionCall)
  (w : World) : list (FunctionCall * string) * World :=
  match calls with
  | [] => ([], w)
  | fc :: rest =>
      let r := handleToolCall state fc w in
      let rs := dispatchAll state rest (snd r) in
      ((fc, textOf (fst r)) :: fst rs, snd rs)
  end.

(** The response to a call. *)
Definition respond (p : FunctionCall * string) : Reaction :=
  SendToolResponse (fc_id (fst p)) (fc_name (fst p)) (snd p).

Definition dispatched (fc : FunctionCall) : Observation := Dispatched (fc_id fc).

(** The computation [c] does the same in a world changed by [f], and
    leaves the change in place. *)
Definition commutes {A : Type} (f : World -> World) (c : Js A) : Prop :=
  forall w, c (f w) = (fst (c w), f (snd (c w))).

(** A change of the world that the dispatcher neither sees nor undoes. *)
Definition sessionOnly (f : World -> World) : Prop :=
  (forall w, drawn (f w) = drawn w)
  /\ (forall w, dateNow (f w) = dateNow w)
  /\ (forall w, actionLogs (f w) = actionLogs w)
  /\ (forall w, store (f w) = store w)
  /\ (forall v w, setDrawn v (f w) = f (setDrawn v w))
  /\ (forall v w, setActionLogs v (f w) = f (setActionLogs v w))
  /\ (forall v w, setToast v (f w) = f (setToast v w))
  /\ (forall v w, setStore v (f w) = f (setStore v w))
  /\ (forall w, updates (f w) = updates w)
  /\ (forall w, renderErrors (f w) = renderErrors w)
  /\ (forall v w, setUpdates v (f w) = f (setUpdates v w))
  /\ (forall v w, setRenderErrors v (f w) = f (setRenderErrors v w)).

(** The place of the first observation of a journal that satisfies [P]. *)
Fixpoint firstIndex (P : Observation -> bool) (l : list Observation)
  : option nat :=
  match l with
  | [] => None
  | o :: rest =>
      if P o then Some 0%nat
      else match firstIndex P rest with Some i => Some (S i) | None => None end
  end.

Definition isDispatchOf (id : string) (o : Observation) : bool :=
  match o with Dispatched id' => String.eqb id id' | _ => false end.

Definition isResponseTo (id : string) (o : Observation) : bool :=
  match o with ToolResponseSent id' _ _ => String.eqb id id' | _ => false end.

(** ** More words for the dispatcher *)

(** The titles of the items of a type, in the order of the store; no
    titles for a type that is none of todo, note and event. *)
Definition titlesOf (type : string) (s : ProductivityState)
  : list (option string) :=
  if String.eqb type "todo" then List.map todo_title (todos s)
  else if String.eqb type "note" then List.map note_title (notes s)
  else if String.eqb type "event" then List.map event_title (events s)
  else [].

(** The store without the items of a type whose title contains the query. *)
Definition withoutMatches (type query : string) (s : ProductivityState)
  : ProductivityState :=
  if String.eqb type "todo" then
    withTodos
      (List.filter (fun t => negb (titleHas query (todo_title t))) (todos s)) s
  else if String.eqb type "note" then
    withNotes
      (List.filter (fun n => negb (titleHas query (note_title n))) (notes s)) s
  else if String.eqb type "event" then
    withEvents
      (List.filter (fun e => negb (titleHas query (event_title e))) (events s)) s
  else s.

(** The store with the todos whose title contains the query completed. *)
Definition withMatchesCompleted (query : string) (s : ProductivityState)
  : ProductivityState :=
  withTodos
    (List.map (fun t => if titleHas query (todo_title t) then complete t else t)
       (todos s))
    s.

(** The text that [deleteItem] returns on success. *)
Definition removedText (type query : string) : string :=
  "OK: Removed " ++ type ++ " " ++ dq ++ query ++ dq ++ ".".

(** The text that [deleteItem] returns when nothing matches. *)
Definition itemNotFoundText (title : option string) : string :=
  "Error: Item " ++ dq ++ show title ++ dq ++ " not found.".

Definition markedText (query : string) : string :=
  "OK: Marked " ++ dq ++ query ++ dq ++ " as done.".

Definition taskNotFoundText (title : option string) : string :=
  "Error: Task " ++ dq ++ show title ++ dq ++ " not found.".

(** The newest entry of the action log, if there is one. *)
Definition newestLog (w : World) : option (string * LogType * option string) :=
  match actionLogs w with
  | l :: _ => Some (logContent l)
  | [] => None
  end.

(** What the toast shows, if there is one. *)
Definition toastShown (w : World) : option (string * LogType) :=
  match toast w with
  | Some t => Some (toast_message t, toast_type t)
  | None => None
  end.

(** The world outside the dispatcher: everything but the store (with the
    bookkeeping of its updaters), the action log, the toast and the count
    of identifiers drawn. *)
Definition outsideDispatcher (w : World) :=
  (status w, isActive w, userSpeech w, aiSpeech w, history w, nextStartTime w,
   sources w, currentTime w, dateNow w, nodes w, started w, stopped w,
   reactions w, journal w).

(** ** More words for the handler of a message *)

(** The handler up to the audio chunk: the deltas are appended and, at the
    end of a turn, the transcripts are flushed. *)
Definition beforeAudio (message : LiveServerMessage) : Js unit :=
  appendInput message ;;
  appendOutput message ;;
  (if turnComplete message then flushTurn else ret tt).

(** The handling of the audio chunk. *)
Definition audioPart (message : LiveServerMessage) : Js unit :=
  match audioData message with
  | Some data => if falsy data then ret tt else schedule data
  | None => ret tt
  end.

(** The handling of the tool calls. *)
Definition toolPart (state : ProductivityState) (message : LiveServerMessage)
  : Js unit :=
  match toolCall message with
  | Some calls => toolCallLoop state calls
  | None => ret tt
  end.

(** The world once every source is stopped and forgotten. *)
Definition allStopped (w : World) : World :=
  setNextStartTime 0%Q
    (setSources ∅ (setStopped (stopped w ++ elements (sources w))%list w)).

(** The part of the world that playback lives in. *)
Definition audioView (w : World) :=
  (status w, nextStartTime w, sources w, nodes w, started w, stopped w).

(** The nodes that have been started, oldest first. *)
Definition startedNodes (w : World) : list nat :=
  List.map sched_node (started w).

(** The bookkeeping of the nodes: the [n]-th node created is the [n]-th
    started, and the sources in the set and those stopped are among them. *)
Definition nodesInOrder (w : World) : Prop :=
  startedNodes w = seq 0 (nodes w)
  /\ (forall n, n ∈ sources w -> (n < nodes w)%nat)
  /\ Forall (fun n => (n < nodes w)%nat) (stopped w).


(** The todos of the store whose title contains the query are completed. *)
Definition matchesAreCompleted (query : string) (s : ProductivityState) : Prop :=
  Forall
    (fun t => titleMatches query (todo_title t) -> todo_completed t = true)
    (todos s).

(** ** Which fields a computation leaves alone *)


Lemma preserves_ret {X A : Type} (p : World -> X) (a : A) : preserves p (ret a).
Proof. intros w; reflexivity. Qed.

Lemma preserves_throw {X A : Type} (p : World -> X) (m : string) :
  preserves p (@throw A m).
Proof. intros w; reflexivity. Qed.

Lemma preserves_gets {X A : Type} (p : World -> X) (f : World -> A) :
  preserves p (gets f).
Proof. intros w; reflexivity. Qed.

Lemma preserves_modify {X : Type} (p : World -> X) (f : World -> World) :
  (forall w, p (f w) = p w) -> preserves p (modify f).
Proof. intros H w; apply H. Qed.

Lemma preserves_bind {X A B : Type} (p : World -> X) (c : Js A) (k : A -> Js B) :
  preserves p c -> (forall a, preserves p (k a)) -> preserves p (bind c k).
Proof.
  intros Hc Hk w. unfold bind.
  specialize (Hc w). destruct (c w) as [[a|m] w1]; simpl in *.
  - rewrite Hk. exact Hc.
  - exact Hc.
Qed.

Lemma preserves_tryCatch {X A : Type} (p : World -> X) (c : Js A)
  (h : string -> Js A) :
  preserves p c -> (forall m, preserves p (h m)) -> preserves p (tryCatch c h).
Proof.
  intros Hc Hh w. unfold tryCatch.
  specialize (Hc w). destruct (c w) as [[a|m] w1]; simpl in *.
  - exact Hc.
  - rewrite Hh. exact Hc.
Qed.

Lemma preserves_if {X A : Type} (p : World -> X) (b : bool) (c d : Js A) :
  preserves p c -> preserves p d -> preserves p (if b then c else d).
Proof. destruct b; auto. Qed.

Lemma preserves_generateSafeId {X : Type} (p : World -> X) :
  (forall v w, p (setDrawn v w) = p w) -> preserves p generateSafeId.
Proof. intros H w. apply H. Qed.

Lemma preserves_updateState {X B : Type} (p : World -> X) (initial : B)
  (updater : ProductivityState -> Completion ProductivityState * B) :
  (forall v w, p (setStore v w) = p w) ->
  (forall v w, p (setUpdates v w) = p w) ->
  (forall v w, p (setRenderErrors v w) = p w) ->
  preserves p (updateState initial updater).
Proof.
  intros Hs Hu He w. unfold updateState.
  destruct (updater (store w)) as [[next|m] assigned]; cbn [snd].
  - rewrite Hs. apply Hu.
  - rewrite He. apply Hu.
Qed.


Ltac frame :=
  repeat match goal with
    | |- preserves _ (ret _) => apply preserves_ret
    | |- preserves _ (gets _) => apply preserves_gets
    | |- preserves _ (throw _) => apply preserves_throw
    | |- preserves _ (if _ then _ else _) => apply preserves_if
    | |- preserves _ (tryCatch _ _) => apply preserves_tryCatch
    | |- preserves _ (bind _ _) => apply preserves_bind
    | |- forall _, _ => intro
    end.

Lemma preserves_addLog {X : Type} (p : World -> X) message type toolName :
  logBlind p -> preserves p (addLog message type toolName).
Proof.
  intros (Hl & Ht & Hd). unfold addLog, Date_now.
  frame; try (apply preserves_generateSafeId; assumption);
    apply preserves_modify; auto.
Qed.

Lemma preserves_handleToolCall {X : Type} (p : World -> X) state fc :
  dispatcherBlind p -> preserves p (handleToolCall state fc).
Proof.
  intros (Hp & Hs & Hu & He). pose proof Hp as (Hl & Ht & Hd).
  unfold handleToolCall, getWorkspaceData, setTheme, setLanguage, addTodo,
    addNote, addEvent, deleteItem, markTodoComplete, Date_now.
  frame;
    first [ apply preserves_addLog; assumption
          | apply preserves_generateSafeId; assumption
          | apply preserves_updateState; assumption ].
Qed.

(** A view that [addToHistory] cannot change. *)
Lemma preserves_addToHistory {X : Type} (p : World -> X) user ai :
  (forall v w, p (setDrawn v w) = p w) ->
  (forall v w, p (setHistory v w) = p w) ->
  preserves p (addToHistory user ai).
Proof.
  intros Hd Hh. unfold addToHistory, Date_now.
  frame; try (apply preserves_generateSafeId; assumption).
  apply preserves_modify; auto.
Qed.


Lemma addLog_normal message type toolName w :
  fst (addLog message type toolName w) = Normal tt.
Proof. unfold addLog; destruct type; reflexivity. Qed.

Lemma addToHistory_normal user ai w :
  fst (addToHistory user ai w) = Normal tt.
Proof.
  unfold addToHistory. destruct (falsy (trim user) && falsy (trim ai)); reflexivity.
Qed.

Lemma tryCatch_completes {A : Type} (c : Js A) (h : string -> Js A) :
  (forall m, completes (h m)) -> completes (tryCatch c h).
Proof.
  intros Hh w. unfold tryCatch. destruct (c w) as [[a|m] w1]; simpl.
  - eauto.
  - apply Hh.
Qed.

Lemma handleToolCall_completes state fc : completes (handleToolCall state fc).
Proof.
  intros w. unfold handleToolCall.
  unfold bind at 1.
  pose proof (addLog_normal ("Agent: Executing " ++ fc_name fc) LogTool
                (Some (fc_name fc)) w) as Hlog.
  destruct (addLog _ LogTool _ w) as [r w1]; simpl in Hlog; subst r.
  apply tryCatch_completes. intros m w2. unfold bind.
  pose proof (addLog_normal ("Error: " ++ m) LogError None w2) as Herr.
  destruct (addLog _ LogError None w2) as [r w3]; simpl in Herr; subst r.
  simpl. eauto.
Qed.

(** ** Case-insensitive substring search *)

Lemma sameIgnoringCase_toLowerCase s t :
  sameIgnoringCase s t <-> toLowerCase s = toLowerCase t.
Proof.
  split.
  - induction 1 as [|a b s t Hab _ IH]; simpl; congruence.
  - revert t. induction s as [|a s IH]; intros [|b t] H; simpl in H;
      try discriminate.
    + constructor.
    + injection H as Hab Hst. constructor; auto.
Qed.

Lemma append_nil_l (t : string) : EmptyString ++ t = t.
Proof. reflexivity. Qed.

Lemma append_cons (a : ascii) (s t : string) :
  String a s ++ t = String a (s ++ t).
Proof. reflexivity. Qed.

Ltac unfold_append := rewrite ?append_cons, ?append_nil_l in *.

Lemma prefix_app p s :
  String.prefix p s = true <-> exists post, s = p ++ post.
Proof.
  revert s. induction p as [|a p IH]; intros [|b s]; simpl.
  - split; eauto.
  - split; eauto.
  - split; [discriminate | intros [post H]; discriminate].
  - destruct (ascii_dec a b) as [->|Hne].
    + rewrite IH.
      split; intros [post H]; exists post; unfold_append; congruence.
    + split; [discriminate | intros [post H]; unfold_append; congruence].
Qed.

Lemma includes_app s sub :
  includes s sub = true <-> exists pre post, s = pre ++ sub ++ post.
Proof.
  induction s as [|c s IH].
  - cbn [includes]. rewrite orb_false_r, prefix_app. split.
    + intros [post H]. exists EmptyString, post. exact H.
    + intros (pre & post & H).
      destruct pre; unfold_append; [eauto|discriminate].
  - cbn [includes]. rewrite orb_true_iff, prefix_app, IH. split.
    + intros [[post H]|(pre & post & H)].
      * exists EmptyString, post. exact H.
      * exists (String c pre), post. unfold_append. congruence.
    + intros (pre & post & H). destruct pre as [|c' pre]; unfold_append.
      * left. eauto.
      * right. injection H as _ H. eauto.
Qed.

Lemma toLowerCase_app s t :
  toLowerCase (s ++ t) = toLowerCase s ++ toLowerCase t.
Proof.
  induction s as [|c s IH]; unfold_append; cbn [toLowerCase]; unfold_append;
    congruence.
Qed.

Lemma toLowerCase_split t x y :
  toLowerCase t = x ++ y ->
  exists a b, t = a ++ b /\ toLowerCase a = x /\ toLowerCase b = y.
Proof.
  revert t. induction x as [|c x IH]; intros t H; unfold_append.
  - exists EmptyString, t. auto.
  - destruct t as [|d t]; cbn [toLowerCase] in H; [discriminate|].
    injection H as Hc H. destruct (IH _ H) as (a & b & -> & Ha & Hb).
    exists (String d a), b. unfold_append. cbn [toLowerCase].
    repeat split; congruence.
Qed.

(** What the code computes is the substring relation of the specification. *)
Lemma includes_toLowerCase title query :
  includes (toLowerCase title) (toLowerCase query) = true
  <-> occursIgnoringCase query title.
Proof.
  rewrite includes_app. unfold occursIgnoringCase. split.
  - intros (x & z & H).
    destruct (toLowerCase_split _ _ _ H) as (pre & rest & -> & Hpre & Hrest).
    destruct (toLowerCase_split _ _ _ Hrest) as (mid & post & -> & Hmid & Hpost).
    exists pre, mid, post. split; [reflexivity|].
    apply sameIgnoringCase_toLowerCase. exact Hmid.
  - intros (pre & mid & post & -> & Hmid).
    apply sameIgnoringCase_toLowerCase in Hmid.
    exists (toLowerCase pre), (toLowerCase post).
    rewrite !toLowerCase_app. congruence.
Qed.

Lemma titleHas_spec query title :
  titleHas query title = true <-> titleMatches query title.
Proof.
  unfold titleHas, titleMatches. destruct title as [t|].
  - rewrite includes_toLowerCase. split.
    + intros H. exists t. auto.
    + intros (t' & [= <-] & H). exact H.
  - split; [discriminate | intros (t' & [=] & _)].
Qed.

(** ** The dispatcher, tool by tool *)

Lemma store_logBlind : logBlind store.
Proof. repeat split. Qed.

Lemma bind_addLog {B : Type} message type toolName (k : unit -> Js B) w :
  bind (addLog message type toolName) k w
  = k tt (snd (addLog message type toolName w)).
Proof.
  unfold bind. pose proof (addLog_normal message type toolName w) as H.
  destruct (addLog message type toolName w) as [r w1]; simpl in *.
  subst r. reflexivity.
Qed.

Lemma store_addLog message type toolName w :
  store (snd (addLog message type toolName w)) = store w.
Proof. apply preserves_addLog, store_logBlind. Qed.

(** What the entry of the dispatcher does to the log: one [tool] entry,
    no toast. *)
Lemma addLog_tool message toolName w :
  addLog message LogTool toolName w
  = (Normal tt,
     setActionLogs
       (take 15 (mkActionLog (randomId (drawn w)) message LogTool toolName
                   (dateNow w) :: actionLogs w))
       (setDrawn (S (drawn w)) w)).
Proof. reflexivity. Qed.

Lemma withTodos_same s : withTodos (todos s) s = s.
Proof. destruct s; reflexivity. Qed.
Lemma withNotes_same s : withNotes (notes s) s = s.
Proof. destruct s; reflexivity. Qed.
Lemma withEvents_same s : withEvents (events s) s = s.
Proof. destruct s; reflexivity. Qed.

(** On a list whose items all have a title, the filter of [deleteItem]
    raises nothing and keeps the items whose title lacks the query. *)
Lemma filterOut_titled {A : Type} (titleOf : A -> option string) query items :
  titled titleOf items ->
  filterOut titleOf (Some query) items
  = Normal (List.filter (fun x => negb (titleHas query (titleOf x))) items).
Proof.
  induction 1 as [|x items Hx _ IH]; simpl; [reflexivity|].
  rewrite IH. unfold titleIncludes, titleHas.
  destruct (titleOf x) as [t|]; [|congruence].
  destruct (includes (toLowerCase t) (toLowerCase query)); reflexivity.
Qed.

Lemma completeMatching_titled query items :
  titled todo_title items ->
  completeMatching (Some query) items
  = (Normal
       (List.map
          (fun t => if titleHas query (todo_title t) then complete t else t)
          items),
     existsb (fun t => titleHas query (todo_title t)) items).
Proof.
  induction 1 as [|x items Hx _ IH]; simpl; [reflexivity|].
  rewrite IH. unfold titleIncludes, titleHas.
  destruct (todo_title x) as [t|]; [|congruence]. reflexivity.
Qed.

Lemma updates_logBlind : logBlind updates.
Proof. repeat split. Qed.

Lemma updates_addLog message type toolName w :
  updates (snd (addLog message type toolName w)) = updates w.
Proof. apply preserves_addLog, updates_logBlind. Qed.

Lemma filter_none_out {A : Type} (f : A -> bool) (l : list A) :
  (forall x, In x l -> f x = true) -> List.filter f l = l.
Proof.
  induction l as [|x l IH]; simpl; intros H; [reflexivity|].
  rewrite (H x) by auto. f_equal. apply IH. auto.
Qed.

Lemma map_none_hit (f : Todo -> bool) (l : list Todo) :
  (forall t, In t l -> f t = false) ->
  List.map (fun t => if f t then complete t else t) l = l
  /\ existsb f l = false.
Proof.
  induction l as [|x l IH]; simpl; intros H; [auto|].
  rewrite (H x) by auto. destruct IH as [-> ->]; auto.
Qed.

(** The dispatcher on a call, once the entry is logged. *)
Lemma handleToolCall_unfold state fc w :
  handleToolCall state fc w
  = tryCatch
      (if String.eqb (fc_name fc) "getWorkspaceData" then getWorkspaceData state
       else if String.eqb (fc_name fc) "setTheme" then setTheme (fc_args fc)
       else if String.eqb (fc_name fc) "setLanguage" then setLanguage (fc_args fc)
       else if String.eqb (fc_name fc) "addTodo" then addTodo (fc_args fc)
       else if String.eqb (fc_name fc) "addNote" then addNote (fc_args fc)
       else if String.eqb (fc_name fc) "addEvent" then addEvent (fc_args fc)
       else if String.eqb (fc_name fc) "deleteItem" then deleteItem (fc_args fc)
       else if String.eqb (fc_name fc) "markTodoComplete"
            then markTodoComplete (fc_args fc)
       else ret "OK")
      (fun message =>
         addLog ("Error: " ++ message) LogError None ;;
         ret ("Error: " ++ message))
      (snd (addLog ("Agent: Executing " ++ fc_name fc) LogTool
              (Some (fc_name fc)) w)).
Proof. unfold handleToolCall. apply bind_addLog. Qed.

Lemma handleToolCall_setTheme state fc w :
  fc_name fc = "setTheme" ->
  handleToolCall state fc w
  = tryCatch (setTheme (fc_args fc))
      (fun message =>
         addLog ("Error: " ++ message) LogError None ;;
         ret ("Error: " ++ message))
      (snd (addLog "Agent: Executing setTheme" LogTool (Some "setTheme") w)).
Proof. intros H. rewrite handleToolCall_unfold, H. reflexivity. Qed.

Lemma handleToolCall_deleteItem state fc w :
  fc_name fc = "deleteItem" ->
  handleToolCall state fc w
  = tryCatch (deleteItem (fc_args fc))
      (fun message =>
         addLog ("Error: " ++ message) LogError None ;;
         ret ("Error: " ++ message))
      (snd (addLog "Agent: Executing deleteItem" LogTool (Some "deleteItem") w)).
Proof. intros H. rewrite handleToolCall_unfold, H. reflexivity. Qed.

Lemma handleToolCall_markTodoComplete state fc w :
  fc_name fc = "markTodoComplete" ->
  handleToolCall state fc w
  = tryCatch (markTodoComplete (fc_args fc))
      (fun message =>
         addLog ("Error: " ++ message) LogError None ;;
         ret ("Error: " ++ message))
      (snd (addLog "Agent: Executing markTodoComplete" LogTool
              (Some "markTodoComplete") w)).
Proof. intros H. rewrite handleToolCall_unfold, H. reflexivity. Qed.

(** ** Base64 and 16-bit samples *)

(** Goals of linear arithmetic, and goals about division and remainder by
    constants. The platform plays no part in them. *)
Ltac arith :=
  try clear randomId; try clear JSON_stringify; try clear typeErrorMessage;
  try clear runsAtCall;
  lia.

Ltac euclid :=
  try clear randomId; try clear JSON_stringify; try clear typeErrorMessage;
  try clear runsAtCall;
  zify; Z.to_euclidean_division_equations; lia.

Lemma list_ind3 {A : Type} (P : list A -> Prop) :
  P [] -> (forall a, P [a]) -> (forall a b, P [a; b]) ->
  (forall a b c l, P l -> P (a :: b :: c :: l)) ->
  forall l, P l.
Proof using.
  intros H0 H1 H2 H3 l.
  assert (H : P l /\ (forall a, P (a :: l)) /\ (forall a b, P (a :: b :: l))).
  { induction l as [|x l (IH0 & IH1 & IH2)]; [auto|].
    split; [apply IH1|]. split; [intros a; apply IH2|].
    intros a b. apply H3, IH0. }
  apply H.
Qed.

Lemma b64value_b64char n : (n < 64)%nat -> b64value (b64char n) = Some n.
Proof using.
  intros H. do 64 (destruct n as [|n]; [reflexivity|]). arith.
Qed.

Lemma b64char_plain n :
  (n < 64)%nat ->
  Ascii.eqb (b64char n) padChar = false /\ isBase64Space (b64char n) = false.
Proof using.
  intros H. do 64 (destruct n as [|n]; [split; reflexivity|]). arith.
Qed.

Lemma sextetsOf_small bytes :
  Forall (fun b => (b < 256)%nat) bytes ->
  Forall (fun v => (v < 64)%nat) (sextetsOf bytes).
Proof using.
  induction bytes as [|a|a b|a b c l IH] using list_ind3; intros H;
    cbn [sextetsOf].
  - constructor.
  - inversion_clear H. repeat (apply List.Forall_cons; [euclid|]). constructor.
  - inversion_clear H as [|? ? Ha H']. inversion_clear H'.
    repeat (apply List.Forall_cons; [euclid|]). constructor.
  - inversion_clear H as [|? ? Ha H']. inversion_clear H' as [|? ? Hb H''].
    inversion_clear H'' as [|? ? Hc Hl]. cbn [app].
    repeat (apply List.Forall_cons; [euclid|]). apply IH, Hl.
Qed.

Lemma octetsOf_sextetsOf bytes :
  Forall (fun b => (b < 256)%nat) bytes ->
  octetsOf (sextetsOf bytes) = Some bytes.
Proof using.
  induction bytes as [|a|a b|a b c l IH] using list_ind3; intros H;
    cbn [sextetsOf octetsOf app].
  - reflexivity.
  - inversion_clear H. do 2 f_equal. euclid.
  - inversion_clear H as [|? ? Ha H']. inversion_clear H'.
    do 2 f_equal; [euclid | f_equal; euclid].
  - inversion_clear H as [|? ? Ha H']. inversion_clear H' as [|? ? Hb H''].
    inversion_clear H'' as [|? ? Hc Hl].
    rewrite (IH Hl). cbn [app]. do 2 f_equal; [euclid|].
    f_equal; [euclid|]. f_equal. euclid.
Qed.

Lemma valuesOf_b64char vs :
  Forall (fun v => (v < 64)%nat) vs ->
  valuesOf (List.map b64char vs) = Some vs.
Proof using.
  induction 1 as [|v vs Hv _ IH]; cbn [List.map valuesOf]; [reflexivity|].
  rewrite (b64value_b64char v Hv), IH. reflexivity.
Qed.

Lemma padding_cases n :
  padding n = [] \/ padding n = [padChar] \/ padding n = [padChar; padChar].
Proof using.
  unfold padding. destruct (n mod 3)%nat as [|[|[|k]]]; auto.
Qed.

Lemma padding_plus3 n : padding (S (S (S n))) = padding n.
Proof using.
  unfold padding. replace (S (S (S n)) mod 3)%nat with (n mod 3)%nat by euclid.
  reflexivity.
Qed.

Lemma encoded_length bytes :
  (length (List.map b64char (sextetsOf bytes) ++ padding (length bytes)) mod 4
   = 0)%nat.
Proof using.
  induction bytes as [|a|a b|a b c l IH] using list_ind3.
  - reflexivity.
  - reflexivity.
  - reflexivity.
  - cbn [length sextetsOf]. rewrite padding_plus3.
    cbn [List.map app length]. revert IH.
    generalize (length (List.map b64char (sextetsOf l) ++ padding (length l))).
    intros n Hn. euclid.
Qed.

Lemma dropPad_plain l :
  Forall (fun c => Ascii.eqb c padChar = false) l -> dropPad l = l.
Proof. intros [|c l' Hc _]; simpl; [reflexivity | rewrite Hc; reflexivity]. Qed.

Lemma stripPadding_encoded bytes :
  Forall (fun b => (b < 256)%nat) bytes ->
  stripPadding (List.map b64char (sextetsOf bytes) ++ padding (length bytes))
  = List.map b64char (sextetsOf bytes).
Proof using.
  intros H. unfold stripPadding. rewrite encoded_length. cbn [Nat.eqb].
  assert (Hplain : Forall (fun c => Ascii.eqb c padChar = false)
                     (rev (List.map b64char (sextetsOf bytes)))).
  { apply List.Forall_rev, List.Forall_map.
    eapply List.Forall_impl; [|apply sextetsOf_small, H].
    intros v Hv. apply (b64char_plain v Hv). }
  rewrite rev_app_distr.
  destruct (padding_cases (length bytes)) as [-> | [-> | ->]]; cbn [rev app].
  - rewrite !(dropPad_plain _ Hplain). apply rev_involutive.
  - cbn [dropPad]. change (Ascii.eqb padChar padChar) with true. cbv iota.
    rewrite (dropPad_plain _ Hplain). apply rev_involutive.
  - cbn [dropPad]. change (Ascii.eqb padChar padChar) with true. cbv iota.
    cbn [dropPad]. change (Ascii.eqb padChar padChar) with true. cbv iota.
    apply rev_involutive.
Qed.

Lemma filter_all {A : Type} (f : A -> bool) (l : list A) :
  Forall (fun x => f x = true) l -> List.filter f l = l.
Proof using.
  induction 1 as [|x l Hx _ IH]; simpl; [reflexivity|]. rewrite Hx, IH.
  reflexivity.
Qed.

Lemma encoded_has_no_space bytes :
  Forall (fun b => (b < 256)%nat) bytes ->
  List.filter (fun c => negb (isBase64Space c))
    (List.map b64char (sextetsOf bytes) ++ padding (length bytes))
  = (List.map b64char (sextetsOf bytes) ++ padding (length bytes))%list.
Proof using.
  intros H. apply filter_all, List.Forall_app. split.
  - apply List.Forall_map. eapply List.Forall_impl; [|apply sextetsOf_small, H].
    intros v Hv. cbv beta. rewrite (proj2 (b64char_plain v Hv)). reflexivity.
  - destruct (padding_cases (length bytes)) as [-> | [-> | ->]];
      repeat constructor.
Qed.

(** [atob] undoes [btoa]. *)
Lemma atob_btoa binary : atob (btoa binary) = Some binary.
Proof using.
  unfold atob, btoa.
  set (bytes := List.map nat_of_ascii (list_ascii_of_string binary)).
  assert (Hbytes : Forall (fun b => (b < 256)%nat) bytes).
  { apply List.Forall_map, List.Forall_forall. intros c _.
    apply nat_ascii_bounded. }
  rewrite list_ascii_of_string_of_list_ascii.
  rewrite (encoded_has_no_space bytes Hbytes),
    (stripPadding_encoded bytes Hbytes),
    (valuesOf_b64char _ (sextetsOf_small bytes Hbytes)),
    (octetsOf_sextetsOf bytes Hbytes).
  f_equal. subst bytes. rewrite List.map_map.
  rewrite (List.map_ext _ (fun c => c)) by apply ascii_nat_embedding.
  rewrite List.map_id. apply string_of_list_ascii_of_string.
Qed.

(** The bytes of a buffer, of values below 256, come back from its base64
    text. *)
Lemma decode_encode bytes :
  Forall (fun b => (0 <= b < 256)%Z) bytes ->
  decode (encode bytes) = Some bytes.
Proof using.
  intros H. unfold decode, encode. rewrite atob_btoa.
  rewrite list_ascii_of_string_of_list_ascii, List.map_map. f_equal.
  induction H as [|b bytes Hb _ IH]; cbn [List.map]; [reflexivity|].
  rewrite IH. f_equal. unfold charCodeAt, fromCharCode.
  rewrite N_ascii_embedding by arith. arith.
Qed.

Lemma wrapInt16_range n : (-32768 <= wrapInt16 n <= 32767)%Z.
Proof.
  unfold wrapInt16. destruct (Z.ltb_spec (n mod 65536) 32768);
    Z.to_euclidean_division_equations; lia.
Qed.

Lemma wrapInt16_congruent n : ((wrapInt16 n - n) mod 65536 = 0)%Z.
Proof.
  unfold wrapInt16. destruct (Z.ltb_spec (n mod 65536) 32768);
    Z.to_euclidean_division_equations; lia.
Qed.

Lemma wrapInt16_small n : (-32768 <= n < 32768)%Z -> wrapInt16 n = n.
Proof.
  intros H. unfold wrapInt16. destruct (Z.ltb_spec (n mod 65536) 32768);
    Z.to_euclidean_division_equations; lia.
Qed.

Lemma truncate_scaled x :
  (-1 <= x)%Q -> (x <= 1)%Q ->
  (-32768 <= truncate (x * 32768) <= 32768)%Z
  /\ ((x < 1)%Q -> (truncate (x * 32768) < 32768)%Z)
  /\ ((x == 1)%Q -> truncate (x * 32768) = 32768%Z).
Proof.
  destruct x as [n d]. unfold Qle, Qlt, Qeq, truncate. cbn.
  intros Hlo Hhi.
  assert (Hd : (Z.pos (d * 1) = Z.pos d)%Z) by lia. rewrite Hd.
  repeat split; intros; Z.to_euclidean_division_equations; nia.
Qed.

Lemma bytesOfInt16Array_range samples :
  Forall (fun b => (0 <= b < 256)%Z) (bytesOfInt16Array samples).
Proof.
  unfold bytesOfInt16Array. induction samples as [|v samples IH]; cbn.
  - constructor.
  - repeat (apply List.Forall_cons; [Z.to_euclidean_division_equations; lia|]).
    exact IH.
Qed.

(** The byte buffer holds the samples, low byte first. *)
Lemma int16ArrayOfBytes_bytesOfInt16Array samples :
  Forall (fun v => (-32768 <= v <= 32767)%Z) samples ->
  int16ArrayOfBytes (bytesOfInt16Array samples) = Some samples.
Proof.
  induction 1 as [|v samples Hv _ IH]; [reflexivity|].
  unfold bytesOfInt16Array in *. cbn [flat_map int16Bytes app].
  cbn [int16ArrayOfBytes]. rewrite IH. do 2 f_equal.
  unfold wrapInt16.
  destruct (Z.ltb_spec ((v mod 256 + 256 * (v / 256 mod 256)) mod 65536) 32768);
    Z.to_euclidean_division_equations; lia.
Qed.

(** ** Relations that every step respects *)

Section Steps.

Variable R : World -> World -> Prop.
Hypothesis R_refl : forall w, R w w.
Hypothesis R_trans : forall w1 w2 w3, R w1 w2 -> R w2 w3 -> R w1 w3.

Lemma steps_ret {A : Type} (a : A) : steps R (ret a).
Proof. intros w. apply R_refl. Qed.

Lemma steps_bind {A B : Type} (c : Js A) (k : A -> Js B) :
  steps R c -> (forall a, steps R (k a)) -> steps R (bind c k).
Proof.
  intros Hc Hk w. unfold bind. specialize (Hc w).
  destruct (c w) as [[a|m] w1]; simpl in *.
  - eapply R_trans; [exact Hc | apply Hk].
  - exact Hc.
Qed.

Lemma steps_tryCatch {A : Type} (c : Js A) (h : string -> Js A) :
  steps R c -> (forall m, steps R (h m)) -> steps R (tryCatch c h).
Proof.
  intros Hc Hh w. unfold tryCatch. specialize (Hc w).
  destruct (c w) as [[a|m] w1]; simpl in *.
  - exact Hc.
  - eapply R_trans; [exact Hc | apply Hh].
Qed.

Lemma steps_forOf {A : Type} (items : list A) (body : A -> Js unit) :
  (forall x, steps R (body x)) -> steps R (forOf items body).
Proof.
  intros H. induction items as [|x items IH]; simpl.
  - apply steps_ret.
  - apply steps_bind; auto.
Qed.

Lemma steps_if {A : Type} (b : bool) (c d : Js A) :
  steps R c -> steps R d -> steps R (if b then c else d).
Proof. destruct b; auto. Qed.

(** A relation that only looks at the view [p] holds across whatever
    preserves [p]. *)
Lemma steps_preserves {X A : Type} (p : World -> X) (c : Js A) :
  (forall w w', p w' = p w -> R w w') -> preserves p c -> steps R c.
Proof. intros Hp Hc w. apply Hp, Hc. Qed.

End Steps.

(** ** What the parts of [onmessage] leave alone *)

Lemma preserves_forOf {X A : Type} (p : World -> X) (items : list A)
  (body : A -> Js unit) :
  (forall x, preserves p (body x)) -> preserves p (forOf items body).
Proof.
  intros H. induction items as [|x items IH]; simpl.
  - apply preserves_ret.
  - apply preserves_bind; auto.
Qed.

Lemma preserves_toolCallLoop {X : Type} (p : World -> X) state calls :
  dispatcherBlind p ->
  (forall v w, p (setJournal v w) = p w) ->
  (forall v w, p (setReactions v w) = p w) ->
  preserves p (toolCallLoop state calls).
Proof.
  intros Hd Hj Hr. apply preserves_forOf. intros fc.
  unfold loopBody, observe, thenSession. frame.
  - apply preserves_modify; auto.
  - apply preserves_handleToolCall, Hd.
  - apply preserves_modify; auto.
Qed.

Lemma preserves_appendInput {X : Type} (p : World -> X) message :
  (forall v w, p (setUserSpeech v w) = p w) -> preserves p (appendInput message).
Proof.
  intros H. unfold appendInput. destruct (inputTranscription message).
  - apply preserves_modify; auto.
  - apply preserves_ret.
Qed.

Lemma preserves_appendOutput {X : Type} (p : World -> X) message :
  (forall v w, p (setAiSpeech v w) = p w) -> preserves p (appendOutput message).
Proof.
  intros H. unfold appendOutput. destruct (outputTranscription message).
  - apply preserves_modify; auto.
  - apply preserves_ret.
Qed.

Lemma preserves_flushTurn {X : Type} (p : World -> X) :
  (forall v w, p (setDrawn v w) = p w) ->
  (forall v w, p (setHistory v w) = p w) ->
  (forall v w, p (setUserSpeech v w) = p w) ->
  (forall v w, p (setAiSpeech v w) = p w) ->
  preserves p flushTurn.
Proof.
  intros Hd Hh Hu Ha. unfold flushTurn. frame.
  - apply preserves_addToHistory; auto.
  - apply preserves_modify; auto.
  - apply preserves_modify; auto.
Qed.

Lemma playbackView_dispatcherBlind : dispatcherBlind playbackView.
Proof. repeat split. Qed.

(** ** The scheduling of a chunk *)

(** Decoding reads and writes nothing of the world. *)
Lemma decodeAudioData_result data rate numChannels :
  exists r, forall w, decodeAudioData data rate numChannels w = (r, w).
Proof.
  unfold decodeAudioData. destruct data as [bytes|]; [|eexists; reflexivity].
  destruct (int16ArrayOfBytes bytes) as [dataInt16|]; [|eexists; reflexivity].
  destruct (Nat.eqb (length dataInt16 / numChannels) 0); eexists; reflexivity.
Qed.

Lemma decodeAudioData_duration data numChannels w buffer w' :
  decodeAudioData data 24000 numChannels w = (Normal buffer, w') ->
  (0 <= duration buffer)%Q.
Proof.
  unfold decodeAudioData. destruct data as [bytes|]; [|discriminate].
  destruct (int16ArrayOfBytes bytes) as [dataInt16|]; [|discriminate].
  destruct (Nat.eqb (length dataInt16 / numChannels) 0); [discriminate|].
  intros [= <- _]. unfold duration; cbn [frameCount sampleRate].
  apply Qle_shift_div_l; [reflexivity|].
  rewrite Qmult_0_l. change 0%Q with (inject_Z 0). rewrite <- Zle_Qle. lia.
Qed.

Lemma schedule_run data w :
  (exists m, schedule data w = (Throw m, caughtUp w))
  \/ (exists buffer,
        decodeAudioData (decode data) 24000 1 (caughtUp w)
        = (Normal buffer, caughtUp w)
        /\ schedule data w = (Normal tt, scheduled buffer w)).
Proof.
  destruct (decodeAudioData_result (decode data) 24000 1) as [r Hr].
  unfold schedule, bind, modify. rewrite Hr.
  destruct r as [buffer|m].
  - right. exists buffer. split; [apply Hr | reflexivity].
  - left. exists m. reflexivity.
Qed.

Lemma backToBack_snoc l x :
  backToBack l ->
  (forall y, last l = Some y -> follows y x) ->
  backToBack (l ++ [x]).
Proof.
  induction l as [|a l IH]; intros Hl Hlast; [exact I|].
  destruct l as [|b l].
  - simpl. split; [apply Hlast; reflexivity | exact I].
  - destruct Hl as [Hab Hrest].
    change (follows a b /\ backToBack ((b :: l) ++ [x])%list).
    split; [exact Hab|]. apply IH; [exact Hrest|].
    intros y Hy. apply Hlast. exact Hy.
Qed.

(** Scheduling a chunk never moves the cursor back. *)
Lemma schedule_advances data :
  steps (fun w w' => (nextStartTime w <= nextStartTime w')%Q) (schedule data).
Proof.
  intros w. destruct (schedule_run data w) as [[m ->]|(buffer & Hdec & ->)];
    cbn [snd nextStartTime caughtUp scheduled setNextStartTime setSources].
  - apply Q.le_max_l.
  - pose proof (decodeAudioData_duration _ _ _ _ _ Hdec) as Hdur.
    pose proof (Q.le_max_l (nextStartTime w) (currentTime w)). lra.
Qed.

(** Scheduling a chunk keeps the buffers back to back and the cursor at
    the end of the last one. *)
Lemma schedule_covers data :
  steps (fun w w' => cursorCovers w -> cursorCovers w') (schedule data).
Proof.
  intros w [Hchain Hlast].
  pose proof (Q.le_max_l (nextStartTime w) (currentTime w)) as Hmax.
  destruct (schedule_run data w) as [[m ->]|(buffer & Hdec & ->)];
    unfold cursorCovers;
    cbn [snd nextStartTime started caughtUp scheduled setNextStartTime
         setSources setStarted setStatus setNodes].
  - split; [exact Hchain|]. intros y Hy. destruct (Hlast y Hy). split; lra.
  - pose proof (decodeAudioData_duration _ _ _ _ _ Hdec) as Hdur. split.
    + apply backToBack_snoc; [exact Hchain|].
      intros y Hy. destruct (Hlast y Hy). unfold follows; cbn [sched_start].
      split; lra.
    + intros y Hy. rewrite last_snoc in Hy. injection Hy as <-.
      cbn [sched_start sched_duration]. split; lra.
Qed.

Section Respects.

Variable R : World -> World -> Prop.
Hypothesis R_refl : forall w, R w w.
Hypothesis R_trans : forall w1 w2 w3, R w1 w2 -> R w2 w3 -> R w1 w3.
Hypothesis R_view : forall w w', playbackView w' = playbackView w -> R w w'.
Hypothesis R_schedule : forall data, steps R (schedule data).

Lemma onmessageBody_respects state message :
  interrupted message = false -> steps R (onmessageBody state message).
Proof.
  intros Hint. unfold onmessageBody. rewrite Hint.
  repeat (apply (steps_bind R R_trans); [| intros _]).
  - apply (steps_preserves R playbackView); [assumption|].
    apply preserves_appendInput. reflexivity.
  - apply (steps_preserves R playbackView); [assumption|].
    apply preserves_appendOutput. reflexivity.
  - apply (steps_preserves R playbackView); [assumption|].
    apply preserves_if; [|apply preserves_ret].
    apply preserves_flushTurn; reflexivity.
  - destruct (audioData message) as [data|]; [|apply (steps_ret R R_refl)].
    apply steps_if; [apply (steps_ret R R_refl) | apply R_schedule].
  - apply (steps_preserves R playbackView); [assumption|].
    destruct (toolCall message) as [calls|]; [|apply preserves_ret].
    apply preserves_toolCallLoop;
      [apply playbackView_dispatcherBlind | reflexivity | reflexivity].
  - apply (steps_ret R R_refl).
Qed.

Lemma step_respects state e w : uninterrupted e -> R w (step state e w).
Proof.
  destruct e as [message|node|inputData|toastId|dt ms]; intros He; simpl.
  - unfold onmessage, task. eapply R_trans.
    + apply (onmessageBody_respects state message He).
    + apply R_view. reflexivity.
  - apply R_view. unfold ended.
    destruct (Nat.eqb _ 0); reflexivity.
  - apply R_view. reflexivity.
  - apply R_view. unfold toastTimeout. destruct (toast w) as [current|];
      [destruct (String.eqb _ _)|]; reflexivity.
  - apply R_view. reflexivity.
Qed.

Lemma run_respects state es w :
  Forall uninterrupted es -> R w (run state es w).
Proof.
  intros Hes. revert w. induction Hes as [|e es He _ IH]; intros w.
  - apply R_refl.
  - simpl. eapply R_trans; [apply (step_respects state e w He) | apply IH].
Qed.

End Respects.

(** ** Parts of [onmessage] that never raise *)

Lemma bind_completes {A B : Type} (c : Js A) (k : A -> Js B) w :
  completes c -> exists a, bind c k w = k a (snd (c w)).
Proof.
  intros Hc. destruct (Hc w) as [a Ha]. exists a. unfold bind.
  destruct (c w) as [r w1]; simpl in *. subst r. reflexivity.
Qed.

Lemma bind_ret_l {A B : Type} (a : A) (k : A -> Js B) w :
  bind (ret a) k w = k a w.
Proof. reflexivity. Qed.

Lemma completes_ret {A : Type} (a : A) : completes (ret a).
Proof. intros w. exists a. reflexivity. Qed.

Lemma completes_modify f : completes (modify f).
Proof. intros w. exists tt. reflexivity. Qed.

Lemma completes_bind {A B : Type} (c : Js A) (k : A -> Js B) :
  completes c -> (forall a, completes (k a)) -> completes (bind c k).
Proof.
  intros Hc Hk w. destruct (bind_completes c k w Hc) as [a ->]. apply Hk.
Qed.

Lemma completes_appendInput message : completes (appendInput message).
Proof.
  unfold appendInput. destruct (inputTranscription message);
    [apply completes_modify | apply completes_ret].
Qed.

Lemma completes_appendOutput message : completes (appendOutput message).
Proof.
  unfold appendOutput. destruct (outputTranscription message);
    [apply completes_modify | apply completes_ret].
Qed.

Lemma completes_addToHistory user ai : completes (addToHistory user ai).
Proof. intros w. exists tt. apply addToHistory_normal. Qed.

Lemma completes_flushTurn : completes flushTurn.
Proof.
  unfold flushTurn.
  apply completes_bind; [intros w; eexists; reflexivity | intros currentUser].
  apply completes_bind; [intros w; eexists; reflexivity | intros currentAi].
  apply completes_bind; [apply completes_addToHistory | intros _].
  apply completes_bind; [apply completes_modify | intros _].
  apply completes_modify.
Qed.

Lemma completes_forOf {A : Type} (items : list A) (body : A -> Js unit) :
  (forall x, completes (body x)) -> completes (forOf items body).
Proof.
  intros H. induction items as [|x items IH]; simpl.
  - apply completes_ret.
  - apply completes_bind; auto.
Qed.

Lemma completes_toolCallLoop state calls : completes (toolCallLoop state calls).
Proof.
  apply completes_forOf. intros fc. unfold loopBody.
  apply completes_bind; [apply completes_modify | intros _].
  apply completes_bind; [apply handleToolCall_completes | intros result].
  apply completes_modify.
Qed.

(** A chunk that can be played is decoded into a buffer. *)
Lemma decodeAudioData_playable data :
  playable data = true ->
  exists buffer, forall w,
    decodeAudioData (decode data) 24000 1 w = (Normal buffer, w).
Proof.
  unfold playable, decodeAudioData. destruct (decode data) as [bytes|];
    [|discriminate].
  destruct (int16ArrayOfBytes bytes) as [[|x dataInt16]|]; try discriminate.
  intros _. rewrite Nat.div_1_r. eexists. intros w. reflexivity.
Qed.

Lemma schedule_playable data w :
  playable data = true ->
  exists buffer,
    decodeAudioData (decode data) 24000 1 (caughtUp w)
    = (Normal buffer, caughtUp w)
    /\ schedule data w = (Normal tt, scheduled buffer w).
Proof.
  intros Hplay. destruct (decodeAudioData_playable data Hplay) as [buffer Hb].
  exists buffer. split; [apply Hb|].
  unfold schedule, bind, modify. rewrite Hb. reflexivity.
Qed.

Lemma completes_audio message :
  wellFormed message ->
  completes
    match audioData message with
    | Some data => if falsy data then ret tt else schedule data
    | None => ret tt
    end.
Proof.
  unfold wellFormed. destruct (audioData message) as [data|];
    [|intros _; apply completes_ret].
  intros [Hfalsy|Hplay].
  - rewrite Hfalsy. apply completes_ret.
  - destruct (falsy data); [apply completes_ret|].
    intros w. destruct (schedule_playable data w Hplay) as (buffer & _ & ->).
    exists tt. reflexivity.
Qed.

(** The body of [onmessage] on a well-formed message runs to its end. *)
Lemma completes_onmessageBody state message :
  wellFormed message -> completes (onmessageBody state message).
Proof.
  intros Hwf. unfold onmessageBody.
  apply completes_bind; [apply completes_appendInput | intros _].
  apply completes_bind; [apply completes_appendOutput | intros _].
  apply completes_bind;
    [destruct (turnComplete message);
       [apply completes_flushTurn | apply completes_ret] | intros _].
  apply completes_bind; [apply completes_audio, Hwf | intros _].
  apply completes_bind;
    [destruct (toolCall message);
       [apply completes_toolCallLoop | apply completes_ret] | intros _].
  destruct (interrupted message); [|apply completes_ret].
  unfold stopPlayback.
  repeat (apply completes_bind; [apply completes_modify | intros _]).
  apply completes_modify.
Qed.

(** What a view is at the end, when the first part never raises and the
    second always leaves the view at [v]. *)
Lemma ends_with {X A B : Type} (p : World -> X) (v : X) (c : Js A)
  (k : A -> Js B) :
  completes c -> (forall a w, p (snd (k a w)) = v) ->
  forall w, p (snd (bind c k w)) = v.
Proof.
  intros Hc Hk w. destruct (bind_completes c k w Hc) as [a ->]. apply Hk.
Qed.

(** An interruption flag on a well-formed message: the last thing that
    the handler does is to clear the set of sources and to put the cursor
    at zero. *)
Lemma onmessage_interrupted state message w :
  interrupted message = true ->
  wellFormed message ->
  nextStartTime (onmessage state message w) = 0%Q
  /\ sources (onmessage state message w) = ∅.
Proof.
  intros Hint Hwf. unfold onmessage, task, onmessageBody. rewrite Hint.
  split.
  - revert w.
    apply (ends_with (fun w => nextStartTime (runReactions w)));
      [apply completes_appendInput | intros _].
    apply (ends_with (fun w => nextStartTime (runReactions w)));
      [apply completes_appendOutput | intros _].
    apply (ends_with (fun w => nextStartTime (runReactions w)));
      [destruct (turnComplete message);
         [apply completes_flushTurn | apply completes_ret] | intros _].
    apply (ends_with (fun w => nextStartTime (runReactions w)));
      [apply completes_audio, Hwf | intros _].
    apply (ends_with (fun w => nextStartTime (runReactions w)));
      [destruct (toolCall message);
         [apply completes_toolCallLoop | apply completes_ret] | intros _].
    reflexivity.
  - revert w.
    apply (ends_with (fun w => sources (runReactions w)));
      [apply completes_appendInput | intros _].
    apply (ends_with (fun w => sources (runReactions w)));
      [apply completes_appendOutput | intros _].
    apply (ends_with (fun w => sources (runReactions w)));
      [destruct (turnComplete message);
         [apply completes_flushTurn | apply completes_ret] | intros _].
    apply (ends_with (fun w => sources (runReactions w)));
      [apply completes_audio, Hwf | intros _].
    apply (ends_with (fun w => sources (runReactions w)));
      [destruct (toolCall message);
         [apply completes_toolCallLoop | apply completes_ret] | intros _].
    reflexivity.
Qed.

(** ** Transcripts *)

Lemma append_nil_r (s : string) : s ++ EmptyString = s.
Proof. induction s as [|c s IH]; unfold_append; congruence. Qed.

Lemma append_assoc (s t u : string) : (s ++ t) ++ u = s ++ t ++ u.
Proof. induction s as [|c s IH]; unfold_append; congruence. Qed.

Lemma transcriptView_dispatcherBlind : dispatcherBlind transcriptView.
Proof. repeat split. Qed.

Lemma preserves_decodeAudioData {X : Type} (p : World -> X) data rate n :
  preserves p (decodeAudioData data rate n).
Proof.
  intros w. destruct (decodeAudioData_result data rate n) as [r ->].
  reflexivity.
Qed.

Lemma preserves_schedule {X : Type} (p : World -> X) data :
  playbackBlind p -> preserves p (schedule data).
Proof.
  intros (Hs & Hn & Hsrc & Hnodes & Hst & _).
  unfold schedule, start, createBufferSource. frame;
    try (apply preserves_modify; auto).
  - apply preserves_decodeAudioData.
  - intros w. apply Hnodes.
Qed.

Lemma preserves_stopPlayback {X : Type} (p : World -> X) :
  playbackBlind p -> preserves p stopPlayback.
Proof.
  intros (_ & Hn & Hsrc & _ & _ & Hstop).
  unfold stopPlayback. frame; apply preserves_modify; auto.
Qed.

Lemma transcriptView_playbackBlind : playbackBlind transcriptView.
Proof. repeat split. Qed.

(** What is left of the handler once the transcripts are dealt with does
    not touch them. *)
Lemma preserves_afterTranscripts state message :
  preserves transcriptView
    (match audioData message with
     | Some data => if falsy data then ret tt else schedule data
     | None => ret tt
     end ;;
     match toolCall message with
     | Some calls => toolCallLoop state calls
     | None => ret tt
     end ;;
     if interrupted message then stopPlayback else ret tt).
Proof.
  apply preserves_bind; [|intros _; apply preserves_bind; [|intros _]].
  - destruct (audioData message) as [data|]; [|apply preserves_ret].
    apply preserves_if; [apply preserves_ret|].
    apply preserves_schedule, transcriptView_playbackBlind.
  - destruct (toolCall message) as [calls|]; [|apply preserves_ret].
    apply preserves_toolCallLoop;
      [apply transcriptView_dispatcherBlind | reflexivity | reflexivity].
  - apply preserves_if; [|apply preserves_ret].
    apply preserves_stopPlayback, transcriptView_playbackBlind.
Qed.

Lemma appended_view message w :
  transcriptView (appended message w)
  = (userSpeech w ++ inputText message, aiSpeech w ++ outputText message,
     history w).
Proof.
  unfold appended, appendInput, appendOutput, inputText, outputText,
    transcriptView.
  destruct (inputTranscription message), (outputTranscription message);
    cbn; rewrite ?append_nil_r; reflexivity.
Qed.

Lemma onmessage_transcripts state message w :
  transcriptView (onmessage state message w)
  = transcriptView
      (snd ((if turnComplete message then flushTurn else ret tt)
              (appended message w))).
Proof.
  unfold onmessage, task, onmessageBody.
  destruct (bind_completes (appendInput message)
              (fun _ => appendOutput message ;;
                 (if turnComplete message then flushTurn else ret tt) ;;
                 match audioData message with
                 | Some data => if falsy data then ret tt else schedule data
                 | None => ret tt
                 end ;;
                 match toolCall message with
                 | Some calls => toolCallLoop state calls
                 | None => ret tt
                 end ;;
                 if interrupted message then stopPlayback else ret tt)
              w (completes_appendInput message)) as [_ ->].
  destruct (bind_completes (appendOutput message)
              (fun _ =>
                 (if turnComplete message then flushTurn else ret tt) ;;
                 match audioData message with
                 | Some data => if falsy data then ret tt else schedule data
                 | None => ret tt
                 end ;;
                 match toolCall message with
                 | Some calls => toolCallLoop state calls
                 | None => ret tt
                 end ;;
                 if interrupted message then stopPlayback else ret tt)
              (snd (appendInput message w))
              (completes_appendOutput message)) as [_ ->].
  fold (appended message w).
  destruct (bind_completes
              (if turnComplete message then flushTurn else ret tt)
              (fun _ =>
                 match audioData message with
                 | Some data => if falsy data then ret tt else schedule data
                 | None => ret tt
                 end ;;
                 match toolCall message with
                 | Some calls => toolCallLoop state calls
                 | None => ret tt
                 end ;;
                 if interrupted message then stopPlayback else ret tt)
              (appended message w)) as [_ ->].
  { destruct (turnComplete message);
      [apply completes_flushTurn | apply completes_ret]. }
  change (transcriptView (runReactions ?x)) with (transcriptView x).
  apply preserves_afterTranscripts.
Qed.

Lemma addToHistory_history user ai w :
  history (snd (addToHistory user ai w))
  = if blank user && blank ai then history w
    else take 5
           (mkConversationTurn (randomId (drawn w)) user ai (dateNow w)
            :: history w).
Proof.
  unfold addToHistory, blank.
  destruct (falsy (trim user) && falsy (trim ai)); reflexivity.
Qed.

(** The flush, spelled out. *)
Lemma flushTurn_run w :
  flushTurn w
  = (Normal tt,
     setUserSpeech EmptyString
       (setAiSpeech EmptyString
          (snd (addToHistory (userSpeech w) (aiSpeech w) w)))).
Proof.
  unfold flushTurn.
  change (bind (gets userSpeech) ?k w) with (k (userSpeech w) w). cbv beta.
  change (bind (gets aiSpeech) ?k w) with (k (aiSpeech w) w). cbv beta.
  destruct (bind_completes (addToHistory (userSpeech w) (aiSpeech w))
              (fun _ => modify (setAiSpeech EmptyString) ;;
                        modify (setUserSpeech EmptyString)) w
              (completes_addToHistory _ _)) as [_ ->].
  reflexivity.
Qed.

Lemma flushTurn_view w :
  transcriptView (snd (flushTurn w))
  = (EmptyString, EmptyString,
     if blank (userSpeech w) && blank (aiSpeech w) then history w
     else take 5
            (mkConversationTurn (randomId (drawn w)) (userSpeech w) (aiSpeech w)
               (dateNow w) :: history w)).
Proof.
  rewrite flushTurn_run. unfold transcriptView.
  cbn [snd userSpeech aiSpeech history setUserSpeech setAiSpeech].
  rewrite addToHistory_history. reflexivity.
Qed.

(** Between two flushes the transcripts accumulate the deltas and the
    history stays. *)
Lemma step_midTurn state e w :
  midTurn e ->
  transcriptView (step state e w)
  = (userSpeech w ++ inputDeltas [e], aiSpeech w ++ outputDeltas [e], history w).
Proof.
  destruct e as [message|node|inputData|toastId|dt ms]; intros He;
    cbn [step inputDeltas outputDeltas]; rewrite ?append_nil_r.
  - rewrite onmessage_transcripts. simpl in He. rewrite He. cbn [ret snd].
    apply appended_view.
  - unfold ended. destruct (Nat.eqb _ 0); reflexivity.
  - reflexivity.
  - unfold toastTimeout. destruct (toast w) as [current|];
      [destruct (String.eqb _ _)|]; reflexivity.
  - reflexivity.
Qed.

Lemma inputDeltas_cons e es :
  inputDeltas (e :: es) = inputDeltas [e] ++ inputDeltas es.
Proof.
  destruct e; cbn [inputDeltas]; rewrite ?append_nil_r, ?append_nil_l;
    reflexivity.
Qed.

Lemma outputDeltas_cons e es :
  outputDeltas (e :: es) = outputDeltas [e] ++ outputDeltas es.
Proof.
  destruct e; cbn [outputDeltas]; rewrite ?append_nil_r, ?append_nil_l;
    reflexivity.
Qed.

Lemma run_midTurn state es w :
  Forall midTurn es ->
  transcriptView (run state es w)
  = (userSpeech w ++ inputDeltas es, aiSpeech w ++ outputDeltas es, history w).
Proof.
  intros Hes. revert w. induction Hes as [|e es He _ IH]; intros w.
  - cbn. rewrite !append_nil_r. reflexivity.
  - change (run state (e :: es) w) with (run state es (step state e w)).
    rewrite IH. pose proof (step_midTurn state e w He) as Hstep.
    injection Hstep as -> -> ->.
    rewrite (inputDeltas_cons e es), (outputDeltas_cons e es), !append_assoc.
    reflexivity.
Qed.

(** ** The dispatcher does not look at the session *)

Lemma commutes_ret {A : Type} f (a : A) : commutes f (ret a).
Proof. intros w. reflexivity. Qed.

Lemma commutes_bind {A B : Type} f (c : Js A) (k : A -> Js B) :
  commutes f c -> (forall a, commutes f (k a)) -> commutes f (bind c k).
Proof.
  intros Hc Hk w. unfold bind. rewrite Hc.
  destruct (c w) as [[a|m] w1]; cbn [fst snd].
  - apply Hk.
  - reflexivity.
Qed.

Lemma commutes_tryCatch {A : Type} f (c : Js A) (h : string -> Js A) :
  commutes f c -> (forall m, commutes f (h m)) -> commutes f (tryCatch c h).
Proof.
  intros Hc Hh w. unfold tryCatch. rewrite Hc.
  destruct (c w) as [[a|m] w1]; cbn [fst snd].
  - reflexivity.
  - apply Hh.
Qed.

Lemma commutes_if {A : Type} f (b : bool) (c d : Js A) :
  commutes f c -> commutes f d -> commutes f (if b then c else d).
Proof. destruct b; auto. Qed.

Lemma commutes_gets {A : Type} f (p : World -> A) :
  (forall w, p (f w) = p w) -> commutes f (gets p).
Proof. intros H w. unfold gets. rewrite H. reflexivity. Qed.

Lemma commutes_modify f (g : World -> World) :
  (forall w, g (f w) = f (g w)) -> commutes f (modify g).
Proof. intros H w. unfold modify. rewrite H. reflexivity. Qed.

Lemma commutes_generateSafeId f : sessionOnly f -> commutes f generateSafeId.
Proof.
  intros (Hd & _ & _ & _ & Hsd & _) w. unfold generateSafeId.
  rewrite Hd, Hsd. reflexivity.
Qed.

Lemma commutes_updateState {B : Type} f (initial : B)
  (updater : ProductivityState -> Completion ProductivityState * B) :
  sessionOnly f -> commutes f (updateState initial updater).
Proof.
  intros (_ & _ & _ & Hs & _ & _ & _ & Hss & Hu & He & Hsu & Hse) w.
  unfold updateState. rewrite Hs, Hu, He.
  destruct (updater (store w)) as [[next|m] assigned]; cbn [fst snd].
  - rewrite Hsu, Hss. reflexivity.
  - rewrite Hsu, Hse. reflexivity.
Qed.

Ltac commute :=
  repeat match goal with
    | |- commutes _ (ret _) => apply commutes_ret
    | |- commutes _ (if _ then _ else _) => apply commutes_if
    | |- commutes _ (tryCatch _ _) => apply commutes_tryCatch
    | |- commutes _ (bind _ _) => apply commutes_bind
    | |- forall _, _ => intro
    end.

Lemma commutes_addLog f message type toolName :
  sessionOnly f -> commutes f (addLog message type toolName).
Proof.
  intros Hf. pose proof Hf as (_ & Hn & Hl & _ & _ & Hsl & Hst & _).
  unfold addLog, Date_now. commute.
  - apply commutes_generateSafeId, Hf.
  - apply commutes_gets, Hn.
  - apply commutes_modify. intros w. rewrite Hl, Hsl. reflexivity.
  - apply commutes_generateSafeId, Hf.
  - apply commutes_modify. intros w. apply Hst.
Qed.

Lemma commutes_handleToolCall f state fc :
  sessionOnly f -> commutes f (handleToolCall state fc).
Proof.
  intros Hf. pose proof Hf as (_ & Hn & _).
  unfold handleToolCall, getWorkspaceData, setTheme, setLanguage, addTodo,
    addNote, addEvent, deleteItem, markTodoComplete, Date_now.
  commute;
    first [ apply commutes_addLog; assumption
          | apply commutes_generateSafeId; assumption
          | apply commutes_updateState; assumption
          | apply commutes_gets; assumption ].
Qed.

Lemma commutes_dispatchAll f state calls w :
  sessionOnly f ->
  dispatchAll state calls (f w)
  = (fst (dispatchAll state calls w), f (snd (dispatchAll state calls w))).
Proof.
  intros Hf. revert w. induction calls as [|fc calls IH]; intros w;
    [reflexivity|].
  cbn [dispatchAll]. rewrite (commutes_handleToolCall f state fc Hf w).
  cbn [fst snd]. rewrite IH. reflexivity.
Qed.

Lemma setJournal_sessionOnly j : sessionOnly (setJournal j).
Proof. repeat split. Qed.

Lemma setReactions_sessionOnly r : sessionOnly (setReactions r).
Proof. repeat split. Qed.

Lemma sessionOnly_compose f g :
  sessionOnly f -> sessionOnly g -> sessionOnly (fun w => f (g w)).
Proof.
  intros (F1 & F2 & F3 & F4 & F5 & F6 & F7 & F8 & F9 & F10 & F11 & F12)
         (G1 & G2 & G3 & G4 & G5 & G6 & G7 & G8 & G9 & G10 & G11 & G12).
  repeat split; intros; congruence.
Qed.

Lemma reactions_dispatcherBlind : dispatcherBlind reactions.
Proof. repeat split. Qed.

Lemma dispatchAll_calls state calls w :
  List.map fst (fst (dispatchAll state calls w)) = calls.
Proof.
  revert w. induction calls as [|fc calls IH]; intros w; [reflexivity|].
  cbn [dispatchAll fst List.map]. rewrite IH. reflexivity.
Qed.

Lemma loopBody_run state fc w :
  loopBody state fc w
  = (Normal tt,
     setReactions
       (reactions w
        ++ [respond (fc, textOf (fst (handleToolCall state fc w)))])%list
       (setJournal (journal w ++ [dispatched fc])%list
          (snd (handleToolCall state fc w)))).
Proof.
  unfold loopBody.
  change (bind (observe ?o) ?k w) with (k tt (setJournal (journal w ++ [o]) w)).
  cbv beta. unfold bind.
  rewrite (commutes_handleToolCall _ state fc (setJournal_sessionOnly _) w).
  destruct (handleToolCall_completes state fc w) as [result Hresult].
  rewrite Hresult. cbn [fst textOf]. unfold thenSession, modify. f_equal.
  set (w1 := snd (handleToolCall state fc w)).
  cbn [reactions setJournal].
  rewrite (preserves_handleToolCall reactions state fc
             reactions_dispatcherBlind w : reactions w1 = reactions w).
  reflexivity.
Qed.

(** The loop, as one step: every call is dispatched, in order, each in the
    world left by the one before; the journal records the dispatches; the
    responses are queued behind the reactions that were waiting. *)
Lemma toolCallLoop_run state calls w :
  toolCallLoop state calls w
  = (Normal tt,
     setReactions
       (reactions w ++ List.map respond (fst (dispatchAll state calls w)))%list
       (setJournal (journal w ++ List.map dispatched calls)%list
          (snd (dispatchAll state calls w)))).
Proof.
  revert w. induction calls as [|fc calls IH]; intros w.
  - cbn. rewrite !app_nil_r. destruct w; reflexivity.
  - change (toolCallLoop state (fc :: calls))
      with (bind (loopBody state fc) (fun _ => toolCallLoop state calls)).
    unfold bind. rewrite loopBody_run, IH. f_equal.
    set (w1 := snd (handleToolCall state fc w)).
    rewrite (commutes_dispatchAll
               (fun v => setReactions _ (setJournal _ v)) state calls w1)
      by (apply (sessionOnly_compose (setReactions _) (setJournal _));
          [apply setReactions_sessionOnly | apply setJournal_sessionOnly]).
    cbn [dispatchAll fst snd List.map reactions journal setReactions
         setJournal].
    fold w1. rewrite <- !app_assoc. reflexivity.
Qed.

(** ** The dispatcher: what the tools do to the store *)

Lemma bind_updateState {B C : Type} (initial : B)
  (updater : ProductivityState -> Completion ProductivityState * B)
  (k : B -> Js C) w next assigned :
  updater (store w) = (Normal next, assigned) ->
  bind (updateState initial updater) k w
  = k (if runsAtCall (updates w) then assigned else initial)
      (setStore next (setUpdates (S (updates w)) w)).
Proof. intros H. unfold bind, updateState. rewrite H. reflexivity. Qed.

Lemma tryCatch_normal {A : Type} (c : Js A) (h : string -> Js A) w a w' :
  c w = (Normal a, w') -> tryCatch c h w = (Normal a, w').
Proof. intros H. unfold tryCatch. rewrite H. reflexivity. Qed.

(** A call of [deleteItem] whose updater raises nothing: the store of the
    next render, and the answer, which tells of a removal only when the
    updater has run at the call. *)
Lemma deleteItem_outcome state fc w next found :
  fc_name fc = "deleteItem" ->
  deleteUpdater (fc_args fc !! "type") (fc_args fc !! "title") (store w)
  = (Normal next, found) ->
  store (snd (handleToolCall state fc w)) = next
  /\ fst (handleToolCall state fc w)
     = Normal
         (if runsAtCall (updates w) && found
          then "OK: Removed " ++ show (fc_args fc !! "type") ++ " " ++ dq
               ++ show (fc_args fc !! "title") ++ dq ++ "."
          else "Error: Item " ++ dq ++ show (fc_args fc !! "title") ++ dq
               ++ " not found.").
Proof.
  intros Hname Hupd. rewrite (handleToolCall_deleteItem _ _ _ Hname).
  set (w1 := snd (addLog _ _ _ w)).
  assert (Hw1 : store w1 = store w) by apply store_addLog.
  assert (Hu1 : updates w1 = updates w) by apply updates_addLog.
  rewrite <- Hw1 in Hupd. rewrite <- Hu1. clearbody w1.
  destruct (runsAtCall (updates w1)) eqn:Hruns; destruct found; cbn [andb].
  1: erewrite tryCatch_normal;
       [|unfold deleteItem; rewrite (bind_updateState _ _ _ _ _ _ Hupd), Hruns;
         cbn [negb]; rewrite bind_addLog; reflexivity].
  2-4: erewrite tryCatch_normal;
       [|unfold deleteItem; rewrite (bind_updateState _ _ _ _ _ _ Hupd), Hruns;
         reflexivity].
  all: cbn [fst snd]; rewrite ?store_addLog; split; reflexivity.
Qed.

Lemma markTodoComplete_outcome state fc w next found :
  fc_name fc = "markTodoComplete" ->
  completeUpdater (fc_args fc !! "title") (store w) = (Normal next, found) ->
  store (snd (handleToolCall state fc w)) = next
  /\ fst (handleToolCall state fc w)
     = Normal
         (if runsAtCall (updates w) && found
          then "OK: Marked " ++ dq ++ show (fc_args fc !! "title") ++ dq
               ++ " as done."
          else "Error: Task " ++ dq ++ show (fc_args fc !! "title") ++ dq
               ++ " not found.").
Proof.
  intros Hname Hupd. rewrite (handleToolCall_markTodoComplete _ _ _ Hname).
  set (w1 := snd (addLog _ _ _ w)).
  assert (Hw1 : store w1 = store w) by apply store_addLog.
  assert (Hu1 : updates w1 = updates w) by apply updates_addLog.
  rewrite <- Hw1 in Hupd. rewrite <- Hu1. clearbody w1.
  destruct (runsAtCall (updates w1)) eqn:Hruns; destruct found; cbn [andb].
  1: erewrite tryCatch_normal;
       [|unfold markTodoComplete; rewrite (bind_updateState _ _ _ _ _ _ Hupd), Hruns;
         cbn [negb]; rewrite bind_addLog; reflexivity].
  2-4: erewrite tryCatch_normal;
       [|unfold markTodoComplete; rewrite (bind_updateState _ _ _ _ _ _ Hupd), Hruns;
         reflexivity].
  all: cbn [fst snd]; rewrite ?store_addLog; split; reflexivity.
Qed.

(** The updater of [deleteItem] on a well-typed list: the filter, and
    [found] exactly when the filter has removed something. *)
Lemma deleteUpdater_todo query prev :
  titled todo_title (todos prev) ->
  deleteUpdater (Some "todo") (Some query) prev
  = (Normal
       (withTodos
          (List.filter (fun t => negb (titleHas query (todo_title t)))
             (todos prev))
          prev),
     Nat.ltb
       (length (List.filter (fun t => negb (titleHas query (todo_title t)))
                  (todos prev)))
       (length (todos prev))).
Proof.
  intros H. unfold deleteUpdater. cbn [strictEq].
  change (String.eqb "todo" "todo") with true. cbn match.
  rewrite (filterOut_titled _ _ _ H). reflexivity.
Qed.

Lemma deleteUpdater_note query prev :
  titled note_title (notes prev) ->
  deleteUpdater (Some "note") (Some query) prev
  = (Normal
       (withNotes
          (List.filter (fun n => negb (titleHas query (note_title n)))
             (notes prev))
          prev),
     Nat.ltb
       (length (List.filter (fun n => negb (titleHas query (note_title n)))
                  (notes prev)))
       (length (notes prev))).
Proof.
  intros H. unfold deleteUpdater. cbn [strictEq].
  change (String.eqb "note" "todo") with false.
  change (String.eqb "note" "note") with true. cbn match.
  rewrite (filterOut_titled _ _ _ H). reflexivity.
Qed.

Lemma deleteUpdater_event query prev :
  titled event_title (events prev) ->
  deleteUpdater (Some "event") (Some query) prev
  = (Normal
       (withEvents
          (List.filter (fun e => negb (titleHas query (event_title e)))
             (events prev))
          prev),
     Nat.ltb
       (length (List.filter (fun e => negb (titleHas query (event_title e)))
                  (events prev)))
       (length (events prev))).
Proof.
  intros H. unfold deleteUpdater. cbn [strictEq].
  change (String.eqb "event" "todo") with false.
  change (String.eqb "event" "note") with false.
  change (String.eqb "event" "event") with true. cbn match.
  rewrite (filterOut_titled _ _ _ H). reflexivity.
Qed.

Lemma completeUpdater_titled query prev :
  titled todo_title (todos prev) ->
  completeUpdater (Some query) prev
  = (Normal
       (withTodos
          (List.map
             (fun t => if titleHas query (todo_title t) then complete t else t)
             (todos prev))
          prev),
     existsb (fun t => titleHas query (todo_title t)) (todos prev)).
Proof.
  intros H. unfold completeUpdater.
  rewrite (completeMatching_titled _ _ H). reflexivity.
Qed.

Lemma kept_iff {A : Type} (titleOf : A -> option string) query items x :
  In x (List.filter (fun y => negb (titleHas query (titleOf y))) items)
  <-> In x items /\ ~ titleMatches query (titleOf x).
Proof.
  rewrite filter_In, negb_true_iff, <- titleHas_spec.
  destruct (titleHas query (titleOf x)); intuition congruence.
Qed.

Lemma completed_pointwise query items :
  Forall2
    (fun t t' =>
       (titleMatches query (todo_title t) -> markedComplete t t')
       /\ (~ titleMatches query (todo_title t) -> t' = t))
    items
    (List.map (fun t => if titleHas query (todo_title t) then complete t else t)
       items).
Proof.
  induction items as [|t items IH]; simpl; constructor; [|exact IH].
  rewrite <- titleHas_spec.
  destruct (titleHas query (todo_title t)); split; intros H;
    try congruence.
  repeat split.
Qed.

(** C5. A [deleteItem] call for a type among todo, note and event, and a
    [markTodoComplete] call, with the query [query] as title, on a store
    whose items of that type all have a title: the items of that type
    whose title contains the query as a case-insensitive substring are
    removed, respectively marked complete ([completed] becomes true and
    nothing else of the todo changes), all of them in the one call; every
    other item, and the rest of the store, is as before. The store is the
    state of the application as of its next render, whether React runs
    the updater at the call or then. *)
Theorem delete_and_complete_affect_exactly_the_matches state fc w query :
  fc_args fc !! "title" = Some query ->
  let after := store (snd (handleToolCall state fc w)) in
  (fc_name fc = "deleteItem" -> fc_args fc !! "type" = Some "todo" ->
   titled todo_title (todos (store w)) ->
   after
   = withTodos
       (List.filter (fun t => negb (titleHas query (todo_title t)))
          (todos (store w)))
       (store w)
   /\ forall t, In t (todos after)
                <-> In t (todos (store w))
                    /\ ~ titleMatches query (todo_title t))
  /\ (fc_name fc = "deleteItem" -> fc_args fc !! "type" = Some "note" ->
      titled note_title (notes (store w)) ->
      after
      = withNotes
          (List.filter (fun n => negb (titleHas query (note_title n)))
             (notes (store w)))
          (store w)
      /\ forall n, In n (notes after)
                   <-> In n (notes (store w))
                       /\ ~ titleMatches query (note_title n))
  /\ (fc_name fc = "deleteItem" -> fc_args fc !! "type" = Some "event" ->
      titled event_title (events (store w)) ->
      after
      = withEvents
          (List.filter (fun e => negb (titleHas query (event_title e)))
             (events (store w)))
          (store w)
      /\ forall e, In e (events after)
                   <-> In e (events (store w))
                       /\ ~ titleMatches query (event_title e))
  /\ (fc_name fc = "markTodoComplete" ->
      titled todo_title (todos (store w)) ->
      after
      = withTodos
          (List.map
             (fun t => if titleHas query (todo_title t) then complete t else t)
             (todos (store w)))
          (store w)
      /\ Forall2
           (fun t t' =>
              (titleMatches query (todo_title t) -> markedComplete t t')
              /\ (~ titleMatches query (todo_title t) -> t' = t))
           (todos (store w)) (todos after)).
Proof.
  intros Htitle after. subst after. split; [|split; [|split]].
  1,2,3: intros Hname Htype Htitled.
  4: intros Hname Htitled.
  - pose proof (deleteUpdater_todo query _ Htitled) as Hupd.
    rewrite <- Htype, <- Htitle in Hupd.
    destruct (deleteItem_outcome state fc w _ _ Hname Hupd) as [-> _].
    split; [reflexivity|]. intros t. apply kept_iff.
  - pose proof (deleteUpdater_note query _ Htitled) as Hupd.
    rewrite <- Htype, <- Htitle in Hupd.
    destruct (deleteItem_outcome state fc w _ _ Hname Hupd) as [-> _].
    split; [reflexivity|]. intros t. apply kept_iff.
  - pose proof (deleteUpdater_event query _ Htitled) as Hupd.
    rewrite <- Htype, <- Htitle in Hupd.
    destruct (deleteItem_outcome state fc w _ _ Hname Hupd) as [-> _].
    split; [reflexivity|]. intros t. apply kept_iff.
  - pose proof (completeUpdater_titled query _ Htitled) as Hupd.
    rewrite <- Htitle in Hupd.
    destruct (markTodoComplete_outcome state fc w _ _ Hname Hupd) as [-> _].
    split; [reflexivity|]. apply completed_pointwise.
Qed.

(** C6. A [deleteItem] or [markTodoComplete] call, on a store whose items
    of the requested type all have a title none of which contains the query
    as a case-insensitive substring: the result is the not-found error
    text, [Error: Item "query" not found.] for [deleteItem] and
    [Error: Task "query" not found.] for [markTodoComplete], and the store
    is as before. *)
Theorem no_match_is_an_error_and_changes_nothing state fc w query :
  fc_args fc !! "title" = Some query ->
  let result := fst (handleToolCall state fc w) in
  let after := store (snd (handleToolCall state fc w)) in
  let itemNotFound :=
    Normal ("Error: Item " ++ dq ++ query ++ dq ++ " not found.") in
  let taskNotFound :=
    Normal ("Error: Task " ++ dq ++ query ++ dq ++ " not found.") in
  (fc_name fc = "deleteItem" -> fc_args fc !! "type" = Some "todo" ->
   titled todo_title (todos (store w)) ->
   (forall t, In t (todos (store w)) -> ~ titleMatches query (todo_title t)) ->
   result = itemNotFound /\ after = store w)
  /\ (fc_name fc = "deleteItem" -> fc_args fc !! "type" = Some "note" ->
      titled note_title (notes (store w)) ->
      (forall n, In n (notes (store w)) -> ~ titleMatches query (note_title n)) ->
      result = itemNotFound /\ after = store w)
  /\ (fc_name fc = "deleteItem" -> fc_args fc !! "type" = Some "event" ->
      titled event_title (events (store w)) ->
      (forall e, In e (events (store w)) ->
                 ~ titleMatches query (event_title e)) ->
      result = itemNotFound /\ after = store w)
  /\ (fc_name fc = "markTodoComplete" ->
      titled todo_title (todos (store w)) ->
      (forall t, In t (todos (store w)) -> ~ titleMatches query (todo_title t)) ->
      result = taskNotFound /\ after = store w).
Proof.
  intros Htitle result after itemNotFound taskNotFound.
  subst result after itemNotFound taskNotFound.
  assert (Hkeep : forall (A : Type) (titleOf : A -> option string) items,
             (forall x, In x items -> ~ titleMatches query (titleOf x)) ->
             forall x, In x items -> negb (titleHas query (titleOf x)) = true).
  { intros A titleOf items Hnone x Hx. apply negb_true_iff.
    destruct (titleHas query (titleOf x)) eqn:E; [|reflexivity].
    apply titleHas_spec in E. destruct (Hnone x Hx E). }
  split; [|split; [|split]].
  - intros Hname Htype Htitled Hnone.
    pose proof (deleteUpdater_todo query _ Htitled) as Hupd.
    rewrite (filter_none_out _ _ (Hkeep _ _ _ Hnone)), Nat.ltb_irrefl,
      withTodos_same, <- Htype in Hupd.
    rewrite <- Htitle in Hupd at 1.
    destruct (deleteItem_outcome state fc w _ _ Hname Hupd) as [Hs Hr].
    rewrite Hr, Hs, Htitle, andb_false_r. split; reflexivity.
  - intros Hname Htype Htitled Hnone.
    pose proof (deleteUpdater_note query _ Htitled) as Hupd.
    rewrite (filter_none_out _ _ (Hkeep _ _ _ Hnone)), Nat.ltb_irrefl,
      withNotes_same, <- Htype in Hupd.
    rewrite <- Htitle in Hupd at 1.
    destruct (deleteItem_outcome state fc w _ _ Hname Hupd) as [Hs Hr].
    rewrite Hr, Hs, Htitle, andb_false_r. split; reflexivity.
  - intros Hname Htype Htitled Hnone.
    pose proof (deleteUpdater_event query _ Htitled) as Hupd.
    rewrite (filter_none_out _ _ (Hkeep _ _ _ Hnone)), Nat.ltb_irrefl,
      withEvents_same, <- Htype in Hupd.
    rewrite <- Htitle in Hupd at 1.
    destruct (deleteItem_outcome state fc w _ _ Hname Hupd) as [Hs Hr].
    rewrite Hr, Hs, Htitle, andb_false_r. split; reflexivity.
  - intros Hname Htitled Hnone.
    assert (Hmiss : forall t, In t (todos (store w)) ->
                      titleHas query (todo_title t) = false)
      by (intros t Ht; apply negb_true_iff, (Hkeep _ _ _ Hnone), Ht).
    destruct (map_none_hit _ _ Hmiss) as [Hmap Hex].
    pose proof (completeUpdater_titled query _ Htitled) as Hupd.
    rewrite Hmap, Hex, withTodos_same in Hupd.
    rewrite <- Htitle in Hupd at 1.
    destruct (markTodoComplete_outcome state fc w _ _ Hname Hupd) as [Hs Hr].
    rewrite Hr, Hs, Htitle, andb_false_r. split; reflexivity.
Qed.

Lemma strictEq_true v s : strictEq v s = true <-> v = Some s.
Proof.
  destruct v as [x|]; simpl.
  - rewrite String.eqb_eq. split; congruence.
  - split; discriminate.
Qed.

Lemma strictEq_false v s : v <> Some s -> strictEq v s = false.
Proof.
  intros H. destruct (strictEq v s) eqn:E; [|reflexivity].
  apply strictEq_true in E. contradiction.
Qed.

(** C8. A [setTheme] call: when the [theme] argument is [light] or [dark]
    the theme of the store becomes that value, the rest of the store stays,
    and the result is [OK: Switched to ... mode.]; for any other argument,
    or none, the store is as before and the result is
    [Error: Invalid theme specified.] *)
Theorem setTheme_updates_or_rejects state fc w :
  fc_name fc = "setTheme" ->
  let result := fst (handleToolCall state fc w) in
  let after := store (snd (handleToolCall state fc w)) in
  (forall value, fc_args fc !! "theme" = Some value ->
     value = "light" \/ value = "dark" ->
     result = Normal ("OK: Switched to " ++ value ++ " mode.")
     /\ String.prefix "OK:" ("OK: Switched to " ++ value ++ " mode.") = true
     /\ after = withTheme (Some value) (store w)
     /\ theme after = Some value)
  /\ (fc_args fc !! "theme" <> Some "light" ->
      fc_args fc !! "theme" <> Some "dark" ->
      result = Normal "Error: Invalid theme specified." /\ after = store w).
Proof.
  intros Hname result after. subst result after.
  rewrite (handleToolCall_setTheme _ _ _ Hname).
  set (w1 := snd (addLog _ _ _ w)).
  assert (Hw1 : store w1 = store w) by apply store_addLog.
  clearbody w1. split.
  - intros value Hvalue Hok.
    assert (Htest : strictEq (Some value) "light" || strictEq (Some value) "dark"
                    = true).
    { apply orb_true_iff. rewrite !strictEq_true.
      destruct Hok; [left|right]; congruence. }
    erewrite tryCatch_normal.
    2:{ unfold setTheme. rewrite Hvalue, Htest.
        rewrite (bind_updateState tt
                   (fun prev => (Normal (withTheme (Some value) prev), tt))
                   _ w1 _ _ eq_refl), bind_addLog.
        reflexivity. }
    cbn [fst snd]. rewrite store_addLog. cbn [store setStore]. rewrite Hw1.
    repeat split; reflexivity.
  - intros Hlight Hdark.
    erewrite tryCatch_normal.
    2:{ unfold setTheme.
        rewrite (strictEq_false _ _ Hlight), (strictEq_false _ _ Hdark).
        reflexivity. }
    split; [reflexivity | exact Hw1].
Qed.

Lemma eqb_other name other :
  name <> other -> String.eqb name other = false.
Proof. intros H. apply String.eqb_neq. exact H. Qed.

(** C10. A call whose name is none of the eight declared tools leaves the
    store as it was and returns [OK]; the log gains the one [tool] entry
    that announces the call, and neither a success nor an error entry nor
    a toast. *)
Theorem undeclared_tool_is_ignored state fc w :
  ~ In (fc_name fc) (List.map decl_name toolDeclarations) ->
  let result := fst (handleToolCall state fc w) in
  let w' := snd (handleToolCall state fc w) in
  result = Normal "OK"
  /\ String.prefix "Error:" "OK" = false
  /\ store w' = store w
  /\ toast w' = toast w
  /\ actionLogs w'
     = take 15
         (mkActionLog (randomId (drawn w)) ("Agent: Executing " ++ fc_name fc)
            LogTool (Some (fc_name fc)) (dateNow w)
          :: actionLogs w).
Proof.
  intros Hname result w'. subst result w'.
  cbn [List.map toolDeclarations decl_name In] in Hname.
  rewrite handleToolCall_unfold.
  rewrite !eqb_other by (intros E; apply Hname; rewrite E; tauto).
  rewrite addLog_tool. repeat split.
Qed.

(** ** Playback scheduling *)

(** The buffer that [decodeAudioData] makes of the samples of a chunk. *)
Lemma decodeAudioData_samples data bytes samples w :
  decode data = Some bytes ->
  int16ArrayOfBytes bytes = Some samples ->
  samples <> [] ->
  decodeAudioData (decode data) 24000 1 w
  = (Normal
       (mkAudioBuffer 1 (length samples) 24000
          (flat_map (channelSamples samples 1 (length samples)) (seq 0 1))),
     w).
Proof.
  intros Hdecode Hview Hsome. unfold decodeAudioData.
  rewrite Hdecode, Hview, Nat.div_1_r.
  destruct samples as [|x samples]; [contradiction | reflexivity].
Qed.

(** C1. In any run of an open session without interruption (audio chunks
    arriving, the clocks advancing, and whatever else happens in between),
    the buffers are started back to back: each starts no earlier than the
    one before it, and no earlier than the start of the one before it plus
    its duration. A message that carries a chunk of [n] samples (and
    nothing else) starts one buffer, of [n / 24000] seconds, at the later
    of the cursor [nextStartTime] and the clock, and moves the cursor to
    the end of that buffer. *)
Theorem scheduled_starts_are_gapless state :
  (forall events s,
     Forall uninterrupted events ->
     backToBack (started (run state events (mounted s))))
  /\ (forall data bytes samples w,
        falsy data = false ->
        decode data = Some bytes ->
        int16ArrayOfBytes bytes = Some samples ->
        samples <> [] ->
        let w' :=
          onmessage state
            (mkLiveServerMessage None None false (Some data) None false) w in
        let when := Qmax (nextStartTime w) (currentTime w) in
        let seconds :=
          (inject_Z (Z.of_nat (length samples)) / inject_Z 24000)%Q in
        started w' = (started w ++ [mkScheduled (nodes w) when seconds])%list
        /\ nextStartTime w' = (when + seconds)%Q).
Proof.
  split.
  - intros events s Hes.
    assert (Hrun : cursorCovers (mounted s) ->
                   cursorCovers (run state events (mounted s))).
    { apply (run_respects (fun w w' => cursorCovers w -> cursorCovers w')).
      - auto.
      - auto.
      - intros w w' [= Hnext Hstarted]. unfold cursorCovers.
        rewrite Hnext, Hstarted. auto.
      - apply schedule_covers.
      - exact Hes. }
    apply Hrun. split; [exact I | intros y [=]].
  - intros data bytes samples w Hfalsy Hdecode Hview Hsome w' when seconds.
    assert (Hw' : w'
                  = runReactions
                      (scheduled
                         (mkAudioBuffer 1 (length samples) 24000
                            (flat_map
                               (channelSamples samples 1 (length samples))
                               (seq 0 1)))
                         w)).
    { subst w'. unfold onmessage, task, onmessageBody, appendInput,
        appendOutput.
      cbn [inputTranscription outputTranscription turnComplete audioData
           toolCall interrupted].
      rewrite Hfalsy, !bind_ret_l. unfold bind at 1.
      unfold schedule, bind, modify.
      rewrite (decodeAudioData_samples data bytes samples _ Hdecode Hview Hsome).
      reflexivity. }
    rewrite Hw'. split; reflexivity.
Qed.

(** C3, as the code has it. In any run without interruption the cursor
    [nextStartTime] never moves back; a well-formed message with the
    interruption flag puts the cursor at zero. *)
Theorem cursor_moves_back_only_when_interrupted state w :
  (forall events, Forall uninterrupted events ->
     (nextStartTime w <= nextStartTime (run state events w))%Q)
  /\ (forall message, interrupted message = true -> wellFormed message ->
        nextStartTime (step state (Message message) w) = 0%Q).
Proof.
  split.
  - intros events Hes.
    apply (run_respects
             (fun w w' => (nextStartTime w <= nextStartTime w')%Q)).
    + intros w0. apply Qle_refl.
    + intros w1 w2 w3. apply Qle_trans.
    + intros w0 w' [= Hnext _]. rewrite Hnext. apply Qle_refl.
    + apply schedule_advances.
    + exact Hes.
  - intros message Hint Hwf. apply onmessage_interrupted; assumption.
Qed.

(** ** The turn-completion flush *)

(** C4, as the code has it. After any run of events that do not complete
    the turn, a message that marks the turn complete empties both partial
    transcripts and, unless both accumulated texts are blank (empty once
    trimmed of white space), commits exactly one turn, at the head of the
    history, whose texts are the partial transcripts of before extended
    with the deltas received since, in order. When both are blank no turn
    is committed. *)
Theorem flush_commits_the_accumulated_turn state es message w :
  Forall midTurn es ->
  turnComplete message = true ->
  let user := userSpeech w ++ inputDeltas es ++ inputText message in
  let ai := aiSpeech w ++ outputDeltas es ++ outputText message in
  let w' := run state (es ++ [Message message])%list w in
  userSpeech w' = EmptyString
  /\ aiSpeech w' = EmptyString
  /\ (blank user && blank ai = true -> history w' = history w)
  /\ (blank user && blank ai = false ->
      exists id timestamp,
        history w'
        = take 5 (mkConversationTurn id user ai timestamp :: history w)).
Proof.
  intros Hes Hflush user ai w'.
  assert (Hview : transcriptView w'
                  = (EmptyString, EmptyString,
                     if blank user && blank ai then history w
                     else take 5
                            (mkConversationTurn
                               (randomId
                                  (drawn (appended message (run state es w))))
                               user ai
                               (dateNow (appended message (run state es w)))
                             :: history w))).
  { subst w'. unfold run. rewrite fold_left_app. cbn [fold_left step].
    fold (run state es w).
    rewrite onmessage_transcripts, Hflush, flushTurn_view.
    pose proof (appended_view message (run state es w)) as Happ.
    pose proof (run_midTurn state es w Hes) as Hrun.
    unfold transcriptView in Happ, Hrun.
    injection Hrun as Hu Ha Hh. rewrite Hu, Ha, Hh in Happ.
    injection Happ as -> -> ->.
    rewrite !append_assoc. reflexivity. }
  unfold transcriptView in Hview. injection Hview as -> -> ->.
  split; [reflexivity|]. split; [reflexivity|]. split.
  - intros ->. reflexivity.
  - intros ->. eauto.
Qed.

(** ** The bounded buffers *)

Lemma take_app_take {A : Type} (n m : nat) (l l' : list A) :
  (n <= m)%nat -> take n (l ++ take m l') = take n (l ++ l').
Proof.
  revert n. induction l as [|x l IH]; intros n Hnm.
  - cbn [app]. rewrite take_take. f_equal. lia.
  - destruct n as [|n]; [reflexivity|].
    cbn [app take]. f_equal. apply IH. lia.
Qed.

Lemma logged_cons a ops : logged (a :: ops) = (logged [a] ++ logged ops)%list.
Proof. destruct a; reflexivity. Qed.

Lemma committed_cons a ops :
  committed (a :: ops) = (committed [a] ++ committed ops)%list.
Proof.
  destruct a as [message type toolName|user ai]; cbn [committed];
    [reflexivity|].
  destruct (blank user && blank ai); reflexivity.
Qed.

(** One append, seen through the bounds. *)
Lemma append_view a w :
  take 15 (List.map logContent (actionLogs (snd (append a w))))
  = take 15 (rev (logged [a]) ++ List.map logContent (actionLogs w))
  /\ take 5 (List.map turnContent (history (snd (append a w))))
     = take 5 (rev (committed [a]) ++ List.map turnContent (history w)).
Proof.
  destruct a as [message type toolName|user ai]; cbn [append].
  - split.
    + unfold addLog, Date_now.
      destruct type; cbn; rewrite <- !fmap_take, take_take; reflexivity.
    + rewrite (preserves_addLog history); [reflexivity | repeat split].
  - split.
    + rewrite (preserves_addToHistory actionLogs); reflexivity.
    + rewrite addToHistory_history. cbn [committed].
      destruct (blank user && blank ai); [reflexivity|].
      cbn. rewrite <- !fmap_take, take_take. reflexivity.
Qed.

Lemma burst_view ops w :
  take 15 (List.map logContent (actionLogs (burst ops w)))
  = take 15 (rev (logged ops) ++ List.map logContent (actionLogs w))
  /\ take 5 (List.map turnContent (history (burst ops w)))
     = take 5 (rev (committed ops) ++ List.map turnContent (history w)).
Proof.
  revert w. induction ops as [|a ops IH]; intros w; [split; reflexivity|].
  change (burst (a :: ops) w) with (burst ops (snd (append a w))).
  destruct (IH (snd (append a w))) as [IHlog IHturn].
  destruct (append_view a w) as [Hlog Hturn].
  rewrite IHlog, IHturn.
  rewrite <- (take_app_take 15 15 (rev (logged ops))) by lia.
  rewrite <- (take_app_take 5 5 (rev (committed ops))) by lia.
  rewrite Hlog, Hturn, !take_app_take by lia.
  rewrite (logged_cons a ops), (committed_cons a ops), !rev_app_distr,
    <- !app_assoc.
  split; reflexivity.
Qed.

Lemma append_bounds a w :
  (length (actionLogs w) <= 15)%nat -> (length (history w) <= 5)%nat ->
  (length (actionLogs (snd (append a w))) <= 15)%nat
  /\ (length (history (snd (append a w))) <= 5)%nat.
Proof.
  intros Hlog Hturn. destruct a as [message type toolName|user ai];
    cbn [append].
  - split.
    + unfold addLog, Date_now. destruct type; cbn [bind generateSafeId gets
        modify ret raisesToast snd fst actionLogs setActionLogs setToast
        setDrawn]; rewrite length_take; lia.
    + rewrite (preserves_addLog history); [exact Hturn | repeat split].
  - split.
    + rewrite (preserves_addToHistory actionLogs); [exact Hlog | | ];
        reflexivity.
    + rewrite addToHistory_history.
      destruct (blank user && blank ai); [exact Hturn|].
      rewrite length_take. lia.
Qed.

Lemma burst_bounds ops w :
  (length (actionLogs w) <= 15)%nat -> (length (history w) <= 5)%nat ->
  (length (actionLogs (burst ops w)) <= 15)%nat
  /\ (length (history (burst ops w)) <= 5)%nat.
Proof.
  revert w. induction ops as [|a ops IH]; intros w Hlog Hturn; [auto|].
  change (burst (a :: ops) w) with (burst ops (snd (append a w))).
  destruct (append_bounds a w Hlog Hturn). apply IH; assumption.
Qed.

(** *** The bounds in a session *)

Lemma bounded_view w w' : buffersView w' = buffersView w -> bounded w -> bounded w'.
Proof. intros [= Hlog Hturn]. unfold bounded. rewrite Hlog, Hturn. auto. Qed.

Lemma steps_bounded_addLog message type toolName :
  steps (fun w w' => bounded w -> bounded w') (addLog message type toolName).
Proof.
  intros w [Hlog Hturn].
  apply (append_bounds (AppendLog message type toolName) w Hlog Hturn).
Qed.

Lemma steps_bounded_addToHistory user ai :
  steps (fun w w' => bounded w -> bounded w') (addToHistory user ai).
Proof.
  intros w [Hlog Hturn]. apply (append_bounds (CommitTurn user ai) w Hlog Hturn).
Qed.

Ltac bounds :=
  repeat match goal with
    | |- steps _ (ret _) => apply steps_ret; auto
    | |- steps _ (if _ then _ else _) => apply steps_if
    | |- steps _ (tryCatch _ _) => apply steps_tryCatch; [auto| |]
    | |- steps _ (bind _ _) => apply steps_bind; [auto| |]
    | |- steps _ (addLog _ _ _) => apply steps_bounded_addLog
    | |- steps _ (addToHistory _ _) => apply steps_bounded_addToHistory
    | |- steps _ (forOf _ _) => apply steps_forOf; auto
    | |- forall _, _ => intro
    end.

Lemma steps_bounded_onmessageBody state message :
  steps (fun w w' => bounded w -> bounded w') (onmessageBody state message).
Proof.
  assert (Hview : forall (A : Type) (c : Js A),
             preserves buffersView c ->
             steps (fun w w' => bounded w -> bounded w') c).
  { intros A c Hc. apply (steps_preserves _ buffersView); [|exact Hc].
    intros w w'. apply bounded_view. }
  unfold onmessageBody, flushTurn, toolCallLoop, loopBody, handleToolCall,
    getWorkspaceData, setTheme, setLanguage, addTodo, addNote, addEvent,
    deleteItem, markTodoComplete, Date_now, observe, thenSession.
  bounds;
    try (destruct (audioData message) as [data|]; bounds);
    try (destruct (toolCall message) as [calls|]; bounds);
    try (apply Hview;
         first [ apply preserves_appendInput; reflexivity
               | apply preserves_appendOutput; reflexivity
               | apply preserves_gets
               | apply preserves_modify; reflexivity
               | apply preserves_generateSafeId; reflexivity
               | apply preserves_updateState; reflexivity
               | apply preserves_schedule; repeat split
               | apply preserves_stopPlayback; repeat split ]).
Qed.

Lemma run_bounded state events w :
  bounded w -> bounded (run state events w).
Proof.
  revert w. induction events as [|e events IH]; intros w Hw; [exact Hw|].
  change (run state (e :: events) w) with (run state events (step state e w)).
  apply IH. destruct e as [message|node|inputData|toastId|dt ms]; cbn [step].
  - unfold onmessage, task.
    apply (bounded_view (snd (onmessageBody state message w)));
      [reflexivity|].
    apply steps_bounded_onmessageBody, Hw.
  - apply (bounded_view w); [|exact Hw]. unfold ended.
    destruct (Nat.eqb _ 0); reflexivity.
  - apply (bounded_view w); [reflexivity | exact Hw].
  - apply (bounded_view w); [|exact Hw]. unfold toastTimeout.
    destruct (toast w) as [current|]; [destruct (String.eqb _ _)|];
      reflexivity.
  - apply (bounded_view w); [reflexivity | exact Hw].
Qed.

(** C7. After any burst of log appends and turn commits on a fresh
    overlay, however long, the action log holds at most 15 entries and the
    history at most 5; they are the most recent ones, newest first, the
    older ones being dropped. The bounds hold as well after any run of
    session events, whose handlers append to the log and commit turns. *)
Theorem log_and_history_stay_bounded s :
  (forall ops,
     let w' := burst ops (mounted s) in
     (length (actionLogs w') <= 15)%nat
     /\ (length (history w') <= 5)%nat
     /\ List.map logContent (actionLogs w') = take 15 (rev (logged ops))
     /\ List.map turnContent (history w') = take 5 (rev (committed ops)))
  /\ (forall state events,
        let w' := run state events (mounted s) in
        (length (actionLogs w') <= 15)%nat /\ (length (history w') <= 5)%nat).
Proof.
  split.
  - intros ops w'. subst w'.
    destruct (burst_bounds ops (mounted s)) as [Hlog Hturn];
      [cbn; lia | cbn; lia |].
    destruct (burst_view ops (mounted s)) as [Vlog Vturn].
    cbn [mounted actionLogs history List.map] in Vlog, Vturn.
    rewrite app_nil_r in Vlog, Vturn.
    rewrite take_ge in Vlog by (rewrite length_map; exact Hlog).
    rewrite take_ge in Vturn by (rewrite length_map; exact Hturn).
    auto.
  - intros state events w'. apply run_bounded. split; cbn; lia.
Qed.

(** ** Batches of tool calls *)

(** The part of the world that the session promise works on. *)
Lemma preserves_beforeTools {X : Type} (p : World -> X) message :
  playbackBlind p ->
  (forall v w, p (setUserSpeech v w) = p w) ->
  (forall v w, p (setAiSpeech v w) = p w) ->
  (forall v w, p (setHistory v w) = p w) ->
  (forall v w, p (setDrawn v w) = p w) ->
  preserves p
    (appendInput message ;;
     appendOutput message ;;
     (if turnComplete message then flushTurn else ret tt) ;;
     match audioData message with
     | Some data => if falsy data then ret tt else schedule data
     | None => ret tt
     end).
Proof.
  intros Hplay Hu Ha Hh Hd.
  apply preserves_bind; [apply preserves_appendInput, Hu | intros _].
  apply preserves_bind; [apply preserves_appendOutput, Ha | intros _].
  apply preserves_bind; [|intros _].
  - apply preserves_if; [|apply preserves_ret].
    apply preserves_flushTurn; assumption.
  - destruct (audioData message) as [data|]; [|apply preserves_ret].
    apply preserves_if; [apply preserves_ret|].
    apply preserves_schedule, Hplay.
Qed.

Lemma completes_beforeTools message :
  wellFormed message ->
  completes
    (appendInput message ;;
     appendOutput message ;;
     (if turnComplete message then flushTurn else ret tt) ;;
     match audioData message with
     | Some data => if falsy data then ret tt else schedule data
     | None => ret tt
     end).
Proof.
  intros Hwf.
  apply completes_bind; [apply completes_appendInput | intros _].
  apply completes_bind; [apply completes_appendOutput | intros _].
  apply completes_bind;
    [destruct (turnComplete message);
       [apply completes_flushTurn | apply completes_ret] | intros _].
  apply completes_audio, Hwf.
Qed.

(** The handler up to the loop, and from the loop on. *)
Lemma onmessageBody_split state message w :
  onmessageBody state message w
  = bind
      (appendInput message ;;
       appendOutput message ;;
       (if turnComplete message then flushTurn else ret tt) ;;
       match audioData message with
       | Some data => if falsy data then ret tt else schedule data
       | None => ret tt
       end)
      (fun _ =>
         match toolCall message with
         | Some calls => toolCallLoop state calls
         | None => ret tt
         end ;;
         if interrupted message then stopPlayback else ret tt) w.
Proof.
  unfold onmessageBody, bind.
  destruct (appendInput message w) as [[a|m] w1]; [|reflexivity].
  destruct (appendOutput message w1) as [[b|m] w2]; [|reflexivity].
  destruct ((if turnComplete message then flushTurn else ret tt) w2)
    as [[c|m] w3]; [|reflexivity].
  reflexivity.
Qed.

(** C2, as the code has it. The tool calls of a well-formed message are
    dispatched one after the other, in the order of the batch, each in the
    world left by the one before it. Every call gets exactly one response,
    which carries its result text. The responses are sent in the order of
    the batch, and all of them after the last call has been dispatched. *)
Theorem tool_calls_are_answered_after_the_batch state message calls w :
  toolCall message = Some calls ->
  wellFormed message ->
  reactions w = [] ->
  exists before : World,
    journal before = journal w
    /\ let outcome := dispatchAll state calls before in
       journal (onmessage state message w)
       = (journal w
          ++ List.map dispatched calls
          ++ List.map (fun p => react (respond p)) (fst outcome))%list
       /\ List.map fst (fst outcome) = calls
       /\ store (onmessage state message w) = store (snd outcome)
       /\ reactions (onmessage state message w) = [].
Proof.
  intros Hcalls Hwf Hnone.
  set (prefix :=
         appendInput message ;;
         appendOutput message ;;
         (if turnComplete message then flushTurn else ret tt) ;;
         match audioData message with
         | Some data => if falsy data then ret tt else schedule data
         | None => ret tt
         end).
  exists (snd (prefix w)).
  assert (Hj : journal (snd (prefix w)) = journal w)
    by (apply preserves_beforeTools; repeat split).
  assert (Hr : reactions (snd (prefix w)) = reactions w)
    by (apply preserves_beforeTools; repeat split).
  split; [exact Hj|]. intros outcome.
  assert (Hrun : exists final,
             onmessage state message w = runReactions final
             /\ journal final
                = (journal w ++ List.map dispatched calls)%list
             /\ reactions final = List.map respond (fst outcome)
             /\ store final = store (snd outcome)).
  { unfold onmessage, task. rewrite onmessageBody_split. fold prefix.
    destruct (bind_completes prefix
                (fun _ =>
                   match toolCall message with
                   | Some calls => toolCallLoop state calls
                   | None => ret tt
                   end ;;
                   if interrupted message then stopPlayback else ret tt)
                w (completes_beforeTools message Hwf)) as [_ ->].
    rewrite Hcalls. unfold bind. rewrite toolCallLoop_run.
    fold outcome. rewrite Hj, Hr, Hnone.
    destruct (interrupted message); eexists; (split; [reflexivity|]);
      repeat split. }
  destruct Hrun as (final & -> & Hfj & Hfr & Hfs).
  unfold runReactions.
  cbn [journal reactions store setReactions setJournal].
  rewrite Hfj, Hfr, Hfs, List.map_map, <- app_assoc.
  repeat split. apply dispatchAll_calls.
Qed.

(** ** Audio capture *)

(** C9. A captured frame whose samples lie in [-1, 1] is sent as one
    real-time input with MIME type [audio/pcm;rate=16000]; its data is the
    base64 text of a byte buffer that holds, low byte first, one signed
    16-bit value for each sample: the integer part of the sample times
    32768, reduced modulo 2^16 into [-32768, 32767]. The reduction changes
    the value only for the sample 1, which becomes -32768. *)
Theorem captured_frame_is_pcm16_in_base64 inputData w :
  Forall (fun x => (-1 <= x)%Q /\ (x <= 1)%Q) inputData ->
  reactions w = [] ->
  let pcm := List.map (fun x => toInt16 (x * 32768)%Q) inputData in
  exists data,
    journal (onaudioprocess inputData w)
    = (journal w
       ++ [RealtimeInputSent (mkBlob data "audio/pcm;rate=16000")])%list
    /\ data = encode (bytesOfInt16Array pcm)
    /\ decode data = Some (bytesOfInt16Array pcm)
    /\ int16ArrayOfBytes (bytesOfInt16Array pcm) = Some pcm
    /\ Forall2
         (fun x v =>
            (-32768 <= v <= 32767)%Z
            /\ ((v - truncate (x * 32768)) mod 65536 = 0)%Z
            /\ ((x < 1)%Q -> v = truncate (x * 32768))
            /\ ((x == 1)%Q -> v = (-32768)%Z))
         inputData pcm.
Proof.
  intros Hrange Hnone pcm.
  exists (encode (bytesOfInt16Array pcm)).
  split; [|split; [reflexivity|split; [|split]]].
  - unfold onaudioprocess, task, onaudioprocessBody, thenSession, modify,
      runReactions.
    cbn [snd journal reactions setReactions setJournal]. rewrite Hnone.
    reflexivity.
  - apply decode_encode, bytesOfInt16Array_range.
  - apply int16ArrayOfBytes_bytesOfInt16Array. subst pcm.
    apply List.Forall_map, List.Forall_forall. intros x _.
    apply wrapInt16_range.
  - subst pcm. induction Hrange as [|x inputData [Hlo Hhi] _ IH];
      cbn [List.map]; constructor; [|exact IH].
    destruct (truncate_scaled x Hlo Hhi) as (Hbounds & Hbelow & Hone).
    unfold toInt16. split; [apply wrapInt16_range|].
    split; [apply wrapInt16_congruent|]. split.
    + intros Hlt. apply wrapInt16_small. specialize (Hbelow Hlt). lia.
    + intros Heq. rewrite (Hone Heq). reflexivity.
Qed.

(** * Further properties of the code *)

(** ** The dispatcher: results, logs and compositions *)

Lemma addLog_success message w :
  addLog message LogSuccess None w
  = (Normal tt,
     setToast
       (Some (mkToastMessage (randomId (S (drawn w))) message LogSuccess))
       (setDrawn (S (S (drawn w)))
          (setActionLogs
             (take 15
                (mkActionLog (randomId (drawn w)) message LogSuccess None
                   (dateNow w) :: actionLogs w))
             w))).
Proof. reflexivity. Qed.

Lemma titled_map {A : Type} (titleOf : A -> option string) items :
  titled titleOf items <-> Forall (fun t => t <> None) (List.map titleOf items).
Proof. unfold titled. rewrite List.Forall_map. reflexivity. Qed.

Lemma filter_found {A : Type} (f : A -> bool) (l : list A) :
  Nat.ltb (length (List.filter f l)) (length l) = existsb (fun x => negb (f x)) l.
Proof using.
  try clear randomId; try clear JSON_stringify; try clear typeErrorMessage;
  try clear runsAtCall.
  assert (Hle : forall l : list A, (length (List.filter f l) <= length l)%nat).
  { intros l0. induction l0 as [|y l0 IH]; simpl; [lia|].
    destruct (f y); simpl; lia. }
  induction l as [|x l IH]; [reflexivity|].
  cbn [List.filter existsb]. destruct (f x); cbn [negb orb length].
  - rewrite <- IH. destruct (Nat.ltb_spec (length (List.filter f l)) (length l));
      destruct (Nat.ltb_spec (S (length (List.filter f l))) (S (length l)));
      try reflexivity; lia.
  - pose proof (Hle l). apply Nat.ltb_lt. lia.
Qed.

Lemma existsb_titles {A : Type} (titleOf : A -> option string) query items :
  existsb (fun x => negb (negb (titleHas query (titleOf x)))) items
  = existsb (titleHas query) (List.map titleOf items).
Proof.
  induction items as [|x items IH]; [reflexivity|].
  cbn [existsb List.map]. rewrite IH, negb_involutive. reflexivity.
Qed.

(** The updater of [deleteItem] on titled items, for any type. *)
Lemma deleteUpdater_titled type query prev :
  Forall (fun t => t <> None) (titlesOf type prev) ->
  deleteUpdater (Some type) (Some query) prev
  = (Normal (withoutMatches type query prev),
     existsb (titleHas query) (titlesOf type prev)).
Proof.
  unfold titlesOf, withoutMatches, deleteUpdater. cbn [strictEq].
  destruct (String.eqb type "todo");
    [|destruct (String.eqb type "note"); [|destruct (String.eqb type "event")]];
    intros H; try apply titled_map in H.
  - rewrite (filterOut_titled _ _ _ H), filter_found, existsb_titles.
    reflexivity.
  - rewrite (filterOut_titled _ _ _ H), filter_found, existsb_titles.
    reflexivity.
  - rewrite (filterOut_titled _ _ _ H), filter_found, existsb_titles.
    reflexivity.
  - reflexivity.
Qed.

Lemma completeUpdater_completed query prev :
  titled todo_title (todos prev) ->
  completeUpdater (Some query) prev
  = (Normal (withMatchesCompleted query prev),
     existsb (titleHas query) (List.map todo_title (todos prev))).
Proof.
  intros H. rewrite (completeUpdater_titled query prev H).
  unfold withMatchesCompleted.
  replace (existsb (titleHas query) (List.map todo_title (todos prev)))
    with (existsb (fun t => titleHas query (todo_title t)) (todos prev));
    [reflexivity|].
  clear H. induction (todos prev) as [|t l IH]; [reflexivity|].
  cbn [existsb List.map]. rewrite IH. reflexivity.
Qed.

Lemma existsb_titleHas query titles :
  existsb (titleHas query) titles = true <-> Exists (titleMatches query) titles.
Proof.
  rewrite existsb_exists, List.Exists_exists.
  split; intros (t & Hin & Ht); exists t; (split; [exact Hin|]);
    apply titleHas_spec; exact Ht.
Qed.

(** A [deleteItem] on titled items, as one step: the store of the next
    render, and the answer, which tells of the removal only when the
    updater has run at the call. *)
Lemma deleteItem_step state fc w type query :
  fc_name fc = "deleteItem" ->
  fc_args fc !! "type" = Some type ->
  fc_args fc !! "title" = Some query ->
  Forall (fun t => t <> None) (titlesOf type (store w)) ->
  store (snd (handleToolCall state fc w)) = withoutMatches type query (store w)
  /\ fst (handleToolCall state fc w)
     = Normal
         (if runsAtCall (updates w)
             && existsb (titleHas query) (titlesOf type (store w))
          then removedText type query
          else itemNotFoundText (Some query)).
Proof.
  intros Hname Htype Htitle Htitled.
  pose proof (deleteUpdater_titled type query (store w) Htitled) as Hupd.
  rewrite <- Htype in Hupd at 1. rewrite <- Htitle in Hupd at 1.
  destruct (deleteItem_outcome state fc w _ _ Hname Hupd) as [Hs Hr].
  split; [exact Hs|]. rewrite Hr, Htype, Htitle. reflexivity.
Qed.

Lemma markTodoComplete_step state fc w query :
  fc_name fc = "markTodoComplete" ->
  fc_args fc !! "title" = Some query ->
  titled todo_title (todos (store w)) ->
  store (snd (handleToolCall state fc w)) = withMatchesCompleted query (store w)
  /\ fst (handleToolCall state fc w)
     = Normal
         (if runsAtCall (updates w)
             && existsb (titleHas query) (List.map todo_title (todos (store w)))
          then markedText query
          else taskNotFoundText (Some query)).
Proof.
  intros Hname Htitle Htitled.
  pose proof (completeUpdater_completed query (store w) Htitled) as Hupd.
  rewrite <- Htitle in Hupd at 1.
  destruct (markTodoComplete_outcome state fc w _ _ Hname Hupd) as [Hs Hr].
  split; [exact Hs|]. rewrite Hr, Htitle. reflexivity.
Qed.

(** X1. An [addTodo] call puts one new todo at the head of the list: not
    completed, with the title, due date and priority of the arguments, a
    fresh identifier and the current time. The rest of the store stays.
    The result is [OK: Added task "title".], and the log and the toast
    announce the task. *)
Theorem addTodo_prepends_an_open_task state fc w :
  fc_name fc = "addTodo" ->
  let args := fc_args fc in
  let r := handleToolCall state fc w in
  fst r = Normal ("OK: Added task " ++ dq ++ show (args !! "title") ++ dq ++ ".")
  /\ store (snd r)
     = withTodos
         (mkTodo (randomId (S (drawn w))) (args !! "title") false
            (args !! "dueDate") (args !! "priority") (dateNow w)
          :: todos (store w))
         (store w)
  /\ newestLog (snd r)
     = Some ("Task Added: " ++ dq ++ show (args !! "title") ++ dq,
             LogSuccess, None)
  /\ toastShown (snd r)
     = Some ("Task Added: " ++ dq ++ show (args !! "title") ++ dq, LogSuccess).
Proof.
  intros Hname args r. subst args r.
  rewrite handleToolCall_unfold, Hname. repeat split.
Qed.

(** X2. An [addNote] call puts one new note at the head of the list, with
    the title and content of the arguments, a fresh identifier and the
    current time; the rest of the store stays, and the result is
    [OK: Saved note "title".] *)
Theorem addNote_prepends_a_note state fc w :
  fc_name fc = "addNote" ->
  let args := fc_args fc in
  let r := handleToolCall state fc w in
  fst r = Normal ("OK: Saved note " ++ dq ++ show (args !! "title") ++ dq ++ ".")
  /\ store (snd r)
     = withNotes
         (mkNote (randomId (S (drawn w))) (args !! "title") (args !! "content")
            (dateNow w)
          :: notes (store w))
         (store w)
  /\ newestLog (snd r)
     = Some ("Note Saved: " ++ dq ++ show (args !! "title") ++ dq,
             LogSuccess, None)
  /\ toastShown (snd r)
     = Some ("Note Saved: " ++ dq ++ show (args !! "title") ++ dq, LogSuccess).
Proof.
  intros Hname args r. subst args r.
  rewrite handleToolCall_unfold, Hname. repeat split.
Qed.

(** X3. An [addEvent] call puts one new event at the end of the list (the
    tasks and notes go to the head of theirs). The identifier of the event
    is fresh unless the arguments carry an [id], which then wins. The
    result names the title, the date and the start time. *)
Theorem addEvent_appends_an_event state fc w :
  fc_name fc = "addEvent" ->
  let args := fc_args fc in
  let r := handleToolCall state fc w in
  fst r
  = Normal ("OK: Scheduled " ++ dq ++ show (args !! "title") ++ dq ++ " for "
            ++ show (args !! "date") ++ " at " ++ show (args !! "startTime")
            ++ ".")
  /\ store (snd r)
     = withEvents
         (events (store w)
          ++ [mkCalendarEvent (default (randomId (S (drawn w))) (args !! "id"))
                (args !! "title") (args !! "date") (args !! "startTime")
                (args !! "endTime") (args !! "location")
                (args !! "description")])%list
         (store w)
  /\ newestLog (snd r)
     = Some ("Event Scheduled: " ++ dq ++ show (args !! "title") ++ dq,
             LogSuccess, None).
Proof.
  intros Hname args r. subst args r.
  rewrite handleToolCall_unfold, Hname. repeat split.
Qed.

(** X4. A [setLanguage] call is not validated: whatever the [language]
    argument is, it becomes the language of the store (no language at all
    when the argument is missing), the rest of the store stays, and the
    result is an [OK] text with a success entry and toast. *)
Theorem setLanguage_accepts_anything state fc w :
  fc_name fc = "setLanguage" ->
  let language := fc_args fc !! "language" in
  let r := handleToolCall state fc w in
  fst r = Normal ("OK: Language changed to " ++ show language ++ ".")
  /\ store (snd r) = withLanguage language (store w)
  /\ newestLog (snd r)
     = Some ("Language Changed: " ++ show language, LogSuccess, None)
  /\ toastShown (snd r)
     = Some ("Language Changed: " ++ show language, LogSuccess).
Proof.
  intros Hname language r. subst language r.
  rewrite handleToolCall_unfold, Hname. repeat split.
Qed.

(** The world that [deleteItem] leaves. *)
Lemma deleteItem_world state fc w next found :
  fc_name fc = "deleteItem" ->
  deleteUpdater (fc_args fc !! "type") (fc_args fc !! "title") (store w)
  = (Normal next, found) ->
  let logged :=
    snd (addLog "Agent: Executing deleteItem" LogTool (Some "deleteItem") w) in
  let updated := setStore next (setUpdates (S (updates w)) logged) in
  snd (handleToolCall state fc w)
  = if runsAtCall (updates w) && found
    then snd (addLog ("Removed: " ++ show (fc_args fc !! "type")) LogSuccess
                None updated)
    else updated.
Proof.
  intros Hname Hupd logged updated. subst updated.
  rewrite (handleToolCall_deleteItem _ _ _ Hname). fold logged.
  assert (Hlogged : store logged = store w) by apply store_addLog.
  assert (Hcount : updates logged = updates w) by apply updates_addLog.
  rewrite <- Hlogged in Hupd. rewrite <- Hcount. clearbody logged.
  destruct (runsAtCall (updates logged)) eqn:Hruns; destruct found;
    cbn [andb].
  1: erewrite tryCatch_normal;
       [|unfold deleteItem; rewrite (bind_updateState _ _ _ _ _ _ Hupd), Hruns;
         cbn [negb]; rewrite bind_addLog; reflexivity].
  2-4: erewrite tryCatch_normal;
       [|unfold deleteItem; rewrite (bind_updateState _ _ _ _ _ _ Hupd), Hruns;
         reflexivity].
  all: reflexivity.
Qed.

Lemma markTodoComplete_world state fc w next found :
  fc_name fc = "markTodoComplete" ->
  completeUpdater (fc_args fc !! "title") (store w) = (Normal next, found) ->
  let logged :=
    snd (addLog "Agent: Executing markTodoComplete" LogTool
           (Some "markTodoComplete") w) in
  let updated := setStore next (setUpdates (S (updates w)) logged) in
  snd (handleToolCall state fc w)
  = if runsAtCall (updates w) && found
    then snd (addLog ("Completed: " ++ dq ++ show (fc_args fc !! "title") ++ dq)
                LogSuccess None updated)
    else updated.
Proof.
  intros Hname Hupd logged updated. subst updated.
  rewrite (handleToolCall_markTodoComplete _ _ _ Hname). fold logged.
  assert (Hlogged : store logged = store w) by apply store_addLog.
  assert (Hcount : updates logged = updates w) by apply updates_addLog.
  rewrite <- Hlogged in Hupd. rewrite <- Hcount. clearbody logged.
  destruct (runsAtCall (updates logged)) eqn:Hruns; destruct found;
    cbn [andb].
  1: erewrite tryCatch_normal;
       [|unfold markTodoComplete;
         rewrite (bind_updateState _ _ _ _ _ _ Hupd), Hruns;
         cbn [negb]; rewrite bind_addLog; reflexivity].
  2-4: erewrite tryCatch_normal;
       [|unfold markTodoComplete;
         rewrite (bind_updateState _ _ _ _ _ _ Hupd), Hruns;
         reflexivity].
  all: reflexivity.
Qed.

Lemma not_Exists_existsb query titles :
  ~ Exists (titleMatches query) titles ->
  existsb (titleHas query) titles = false.
Proof.
  intros H. destruct (existsb (titleHas query) titles) eqn:E; [|reflexivity].
  apply existsb_titleHas in E. contradiction.
Qed.

Lemma withoutMatches_none type query s :
  existsb (titleHas query) (titlesOf type s) = false ->
  withoutMatches type query s = s.
Proof.
  unfold withoutMatches, titlesOf.
  destruct (String.eqb type "todo");
    [|destruct (String.eqb type "note");
      [|destruct (String.eqb type "event"); [|reflexivity]]];
    intros Hfalse.
  - rewrite filter_none_out; [apply withTodos_same|].
    intros x Hx. apply negb_true_iff.
    destruct (titleHas query (todo_title x)) eqn:E; [|reflexivity].
    assert (existsb (titleHas query) (List.map todo_title (todos s)) = true)
      by (apply existsb_exists; exists (todo_title x); split;
          [apply in_map, Hx | exact E]).
    congruence.
  - rewrite filter_none_out; [apply withNotes_same|].
    intros x Hx. apply negb_true_iff.
    destruct (titleHas query (note_title x)) eqn:E; [|reflexivity].
    assert (existsb (titleHas query) (List.map note_title (notes s)) = true)
      by (apply existsb_exists; exists (note_title x); split;
          [apply in_map, Hx | exact E]).
    congruence.
  - rewrite filter_none_out; [apply withEvents_same|].
    intros x Hx. apply negb_true_iff.
    destruct (titleHas query (event_title x)) eqn:E; [|reflexivity].
    assert (existsb (titleHas query) (List.map event_title (events s)) = true)
      by (apply existsb_exists; exists (event_title x); split;
          [apply in_map, Hx | exact E]).
    congruence.
Qed.

(** X5. A [deleteItem] call for any type, on titled items. Whatever React
    does with the updater, the state of the next render is the store
    without the items of the type whose title contains the query. The
    answer tells of the removal only when React has run the updater at the
    call: then it is [OK: Removed type "query".], with a success entry and
    a toast [Removed: type]. When the updater is queued (an update of the
    application is pending), the items are removed all the same and yet
    the answer is [Error: Item "query" not found.], with no entry but the
    one that announces the call, as it is when nothing matches (and for a
    type that is none of todo, note and event), where the store stays as
    it is. *)
Theorem deleteItem_reports_what_it_did state fc w type query :
  fc_name fc = "deleteItem" ->
  fc_args fc !! "type" = Some type ->
  fc_args fc !! "title" = Some query ->
  Forall (fun t => t <> None) (titlesOf type (store w)) ->
  let r := handleToolCall state fc w in
  let matches := Exists (titleMatches query) (titlesOf type (store w)) in
  store (snd r) = withoutMatches type query (store w)
  /\ (matches -> runsAtCall (updates w) = true ->
      fst r = Normal (removedText type query)
      /\ newestLog (snd r) = Some ("Removed: " ++ type, LogSuccess, None)
      /\ toastShown (snd r) = Some ("Removed: " ++ type, LogSuccess))
  /\ (~ matches \/ runsAtCall (updates w) = false ->
      fst r = Normal (itemNotFoundText (Some query))
      /\ newestLog (snd r)
         = Some ("Agent: Executing deleteItem", LogTool, Some "deleteItem")
      /\ toast (snd r) = toast w)
  /\ (~ matches -> store (snd r) = store w).
Proof.
  intros Hname Htype Htitle Htitled r matches. subst r matches.
  pose proof (deleteUpdater_titled type query (store w) Htitled) as Hupd.
  rewrite <- Htype in Hupd at 1. rewrite <- Htitle in Hupd at 1.
  destruct (deleteItem_step state fc w type query Hname Htype Htitle Htitled)
    as [Hs Hr].
  pose proof (deleteItem_world state fc w _ _ Hname Hupd) as Hw.
  cbv zeta in Hw. split; [exact Hs|]. split; [|split].
  - intros Hsome Hruns. apply existsb_titleHas in Hsome.
    rewrite Hr, Hw, Hsome, Hruns, Htype. repeat split.
  - intros Hnot.
    assert (Hseen : runsAtCall (updates w)
                    && existsb (titleHas query) (titlesOf type (store w))
                    = false).
    { destruct Hnot as [Hnone| ->]; [|reflexivity].
      rewrite (not_Exists_existsb _ _ Hnone). apply andb_false_r. }
    rewrite Hr, Hw, Hseen. repeat split.
  - intros Hnone. rewrite Hs.
    apply withoutMatches_none, not_Exists_existsb, Hnone.
Qed.

Lemma matchesAreCompleted_withMatchesCompleted query s :
  matchesAreCompleted query (withMatchesCompleted query s).
Proof.
  unfold matchesAreCompleted, withMatchesCompleted. cbn [todos withTodos].
  apply List.Forall_map, List.Forall_forall. intros t _ Hmatch.
  destruct (titleHas query (todo_title t)) eqn:E; [reflexivity|].
  apply titleHas_spec in Hmatch. congruence.
Qed.

Lemma withMatchesCompleted_none query s :
  existsb (titleHas query) (List.map todo_title (todos s)) = false ->
  withMatchesCompleted query s = s.
Proof.
  intros Hfalse. unfold withMatchesCompleted.
  assert (Hmiss : forall t, In t (todos s) ->
                    titleHas query (todo_title t) = false).
  { intros t Ht. destruct (titleHas query (todo_title t)) eqn:E; [|reflexivity].
    assert (existsb (titleHas query) (List.map todo_title (todos s)) = true)
      by (apply existsb_exists; exists (todo_title t); split;
          [apply in_map, Ht | exact E]).
    congruence. }
  destruct (map_none_hit (fun t => titleHas query (todo_title t)) _ Hmiss)
    as [-> _].
  apply withTodos_same.
Qed.

(** X6. A [markTodoComplete] call, on titled todos. Whatever React does
    with the updater, in the state of the next render every todo whose
    title contains the query has [completed] true, and the todos differ
    from those of before in nothing else. The answer tells of it only
    when React has run the updater at the call: then it is [OK: Marked
    "query" as done.], with a success entry and a toast. When the updater
    is queued, the todos are completed all the same and yet the answer is
    [Error: Task "query" not found.], with no entry but the one that
    announces the call, as it is when no todo matches, where the store
    stays as it is. *)
Theorem markTodoComplete_reports_what_it_did state fc w query :
  fc_name fc = "markTodoComplete" ->
  fc_args fc !! "title" = Some query ->
  titled todo_title (todos (store w)) ->
  let r := handleToolCall state fc w in
  let matches :=
    Exists (titleMatches query) (List.map todo_title (todos (store w))) in
  (store (snd r) = withMatchesCompleted query (store w)
   /\ matchesAreCompleted query (store (snd r)))
  /\ (matches -> runsAtCall (updates w) = true ->
      fst r = Normal (markedText query)
      /\ newestLog (snd r)
         = Some ("Completed: " ++ dq ++ query ++ dq, LogSuccess, None)
      /\ toastShown (snd r)
         = Some ("Completed: " ++ dq ++ query ++ dq, LogSuccess))
  /\ (~ matches \/ runsAtCall (updates w) = false ->
      fst r = Normal (taskNotFoundText (Some query))
      /\ newestLog (snd r)
         = Some ("Agent: Executing markTodoComplete", LogTool,
                 Some "markTodoComplete")
      /\ toast (snd r) = toast w)
  /\ (~ matches -> store (snd r) = store w).
Proof.
  intros Hname Htitle Htitled r matches. subst r matches.
  pose proof (completeUpdater_completed query (store w) Htitled) as Hupd.
  rewrite <- Htitle in Hupd at 1.
  destruct (markTodoComplete_step state fc w query Hname Htitle Htitled)
    as [Hs Hr].
  pose proof (markTodoComplete_world state fc w _ _ Hname Hupd) as Hw.
  cbv zeta in Hw. split; [|split; [|split]].
  - split; [exact Hs|]. rewrite Hs.
    apply matchesAreCompleted_withMatchesCompleted.
  - intros Hsome Hruns. apply existsb_titleHas in Hsome.
    rewrite Hr, Hw, Hsome, Hruns, Htitle. repeat split.
  - intros Hnot.
    assert (Hseen : runsAtCall (updates w)
                    && existsb (titleHas query)
                         (List.map todo_title (todos (store w)))
                    = false).
    { destruct Hnot as [Hnone| ->]; [|reflexivity].
      rewrite (not_Exists_existsb _ _ Hnone). apply andb_false_r. }
    rewrite Hr, Hw, Hseen. repeat split.
  - intros Hnone. rewrite Hs.
    apply withMatchesCompleted_none, not_Exists_existsb, Hnone.
Qed.

(** ** The dispatcher: how calls compose *)

Lemma map_filter_titles {A : Type} (titleOf : A -> option string) query items :
  List.map titleOf
    (List.filter (fun x => negb (titleHas query (titleOf x))) items)
  = List.filter (fun t => negb (titleHas query t)) (List.map titleOf items).
Proof.
  induction items as [|x items IH]; [reflexivity|].
  cbn [List.filter List.map].
  destruct (negb (titleHas query (titleOf x))); cbn [List.map]; rewrite IH;
    reflexivity.
Qed.

Lemma titlesOf_withoutMatches type query s :
  titlesOf type (withoutMatches type query s)
  = List.filter (fun t => negb (titleHas query t)) (titlesOf type s).
Proof.
  unfold titlesOf, withoutMatches.
  destruct (String.eqb type "todo");
    [|destruct (String.eqb type "note");
      [|destruct (String.eqb type "event"); [|reflexivity]]];
    cbn [todos notes events withTodos withNotes withEvents];
    apply map_filter_titles.
Qed.

Lemma existsb_filter_out query titles :
  existsb (titleHas query)
    (List.filter (fun t => negb (titleHas query t)) titles) = false.
Proof.
  induction titles as [|t titles IH]; [reflexivity|].
  cbn [List.filter]. destruct (titleHas query t) eqn:E; cbn [negb existsb];
    [exact IH|]. rewrite E, IH. reflexivity.
Qed.

Lemma Forall_filter_kept {A : Type} (P : A -> Prop) (f : A -> bool) l :
  Forall P l -> Forall P (List.filter f l).
Proof.
  induction 1 as [|x l Hx _ IH]; cbn [List.filter]; [constructor|].
  destruct (f x); [constructor; assumption | assumption].
Qed.

(** X7. Deleting twice is deleting once: a second [deleteItem] call with
    the same arguments finds nothing, returns the not-found error and
    leaves the store as the first call left it. *)
Theorem second_delete_finds_nothing state fc w type query :
  fc_name fc = "deleteItem" ->
  fc_args fc !! "type" = Some type ->
  fc_args fc !! "title" = Some query ->
  Forall (fun t => t <> None) (titlesOf type (store w)) ->
  let once := snd (handleToolCall state fc w) in
  fst (handleToolCall state fc once) = Normal (itemNotFoundText (Some query))
  /\ store (snd (handleToolCall state fc once)) = store once.
Proof.
  intros Hname Htype Htitle Htitled once.
  destruct (deleteItem_step state fc w type query Hname Htype Htitle Htitled)
    as [Hs _].
  fold once in Hs.
  assert (Htitles : titlesOf type (store once)
                    = List.filter (fun t => negb (titleHas query t))
                        (titlesOf type (store w)))
    by (rewrite Hs; apply titlesOf_withoutMatches).
  assert (Htitled' : Forall (fun t => t <> None) (titlesOf type (store once)))
    by (rewrite Htitles; apply Forall_filter_kept, Htitled).
  assert (Hnone : existsb (titleHas query) (titlesOf type (store once)) = false)
    by (rewrite Htitles; apply existsb_filter_out).
  destruct (deleteItem_step state fc once type query Hname Htype Htitle Htitled')
    as [Hs' Hr'].
  rewrite Hr', Hs', Hnone, andb_false_r. split; [reflexivity|].
  apply withoutMatches_none, Hnone.
Qed.

Lemma titles_withMatchesCompleted query s :
  List.map todo_title (todos (withMatchesCompleted query s))
  = List.map todo_title (todos s).
Proof.
  unfold withMatchesCompleted. cbn [todos withTodos].
  rewrite List.map_map. apply List.map_ext. intros t.
  destruct (titleHas query (todo_title t)); reflexivity.
Qed.

Lemma withMatchesCompleted_twice query s :
  withMatchesCompleted query (withMatchesCompleted query s)
  = withMatchesCompleted query s.
Proof.
  unfold withMatchesCompleted. cbn [todos notes events language theme withTodos].
  rewrite List.map_map.
  rewrite (List.map_ext
             (fun t =>
                if titleHas query
                     (todo_title
                        (if titleHas query (todo_title t) then complete t
                         else t))
                then complete
                       (if titleHas query (todo_title t) then complete t else t)
                else if titleHas query (todo_title t) then complete t else t)
             (fun t => if titleHas query (todo_title t) then complete t else t));
    [reflexivity|].
  intros t. destruct (titleHas query (todo_title t)) eqn:E.
  - cbn [complete todo_title]. rewrite E. reflexivity.
  - rewrite E. reflexivity.
Qed.

Lemma updates_handleToolCall_complete state fc w query :
  fc_name fc = "markTodoComplete" ->
  fc_args fc !! "title" = Some query ->
  titled todo_title (todos (store w)) ->
  updates (snd (handleToolCall state fc w)) = S (updates w).
Proof.
  intros Hname Htitle Htitled.
  pose proof (completeUpdater_completed query (store w) Htitled) as Hupd.
  rewrite <- Htitle in Hupd at 1.
  rewrite (markTodoComplete_world state fc w _ _ Hname Hupd).
  destruct (runsAtCall (updates w) && _);
    [rewrite updates_addLog|]; reflexivity.
Qed.

(** X8. Completing twice is completing once, but the second answer may
    deny it. A second [markTodoComplete] call with the same arguments
    leaves the store as the first call left it, with every todo that
    matches completed. Its answer is [OK: Marked "query" as done.] only if
    some todo matches and React runs the second updater at the call; when
    that updater is queued behind the first (as under the batching of
    React), the second answer is [Error: Task "query" not found.] while
    the first may have been [OK]. *)
Theorem second_complete_changes_nothing state fc w query :
  fc_name fc = "markTodoComplete" ->
  fc_args fc !! "title" = Some query ->
  titled todo_title (todos (store w)) ->
  let once := snd (handleToolCall state fc w) in
  let twice := handleToolCall state fc once in
  store (snd twice) = store once
  /\ matchesAreCompleted query (store (snd twice))
  /\ fst twice
     = Normal
         (if runsAtCall (S (updates w))
             && existsb (titleHas query)
                  (List.map todo_title (todos (store w)))
          then markedText query
          else taskNotFoundText (Some query))
  /\ (runsAtCall (S (updates w)) = false ->
      fst twice = Normal (taskNotFoundText (Some query))).
Proof.
  intros Hname Htitle Htitled once twice. subst twice.
  destruct (markTodoComplete_step state fc w query Hname Htitle Htitled)
    as [Hs Hr].
  fold once in Hs.
  assert (Htitles : List.map todo_title (todos (store once))
                    = List.map todo_title (todos (store w)))
    by (rewrite Hs; apply titles_withMatchesCompleted).
  assert (Htitled' : titled todo_title (todos (store once)))
    by (apply (proj2 (titled_map todo_title _)); rewrite Htitles;
        apply (proj1 (titled_map todo_title _)), Htitled).
  assert (Hcount : updates once = S (updates w))
    by (apply (updates_handleToolCall_complete state fc w query); assumption).
  destruct (markTodoComplete_step state fc once query Hname Htitle Htitled')
    as [Hs' Hr'].
  rewrite Hr', Hs', Htitles, Hcount, Hs.
  split; [apply withMatchesCompleted_twice|].
  split; [rewrite withMatchesCompleted_twice;
          apply matchesAreCompleted_withMatchesCompleted|].
  split; [reflexivity|]. intros ->. reflexivity.
Qed.

Lemma includes_refl s : includes s s = true.
Proof.
  apply includes_app. exists EmptyString, EmptyString.
  rewrite append_nil_l, append_nil_r. reflexivity.
Qed.

Lemma addTodo_store state fc w :
  fc_name fc = "addTodo" ->
  store (snd (handleToolCall state fc w))
  = withTodos
      (mkTodo (randomId (S (drawn w))) (fc_args fc !! "title") false
         (fc_args fc !! "dueDate") (fc_args fc !! "priority") (dateNow w)
       :: todos (store w))
      (store w).
Proof. intros Hname. rewrite handleToolCall_unfold, Hname. reflexivity. Qed.

Lemma updates_handleToolCall_add state fc w :
  fc_name fc = "addTodo" ->
  updates (snd (handleToolCall state fc w)) = S (updates w).
Proof. intros Hname. rewrite handleToolCall_unfold, Hname. reflexivity. Qed.

(** X9. What [addTodo] adds, [deleteItem] removes, though the answer may
    deny it. After an [addTodo] call with a title, a [deleteItem] call for
    todos with the same title leaves the store that deleting from the
    store of before would leave, without the new task. Its answer is
    [OK: Removed todo "title".] when React runs its updater at the call;
    when the updater is queued behind that of [addTodo] (as under the
    batching of React), the answer is [Error: Item "title" not found.]
    although the task is removed. *)
Theorem added_task_is_deleted_by_its_title state add del w title :
  fc_name add = "addTodo" ->
  fc_args add !! "title" = Some title ->
  fc_name del = "deleteItem" ->
  fc_args del !! "type" = Some "todo" ->
  fc_args del !! "title" = Some title ->
  titled todo_title (todos (store w)) ->
  let added := snd (handleToolCall state add w) in
  let r := handleToolCall state del added in
  store (snd r) = withoutMatches "todo" title (store w)
  /\ fst r
     = Normal
         (if runsAtCall (S (updates w)) then removedText "todo" title
          else itemNotFoundText (Some title)).
Proof.
  intros Hadd Htitle Hdel Htype Hquery Htitled added r. subst r.
  pose proof (addTodo_store state add w Hadd) as Hstore. fold added in Hstore.
  rewrite Htitle in Hstore.
  assert (Hcount : updates added = S (updates w))
    by (apply updates_handleToolCall_add, Hadd).
  assert (Hhit : titleHas title (Some title) = true)
    by (cbn [titleHas]; apply includes_refl).
  assert (Htitled' : Forall (fun t => t <> None)
                       (titlesOf "todo" (store added))).
  { rewrite Hstore. cbn. constructor; [discriminate|].
    apply (proj1 (titled_map todo_title _)), Htitled. }
  destruct (deleteItem_step state del added "todo" title Hdel Htype Hquery
              Htitled') as [Hs Hr].
  rewrite Hr, Hs, Hstore, Hcount. split.
  - unfold withoutMatches. cbn [String.eqb Ascii.eqb Bool.eqb].
    change (String.eqb "todo" "todo") with true. cbv iota.
    cbn [todos withTodos List.filter todo_title]. rewrite Hhit.
    reflexivity.
  - cbn [titlesOf]. unfold titlesOf.
    change (String.eqb "todo" "todo") with true. cbv iota.
    cbn [todos withTodos List.map todo_title existsb]. rewrite Hhit.
    cbn [orb]. rewrite andb_true_r. reflexivity.
Qed.

(** ** The dispatcher: exceptions *)

(** The filter raises as soon as there is something to test and either
    the query or the title of some item is missing. *)
Lemma filterOut_throws {A : Type} (titleOf : A -> option string) title items :
  (title = None /\ items <> []) \/ Exists (fun x => titleOf x = None) items ->
  filterOut titleOf title items = Throw typeErrorMessage.
Proof.
  induction items as [|x items IH]; intros H.
  - destruct H as [[_ H]|H]; [contradiction | inversion H].
  - cbn [filterOut]. unfold titleIncludes.
    destruct (titleOf x) as [t|] eqn:Ex; [|reflexivity].
    destruct title as [q|]; [|reflexivity].
    rewrite IH; [reflexivity|]. right.
    destruct H as [[H _]|H]; [discriminate|].
    inversion H as [? ? Hx|? ? Hrest]; subst; [congruence | exact Hrest].
Qed.

Lemma Exists_map_None {A : Type} (titleOf : A -> option string) items :
  Exists (fun t => t = None) (List.map titleOf items)
  <-> Exists (fun x => titleOf x = None) items.
Proof. rewrite List.Exists_map. reflexivity. Qed.

Lemma deleteUpdater_throws type title prev :
  (title = None /\ titlesOf type prev <> [])
  \/ Exists (fun t => t = None) (titlesOf type prev) ->
  deleteUpdater (Some type) title prev = (Throw typeErrorMessage, false).
Proof.
  unfold titlesOf, deleteUpdater. cbn [strictEq].
  destruct (String.eqb type "todo");
    [|destruct (String.eqb type "note"); [|destruct (String.eqb type "event")]];
    intros H.
  1-3: rewrite filterOut_throws; [reflexivity|];
       destruct H as [[H1 H2]|H];
       [left; split; [exact H1|]; intros E; apply H2; rewrite E; reflexivity
       | right; apply Exists_map_None, H].
  destruct H as [[_ H]|H]; [contradiction | inversion H].
Qed.

Lemma bind_updateState_throw {B C : Type} (initial : B)
  (updater : ProductivityState -> Completion ProductivityState * B)
  (k : B -> Js C) w m assigned :
  updater (store w) = (Throw m, assigned) ->
  bind (updateState initial updater) k w
  = k (if runsAtCall (updates w) then assigned else initial)
      (setRenderErrors (renderErrors w ++ [m])%list
         (setUpdates (S (updates w)) w)).
Proof. intros H. unfold bind, updateState. rewrite H. reflexivity. Qed.

Lemma renderErrors_logBlind : logBlind renderErrors.
Proof. repeat split. Qed.

(** X10. A type error of the updater never reaches the [catch] of the
    dispatcher. When a [deleteItem] call has no [title], or some item of
    the type has none, and there is an item to test, the updater raises a
    [TypeError]; React keeps it for the render, and the dispatcher goes on
    with [found] false: the answer is the not-found text ([Error: Item
    "undefined" not found.] for a call without title), the store is as
    before, no error entry is logged and no toast raised, and the error is
    left for the next render of the application. *)
Theorem type_error_never_reaches_the_catch state fc w type :
  fc_name fc = "deleteItem" ->
  fc_args fc !! "type" = Some type ->
  (fc_args fc !! "title" = None /\ titlesOf type (store w) <> [])
  \/ Exists (fun t => t = None) (titlesOf type (store w)) ->
  let r := handleToolCall state fc w in
  fst r = Normal (itemNotFoundText (fc_args fc !! "title"))
  /\ store (snd r) = store w
  /\ renderErrors (snd r) = (renderErrors w ++ [typeErrorMessage])%list
  /\ newestLog (snd r)
     = Some ("Agent: Executing deleteItem", LogTool, Some "deleteItem")
  /\ toast (snd r) = toast w.
Proof.
  intros Hname Htype Hbad r. subst r.
  pose proof (deleteUpdater_throws type (fc_args fc !! "title") (store w) Hbad)
    as Hupd.
  rewrite <- Htype in Hupd at 1.
  rewrite (handleToolCall_deleteItem _ _ _ Hname).
  set (logged := snd (addLog _ LogTool _ w)).
  assert (Hlogged : store logged = store w) by apply store_addLog.
  assert (Herrors : renderErrors logged = renderErrors w)
    by (apply preserves_addLog, renderErrors_logBlind).
  rewrite <- Hlogged in Hupd.
  erewrite tryCatch_normal.
  2:{ unfold deleteItem. rewrite (bind_updateState_throw _ _ _ _ _ _ Hupd).
      destruct (runsAtCall (updates logged)); reflexivity. }
  cbn [fst snd store renderErrors setRenderErrors setUpdates].
  rewrite Herrors, Hlogged. repeat split.
Qed.

Lemma outsideDispatcher_dispatcherBlind : dispatcherBlind outsideDispatcher.
Proof. repeat split. Qed.

(** X11. The dispatcher never raises, whatever the call and the world:
    it always returns a text. And it touches nothing but the store, the
    action log, the toast and the source of identifiers: the status, the
    transcripts, the history, the playback cursor, the sources and what
    has been sent stay as they were. *)
Theorem dispatcher_returns_a_text_and_keeps_to_itself state fc w :
  (exists result, fst (handleToolCall state fc w) = Normal result)
  /\ outsideDispatcher (snd (handleToolCall state fc w)) = outsideDispatcher w.
Proof.
  split.
  - apply handleToolCall_completes.
  - apply preserves_handleToolCall, outsideDispatcher_dispatcherBlind.
Qed.

Lemma reactions_run state events w :
  reactions w = [] -> reactions (run state events w) = [].
Proof.
  revert w. induction events as [|e events IH]; intros w Hw; [exact Hw|].
  change (run state (e :: events) w) with (run state events (step state e w)).
  apply IH. destruct e as [message|node|inputData|toastId|dt ms]; cbn [step].
  - reflexivity.
  - unfold ended. destruct (Nat.eqb _ 0); exact Hw.
  - reflexivity.
  - unfold toastTimeout. destruct (toast w) as [current|];
      [destruct (String.eqb _ _)|]; exact Hw.
  - exact Hw.
Qed.

(** X12. [getWorkspaceData] answers with the state of the render that
    created the callback, not with the store: after any run of a session
    that started on a fresh overlay, whatever the tool calls of the run
    have done to the store, the response to a [getWorkspaceData] call is
    the serialisation of that first state. The call changes neither the
    store nor the toast. *)
Theorem getWorkspaceData_answers_with_the_first_state state events s fc :
  fc_name fc = "getWorkspaceData" ->
  let before := run state events (mounted s) in
  let after := onmessage state (toolCallMessage [fc]) before in
  journal after
  = (journal before
     ++ [Dispatched (fc_id fc);
         ToolResponseSent (fc_id fc) "getWorkspaceData" (JSON_stringify state)])%list
  /\ store after = store before
  /\ toast after = toast before.
Proof.
  intros Hname before after.
  assert (Hnone : reactions before = [])
    by (apply reactions_run; reflexivity).
  assert (Hcall : handleToolCall state fc before
                  = (Normal (JSON_stringify state),
                     snd (addLog ("Agent: Executing " ++ fc_name fc) LogTool
                            (Some (fc_name fc)) before))).
  { rewrite handleToolCall_unfold, Hname. reflexivity. }
  assert (Hafter : after
                   = runReactions
                       (snd (toolCallLoop state [fc] before))).
  { subst after. unfold onmessage, task, onmessageBody.
    cbn [toolCallMessage emptyMessage inputTranscription outputTranscription
         turnComplete audioData toolCall interrupted appendInput appendOutput].
    unfold bind, ret. rewrite toolCallLoop_run. reflexivity. }
  rewrite Hafter, toolCallLoop_run. cbn [dispatchAll fst snd List.map].
  rewrite Hcall. cbn [fst snd textOf]. unfold runReactions.
  cbn [journal reactions store toast setReactions setJournal].
  rewrite Hnone, <- app_assoc. unfold dispatched, respond.
  cbn [List.map app react fst snd]. rewrite Hname. repeat split.
Qed.

(** ** The handler of a message, in its parts *)

Lemma onmessageBody_parts state message w :
  onmessageBody state message w
  = (beforeAudio message ;; audioPart message ;; toolPart state message ;;
     if interrupted message then stopPlayback else ret tt) w.
Proof.
  unfold onmessageBody, beforeAudio, audioPart, toolPart, bind.
  destruct (appendInput message w) as [[a|m] w1]; [|reflexivity].
  destruct (appendOutput message w1) as [[b|m] w2]; [|reflexivity].
  destruct ((if turnComplete message then flushTurn else ret tt) w2)
    as [[c|m] w3]; reflexivity.
Qed.

Lemma completes_beforeAudio message : completes (beforeAudio message).
Proof.
  apply completes_bind; [apply completes_appendInput | intros _].
  apply completes_bind; [apply completes_appendOutput | intros _].
  destruct (turnComplete message);
    [apply completes_flushTurn | apply completes_ret].
Qed.

Lemma preserves_beforeAudio {X : Type} (p : World -> X) message :
  (forall v w, p (setUserSpeech v w) = p w) ->
  (forall v w, p (setAiSpeech v w) = p w) ->
  (forall v w, p (setHistory v w) = p w) ->
  (forall v w, p (setDrawn v w) = p w) ->
  preserves p (beforeAudio message).
Proof.
  intros Hu Ha Hh Hd.
  apply preserves_bind; [apply preserves_appendInput, Hu | intros _].
  apply preserves_bind; [apply preserves_appendOutput, Ha | intros _].
  apply preserves_if; [|apply preserves_ret].
  apply preserves_flushTurn; assumption.
Qed.

Lemma beforeAudio_run message w :
  beforeAudio message w = (Normal tt, snd (beforeAudio message w)).
Proof.
  destruct (completes_beforeAudio message w) as [[] H].
  destruct (beforeAudio message w) as [r w1]. cbn [fst snd] in *.
  rewrite H. reflexivity.
Qed.

Lemma completes_toolPart state message : completes (toolPart state message).
Proof.
  unfold toolPart. destruct (toolCall message) as [calls|];
    [apply completes_toolCallLoop | apply completes_ret].
Qed.

Lemma toolPart_run state message w :
  toolPart state message w = (Normal tt, snd (toolPart state message w)).
Proof.
  destruct (completes_toolPart state message w) as [[] H].
  destruct (toolPart state message w) as [r w1]. cbn [fst snd] in *.
  rewrite H. reflexivity.
Qed.

Lemma preserves_toolPart {X : Type} (p : World -> X) state message :
  dispatcherBlind p ->
  (forall v w, p (setJournal v w) = p w) ->
  (forall v w, p (setReactions v w) = p w) ->
  preserves p (toolPart state message).
Proof.
  intros Hp Hj Hr. unfold toolPart. destruct (toolCall message) as [calls|];
    [apply preserves_toolCallLoop; assumption | apply preserves_ret].
Qed.

Lemma stopPlayback_run w : stopPlayback w = (Normal tt, allStopped w).
Proof. reflexivity. Qed.

(** A chunk that cannot be played is one that [decodeAudioData] refuses. *)
Lemma decodeAudioData_unplayable data w buffer w' :
  decodeAudioData (decode data) 24000 1 w = (Normal buffer, w') ->
  playable data = true.
Proof.
  unfold decodeAudioData, playable.
  destruct (decode data) as [bytes|]; [|discriminate].
  destruct (int16ArrayOfBytes bytes) as [[|x samples]|];
    [discriminate | reflexivity | discriminate].
Qed.

Lemma schedule_unplayable data w :
  playable data = false -> exists m, schedule data w = (Throw m, caughtUp w).
Proof.
  intros Hbad. destruct (schedule_run data w) as [H|(buffer & Hdec & _)];
    [exact H|].
  apply decodeAudioData_unplayable in Hdec. congruence.
Qed.

(** X13. A chunk that cannot be played ends the handler where it is
    decoded. When the audio data of a message is not base64, or is not a
    whole, positive number of 16-bit samples, the transcripts are dealt
    with as ever, the status becomes [speaking] and the cursor catches up
    with the clock; then the exception of the decoding ends the handler:
    no source is created or started, the tool calls of the message are
    neither dispatched nor answered, and its interruption flag stops
    nothing. *)
Theorem unplayable_chunk_ends_the_handler state message data w :
  audioData message = Some data ->
  falsy data = false ->
  playable data = false ->
  let w' := onmessage state message w in
  w' = runReactions (caughtUp (snd (beforeAudio message w)))
  /\ status w' = Speaking
  /\ nodes w' = nodes w /\ started w' = started w /\ sources w' = sources w
  /\ stopped w' = stopped w
  /\ store w' = store w /\ actionLogs w' = actionLogs w
  /\ journal w' = (journal w ++ List.map react (reactions w))%list.
Proof.
  intros Haudio Hfalsy Hbad w'.
  assert (Hw' : w' = runReactions (caughtUp (snd (beforeAudio message w)))).
  { subst w'. unfold onmessage, task. rewrite onmessageBody_parts.
    unfold bind at 1. rewrite beforeAudio_run.
    unfold bind at 1, audioPart. rewrite Haudio, Hfalsy.
    destruct (schedule_unplayable data (snd (beforeAudio message w)) Hbad)
      as [m ->].
    reflexivity. }
  split; [exact Hw'|]. rewrite Hw'.
  unfold runReactions, caughtUp.
  cbn [status nodes started sources stopped store actionLogs journal reactions
       setReactions setJournal setNextStartTime setStatus].
  split; [reflexivity|].
  split; [apply (preserves_beforeAudio nodes); reflexivity|].
  split; [apply (preserves_beforeAudio started); reflexivity|].
  split; [apply (preserves_beforeAudio sources); reflexivity|].
  split; [apply (preserves_beforeAudio stopped); reflexivity|].
  split; [apply (preserves_beforeAudio store); reflexivity|].
  split; [apply (preserves_beforeAudio actionLogs); reflexivity|].
  rewrite (preserves_beforeAudio journal message) by reflexivity.
  rewrite (preserves_beforeAudio reactions message) by reflexivity.
  reflexivity.
Qed.

(** ** What every run does to the playback *)

Lemma audioView_dispatcherBlind : dispatcherBlind audioView.
Proof. repeat split. Qed.

Section Audio.

Variable R : World -> World -> Prop.
Hypothesis R_refl : forall w, R w w.
Hypothesis R_trans : forall w1 w2 w3, R w1 w2 -> R w2 w3 -> R w1 w3.
Hypothesis R_view : forall w w', audioView w' = audioView w -> R w w'.
Hypothesis R_schedule : forall data, steps R (schedule data).
Hypothesis R_stop : forall w, R w (allStopped w).
Hypothesis R_ended : forall node w, R w (ended node w).

Lemma onmessageBody_audio state message :
  steps R (onmessageBody state message).
Proof.
  unfold onmessageBody.
  repeat (apply (steps_bind R R_trans); [| intros _]).
  - apply (steps_preserves R audioView); [assumption|].
    apply preserves_appendInput. reflexivity.
  - apply (steps_preserves R audioView); [assumption|].
    apply preserves_appendOutput. reflexivity.
  - apply (steps_preserves R audioView); [assumption|].
    apply preserves_if; [|apply preserves_ret].
    apply preserves_flushTurn; reflexivity.
  - destruct (audioData message) as [data|]; [|apply (steps_ret R R_refl)].
    apply steps_if; [apply (steps_ret R R_refl) | apply R_schedule].
  - apply (steps_preserves R audioView); [assumption|].
    destruct (toolCall message) as [calls|]; [|apply preserves_ret].
    apply preserves_toolCallLoop;
      [apply audioView_dispatcherBlind | reflexivity | reflexivity].
  - destruct (interrupted message); [|apply (steps_ret R R_refl)].
    intros w. apply R_stop.
Qed.

Lemma step_audio state e w : R w (step state e w).
Proof.
  destruct e as [message|node|inputData|toastId|dt ms]; cbn [step].
  - unfold onmessage, task. eapply R_trans.
    + apply (onmessageBody_audio state message).
    + apply R_view. reflexivity.
  - apply R_ended.
  - apply R_view. reflexivity.
  - apply R_view. unfold toastTimeout. destruct (toast w) as [current|];
      [destruct (String.eqb _ _)|]; reflexivity.
  - apply R_view. reflexivity.
Qed.

Lemma run_audio state es w : R w (run state es w).
Proof.
  revert w. induction es as [|e es IH]; intros w.
  - apply R_refl.
  - change (run state (e :: es) w) with (run state es (step state e w)).
    eapply R_trans; [apply step_audio | apply IH].
Qed.

End Audio.

Lemma ended_sources node w : sources (ended node w) = sources w ∖ {[ node ]}.
Proof. unfold ended. destruct (Nat.eqb _ 0); reflexivity. Qed.




Lemma run_nodesInOrder state es w :
  nodesInOrder w -> nodesInOrder (run state es w).
Proof using.
  apply (run_audio (fun w w' => nodesInOrder w -> nodesInOrder w')).
  - auto.
  - auto.
  - intros v v' [= _ _ Hsources Hnodes Hstarted Hstopped].
    unfold nodesInOrder, startedNodes.
    rewrite Hsources, Hnodes, Hstarted, Hstopped. auto.
  - intros data v (Hstarted & Hsources & Hstopped).
    destruct (schedule_run data v) as [[m ->]|(buffer & _ & ->)];
      [repeat split; assumption|].
    unfold nodesInOrder, startedNodes in *.
    cbn [snd scheduled caughtUp started nodes sources stopped setSources
         setNextStartTime setStarted setNodes setStatus].
    split; [|split].
    + rewrite List.map_app, Hstarted, seq_S. reflexivity.
    + intros n Hn. apply elem_of_union in Hn as [Hn|Hn].
      * apply Nat.lt_lt_succ_r, Hsources, Hn.
      * apply elem_of_singleton in Hn. subst n. apply Nat.lt_succ_diag_r.
    + eapply List.Forall_impl; [|exact Hstopped].
      intros n Hn. apply Nat.lt_lt_succ_r, Hn.
  - intros v (Hstarted & Hsources & Hstopped).
    unfold nodesInOrder, startedNodes, allStopped in *.
    cbn [started nodes sources stopped setSources setNextStartTime setStopped].
    split; [exact Hstarted|]. split.
    + intros n Hn. apply elem_of_empty in Hn. contradiction.
    + apply List.Forall_app. split; [exact Hstopped|].
      apply List.Forall_forall. intros n Hn. apply Hsources.
      apply elem_of_elements, list_elem_of_In, Hn.
  - intros node v (Hstarted & Hsources & Hstopped).
    unfold nodesInOrder, startedNodes.
    assert (Hfields : started (ended node v) = started v
                      /\ nodes (ended node v) = nodes v
                      /\ stopped (ended node v) = stopped v)
      by (unfold ended; destruct (Nat.eqb _ 0); repeat split).
    destruct Hfields as (-> & -> & ->). rewrite ended_sources.
    split; [exact Hstarted|]. split; [|exact Hstopped].
    intros n Hn. apply elem_of_difference in Hn as [Hn _]. apply Hsources, Hn.
Qed.

(** X15. In any run of a session, from a fresh overlay, no source is
    started twice, every source in the set has been started, and every
    source that was stopped had been started: [start] and [stop] are never
    called on a source in a state that refuses them. *)
Theorem every_source_is_started_once state events s :
  let w := run state events (mounted s) in
  List.NoDup (startedNodes w)
  /\ (forall n, n ∈ sources w -> In n (startedNodes w))
  /\ (forall n, In n (stopped w) -> In n (startedNodes w)).
Proof.
  intros w.
  assert (Hw : nodesInOrder w).
  { apply run_nodesInOrder. repeat split.
    - intros n Hn. apply elem_of_empty in Hn. contradiction.
    - apply List.Forall_nil. }
  destruct Hw as (Hstarted & Hsources & Hstopped). rewrite Hstarted.
  split; [apply List.seq_NoDup|]. split.
  - intros n Hn. apply in_seq. split; [apply Nat.le_0_l | apply Hsources, Hn].
  - intros n Hn. apply in_seq. split; [apply Nat.le_0_l|].
    rewrite List.Forall_forall in Hstopped. apply Hstopped, Hn.
Qed.

(** ** Interruptions *)

Lemma playable_truthy data : playable data = true -> falsy data = false.
Proof. destruct data as [|c data]; [discriminate | reflexivity]. Qed.

(** The handler of a message whose chunk can be played. *)
Lemma onmessage_playable state message data w :
  audioData message = Some data ->
  playable data = true ->
  exists buffer,
    onmessage state message w
    = runReactions
        ((if interrupted message then allStopped else fun v => v)
           (snd (toolPart state message
                   (scheduled buffer (snd (beforeAudio message w)))))).
Proof.
  intros Haudio Hplay. unfold onmessage, task.
  destruct (schedule_playable data (snd (beforeAudio message w)) Hplay)
    as (buffer & _ & Hrun).
  exists buffer. rewrite onmessageBody_parts.
  unfold bind at 1. rewrite beforeAudio_run.
  unfold bind at 1, audioPart.
  rewrite Haudio, (playable_truthy data Hplay), Hrun.
  unfold bind. rewrite toolPart_run.
  destruct (interrupted message); reflexivity.
Qed.

(** The handler of a message without a chunk. *)
Lemma onmessage_silent state message w :
  audioData message = None ->
  onmessage state message w
  = runReactions
      ((if interrupted message then allStopped else fun v => v)
         (snd (toolPart state message (snd (beforeAudio message w))))).
Proof.
  intros Haudio. unfold onmessage, task.
  rewrite onmessageBody_parts.
  unfold bind at 1. rewrite beforeAudio_run.
  unfold bind at 1, audioPart. rewrite Haudio.
  unfold ret, bind. rewrite toolPart_run.
  destruct (interrupted message); reflexivity.
Qed.

Lemma audioView_toolPart state message w :
  audioView (snd (toolPart state message w)) = audioView w.
Proof.
  apply (preserves_toolPart audioView);
    [apply audioView_dispatcherBlind | reflexivity | reflexivity].
Qed.

Lemma audioView_beforeAudio message w :
  audioView (snd (beforeAudio message w)) = audioView w.
Proof. apply (preserves_beforeAudio audioView); reflexivity. Qed.

Lemma currentTime_dispatcherBlind : dispatcherBlind currentTime.
Proof. repeat split. Qed.

Lemma currentTime_onmessage state message w :
  currentTime (onmessage state message w) = currentTime w.
Proof.
  unfold onmessage, task, runReactions.
  cbn [currentTime setReactions setJournal].
  rewrite onmessageBody_parts.
  apply preserves_bind;
    [apply preserves_beforeAudio; reflexivity | intros _].
  apply preserves_bind; [|intros _; apply preserves_bind; [|intros _]].
  - unfold audioPart. destruct (audioData message) as [data|];
      [|apply preserves_ret].
    apply preserves_if; [apply preserves_ret|].
    apply preserves_schedule. repeat split.
  - apply preserves_toolPart;
      [apply currentTime_dispatcherBlind | reflexivity | reflexivity].
  - apply preserves_if; [|apply preserves_ret].
    apply preserves_stopPlayback. repeat split.
Qed.

(** X16. An interruption (in a message without audio) stops every source
    of the set and forgets them all; it starts nothing and leaves the
    status as it is (the status changes when a source ends). The cursor
    goes to zero, so that the chunk that comes next is started at the
    current time of the clock, not behind the buffers that were
    interrupted, and is then the only source of the set. *)
Theorem interruption_stops_every_source state message w :
  interrupted message = true ->
  audioData message = None ->
  let w' := onmessage state message w in
  (stopped w' = (stopped w ++ elements (sources w))%list
   /\ sources w' = ∅
   /\ nextStartTime w' = 0%Q
   /\ started w' = started w
   /\ status w' = status w)
  /\ forall next data,
       audioData next = Some data ->
       playable data = true ->
       interrupted next = false ->
       (0 <= currentTime w)%Q ->
       exists when seconds,
         started (onmessage state next w')
         = (started w ++ [mkScheduled (nodes w) when seconds])%list
         /\ (when == currentTime w)%Q
         /\ sources (onmessage state next w') = {[ nodes w ]}.
Proof.
  intros Hint Haudio w'.
  assert (Hw' : audioView w' = audioView (allStopped w)).
  { subst w'. rewrite (onmessage_silent state message w Haudio), Hint.
    pose proof (audioView_toolPart state message (snd (beforeAudio message w)))
      as Htools.
    pose proof (audioView_beforeAudio message w) as Hbefore.
    rewrite Hbefore in Htools. injection Htools as Hs Hn Hsrc Hnodes Hst Hstop.
    unfold audioView, runReactions, allStopped.
    cbn [status nextStartTime sources nodes started stopped setReactions
         setJournal setNextStartTime setSources setStopped].
    rewrite Hs, Hsrc, Hnodes, Hst, Hstop. reflexivity. }
  injection Hw' as Hs Hn Hsrc Hnodes Hst Hstop.
  split; [repeat split; assumption|].
  intros next data Hnext Hplay Hgoes Hclock.
  destruct (onmessage_playable state next data w' Hnext Hplay)
    as [buffer Hrun].
  exists (Qmax 0 (currentTime w)), (duration buffer). rewrite Hrun, Hgoes.
  pose proof (audioView_toolPart state next
                (scheduled buffer (snd (beforeAudio next w')))) as Htools.
  injection Htools as _ _ Hsrc' _ Hst' _.
  unfold runReactions. cbn [started sources setReactions setJournal].
  rewrite Hst', Hsrc'.
  pose proof (audioView_beforeAudio next w') as Hbefore.
  injection Hbefore as _ Hn' Hsrc'' Hnodes' Hst'' _.
  assert (Hnow : currentTime (snd (beforeAudio next w')) = currentTime w).
  { rewrite (preserves_beforeAudio currentTime next) by reflexivity.
    apply currentTime_onmessage. }
  unfold scheduled.
  cbn [started sources setSources setNextStartTime setStarted setNodes caughtUp
       setStatus].
  rewrite Hn', Hsrc'', Hnodes', Hst'', Hnow, Hn, Hsrc, Hnodes, Hst.
  split; [reflexivity|]. split; [apply Q.max_r, Hclock|].
  apply union_empty_l_L.
Qed.

(** X17. A chunk that comes in the message that carries the interruption
    is started and stopped at once: the audio of a message is handled
    before its interruption flag, so that the new source is started at the
    cursor, and is among the sources stopped, and the set is empty and the
    cursor at zero when the handler returns. *)
Theorem chunk_of_an_interrupting_message_is_stopped state message data w :
  audioData message = Some data ->
  playable data = true ->
  interrupted message = true ->
  let w' := onmessage state message w in
  let when := Qmax (nextStartTime w) (currentTime w) in
  (exists seconds,
     started w' = (started w ++ [mkScheduled (nodes w) when seconds])%list)
  /\ stopped w' = (stopped w ++ elements (sources w ∪ {[ nodes w ]}))%list
  /\ In (nodes w) (stopped w')
  /\ sources w' = ∅
  /\ nextStartTime w' = 0%Q.
Proof.
  intros Haudio Hplay Hint w' when.
  destruct (onmessage_playable state message data w Haudio Hplay)
    as [buffer Hrun].
  fold w' in Hrun. rewrite Hint in Hrun.
  pose proof (audioView_toolPart state message
                (scheduled buffer (snd (beforeAudio message w)))) as Htools.
  injection Htools as _ _ Hsrc _ Hst Hstop.
  pose proof (audioView_beforeAudio message w) as Hbefore.
  injection Hbefore as _ Hn' Hsrc' Hnodes' Hst' Hstop'.
  assert (Hnow : currentTime (snd (beforeAudio message w)) = currentTime w)
    by (apply (preserves_beforeAudio currentTime); reflexivity).
  assert (Hstopped : stopped w'
                     = (stopped w ++ elements (sources w ∪ {[ nodes w ]}))%list).
  { rewrite Hrun. unfold runReactions, allStopped.
    cbn [stopped setReactions setJournal setNextStartTime setSources setStopped].
    rewrite Hstop, Hsrc. unfold scheduled.
    cbn [stopped sources setSources setNextStartTime setStarted setNodes
         caughtUp setStatus].
    rewrite Hstop', Hsrc', Hnodes'. reflexivity. }
  split; [|split; [exact Hstopped|split; [|split]]].
  - exists (duration buffer). rewrite Hrun. unfold runReactions, allStopped.
    cbn [started setReactions setJournal setNextStartTime setSources setStopped].
    rewrite Hst. unfold scheduled.
    cbn [started setSources setNextStartTime setStarted setNodes caughtUp
         setStatus].
    rewrite Hst', Hn', Hnodes', Hnow. reflexivity.
  - rewrite Hstopped. apply in_or_app. right.
    apply list_elem_of_In, elem_of_elements, elem_of_union_r,
      elem_of_singleton.
    reflexivity.
  - rewrite Hrun. reflexivity.
  - rewrite Hrun. reflexivity.
Qed.

(** ** The toast and its timer *)

(** X18. A toast is dismissed by its own timer only. A success or error
    entry raises a toast with a fresh identifier; the timer of that toast
    removes it, the timer of any other toast leaves it. When a later entry
    has raised a newer toast (with another identifier), the timer of the
    older one leaves the newer on the screen; a later entry that raises no
    toast does not keep the older one from being dismissed. *)
Theorem toast_is_dismissed_by_its_own_timer message type toolName w :
  raisesToast type = true ->
  let shown := snd (addLog message type toolName w) in
  let toastId := randomId (S (drawn w)) in
  toast shown = Some (mkToastMessage toastId message type)
  /\ toast (toastTimeout toastId shown) = None
  /\ (forall other, other <> toastId ->
        toast (toastTimeout other shown) = toast shown)
  /\ forall message' type' toolName',
       let later := snd (addLog message' type' toolName' shown) in
       let newerId := randomId (S (S (S (drawn w)))) in
       (raisesToast type' = false ->
        toast (toastTimeout toastId later) = None)
       /\ (raisesToast type' = true -> newerId <> toastId ->
           toast (toastTimeout toastId later)
           = Some (mkToastMessage newerId message' type')).
Proof.
  intros Hraises shown toastId.
  assert (Hshown : toast shown = Some (mkToastMessage toastId message type))
    by (subst shown; unfold addLog; rewrite Hraises; reflexivity).
  assert (Hdrawn : drawn shown = S (S (drawn w)))
    by (subst shown; unfold addLog; rewrite Hraises; reflexivity).
  split; [exact Hshown|]. split; [|split].
  - unfold toastTimeout. rewrite Hshown. cbn [toast_id].
    rewrite String.eqb_refl. reflexivity.
  - intros other Hother. unfold toastTimeout. rewrite Hshown. cbn [toast_id].
    destruct (String.eqb_spec toastId other) as [E|_]; [|exact Hshown].
    exfalso. apply Hother. symmetry. exact E.
  - intros message' type' toolName' later newerId. split.
    + intros Hquiet.
      assert (Hlater : toast later = toast shown)
        by (subst later; unfold addLog; rewrite Hquiet; reflexivity).
      unfold toastTimeout. rewrite Hlater, Hshown. cbn [toast_id].
      rewrite String.eqb_refl. reflexivity.
    + intros Hloud Hnewer.
      assert (Hlater : toast later
                       = Some (mkToastMessage newerId message' type')).
      { subst later newerId. unfold addLog. rewrite Hloud.
        cbn [bind generateSafeId Date_now gets modify fst snd toast setToast
             drawn setDrawn setActionLogs].
        rewrite Hdrawn. reflexivity. }
      unfold toastTimeout. rewrite Hlater. cbn [toast_id].
      destruct (String.eqb_spec newerId toastId) as [E|_]; [|exact Hlater].
      exfalso. apply Hnewer, E.
Qed.

(** ** Batches of additions *)

Lemma addEvent_store state fc w :
  fc_name fc = "addEvent" ->
  store (snd (handleToolCall state fc w))
  = withEvents
      (events (store w)
       ++ [mkCalendarEvent
             (default (randomId (S (drawn w))) (fc_args fc !! "id"))
             (fc_args fc !! "title") (fc_args fc !! "date")
             (fc_args fc !! "startTime") (fc_args fc !! "endTime")
             (fc_args fc !! "location") (fc_args fc !! "description")])%list
      (store w).
Proof. intros Hname. rewrite handleToolCall_unfold, Hname. reflexivity. Qed.

(** The store after the handler of a message without audio is the store
    after its batch of calls. *)
Lemma store_onmessage_silent state message calls w :
  toolCall message = Some calls ->
  audioData message = None ->
  exists before,
    store before = store w
    /\ store (onmessage state message w)
       = store (snd (dispatchAll state calls before)).
Proof.
  intros Hcalls Haudio. exists (snd (beforeAudio message w)).
  split; [apply (preserves_beforeAudio store); reflexivity|].
  rewrite (onmessage_silent state message w Haudio).
  unfold toolPart. rewrite Hcalls, toolCallLoop_run.
  destruct (interrupted message); reflexivity.
Qed.

Lemma dispatchAll_addTodo state calls w :
  Forall (fun fc => fc_name fc = "addTodo") calls ->
  let after := store (snd (dispatchAll state calls w)) in
  List.map todo_title (todos after)
  = (rev (List.map (fun fc => fc_args fc !! "title") calls)
     ++ List.map todo_title (todos (store w)))%list
  /\ withTodos (todos (store w)) after = store w.
Proof.
  intros Hcalls. revert w.
  induction Hcalls as [|fc calls Hname _ IH]; intros w after.
  - split; [reflexivity | apply withTodos_same].
  - subst after. cbn [dispatchAll snd].
    destruct (IH (snd (handleToolCall state fc w))) as [Htitles Hrest].
    rewrite (addTodo_store state fc w Hname) in Htitles, Hrest.
    cbn [todos withTodos List.map todo_title] in Htitles, Hrest.
    split.
    + rewrite Htitles. cbn [List.map rev]. rewrite <- app_assoc. reflexivity.
    + destruct (store (snd (dispatchAll state calls
                              (snd (handleToolCall state fc w)))))
        as [ts ns es l t].
      destruct (store w) as [ts0 ns0 es0 l0 t0].
      unfold withTodos in *. cbn in *. congruence.
Qed.

Lemma dispatchAll_addEvent state calls w :
  Forall (fun fc => fc_name fc = "addEvent") calls ->
  let after := store (snd (dispatchAll state calls w)) in
  List.map event_title (events after)
  = (List.map event_title (events (store w))
     ++ List.map (fun fc => fc_args fc !! "title") calls)%list
  /\ withEvents (events (store w)) after = store w.
Proof.
  intros Hcalls. revert w.
  induction Hcalls as [|fc calls Hname _ IH]; intros w after.
  - split; [symmetry; apply app_nil_r | apply withEvents_same].
  - subst after. cbn [dispatchAll snd].
    destruct (IH (snd (handleToolCall state fc w))) as [Htitles Hrest].
    rewrite (addEvent_store state fc w Hname) in Htitles, Hrest.
    cbn [events withEvents] in Htitles, Hrest.
    split.
    + rewrite Htitles, List.map_app. cbn [List.map event_title].
      rewrite <- app_assoc. reflexivity.
    + destruct (store (snd (dispatchAll state calls
                              (snd (handleToolCall state fc w)))))
        as [ts ns es l t].
      destruct (store w) as [ts0 ns0 es0 l0 t0].
      unfold withEvents in *. cbn in *. congruence.
Qed.

(** X19. The additions of one message keep the order of the list they go
    to. After a message (without audio) whose calls are all [addTodo], the
    new tasks are at the head of the list, the last added first, above the
    tasks of before; after one whose calls are all [addEvent], the new
    events are at the end of the list, in the order of the calls. Nothing
    else of the store changes. *)
Theorem additions_of_a_batch_keep_their_order state message calls w :
  toolCall message = Some calls ->
  audioData message = None ->
  let after := store (onmessage state message w) in
  let titles := List.map (fun fc => fc_args fc !! "title") calls in
  (Forall (fun fc => fc_name fc = "addTodo") calls ->
   List.map todo_title (todos after)
   = (rev titles ++ List.map todo_title (todos (store w)))%list
   /\ withTodos (todos (store w)) after = store w)
  /\ (Forall (fun fc => fc_name fc = "addEvent") calls ->
      List.map event_title (events after)
      = (List.map event_title (events (store w)) ++ titles)%list
      /\ withEvents (events (store w)) after = store w).
Proof.
  intros Hcalls Haudio after titles. subst after titles.
  destruct (store_onmessage_silent state message calls w Hcalls Haudio)
    as (before & Hbefore & ->).
  rewrite <- Hbefore. split; intros Hnames.
  - apply dispatchAll_addTodo, Hnames.
  - apply dispatchAll_addEvent, Hnames.
Qed.

(** ** Decoding a chunk *)

Lemma map_nth_seq {A B : Type} (g : A -> B) (d : A) (l : list A) :
  List.map (fun i => g (nth i l d)) (seq 0 (length l)) = List.map g l.
Proof.
  induction l as [|x l IH]; [reflexivity|].
  cbn [length seq List.map nth]. f_equal.
  rewrite <- seq_shift, List.map_map. exact IH.
Qed.

Lemma channelSamples_mono dataInt16 :
  channelSamples dataInt16 1 (length dataInt16) 0
  = List.map (fun v => inject_Z v / inject_Z 32768)%Q dataInt16.
Proof.
  unfold channelSamples.
  rewrite <- (map_nth_seq (fun v => inject_Z v / inject_Z 32768)%Q 0%Z).
  apply List.map_ext. intros i. rewrite Nat.mul_1_r, Nat.add_0_r. reflexivity.
Qed.

Lemma sample_range (v : Z) :
  (-32768 <= v <= 32767)%Z ->
  (-1 <= inject_Z v / inject_Z 32768)%Q /\ (inject_Z v / inject_Z 32768 < 1)%Q.
Proof using.
  try clear randomId; try clear JSON_stringify; try clear typeErrorMessage;
  try clear runsAtCall.
  intros H. unfold Qle, Qlt, Qdiv, Qmult, Qinv, inject_Z. cbn. lia.
Qed.

(** X20. What [decodeAudioData] makes of a chunk. For the base64 text of
    a buffer that holds at least one 16-bit sample, low byte first, the
    decoding raises nothing and leaves the world alone; the buffer has one
    channel, one frame for each sample and the rate asked for, and its
    samples are the 16-bit values divided by 32768, each of them at least
    -1 and less than 1. *)
Theorem decoded_chunk_holds_the_samples samples rate w :
  samples <> [] ->
  Forall (fun v => (-32768 <= v <= 32767)%Z) samples ->
  let data := encode (bytesOfInt16Array samples) in
  let floats := List.map (fun v => inject_Z v / inject_Z 32768)%Q samples in
  decodeAudioData (decode data) rate 1 w
  = (Normal (mkAudioBuffer 1 (length samples) rate floats), w)
  /\ Forall (fun x => (-1 <= x)%Q /\ (x < 1)%Q) floats.
Proof.
  intros Hsome Hrange data floats. subst data floats. split.
  - rewrite (decode_encode _ (bytesOfInt16Array_range samples)).
    unfold decodeAudioData.
    rewrite (int16ArrayOfBytes_bytesOfInt16Array samples Hrange), Nat.div_1_r.
    destruct samples as [|v samples]; [contradiction|].
    cbn [length Nat.eqb]. unfold ret. do 3 f_equal.
    cbn [seq flat_map]. rewrite app_nil_r.
    apply (channelSamples_mono (v :: samples)).
  - apply List.Forall_map. eapply List.Forall_impl; [|exact Hrange].
    intros v Hv. apply sample_range, Hv.
Qed.

(** ** Base64: sizes and refusals *)

Lemma length_string_of_list_ascii l :
  String.length (string_of_list_ascii l) = length l.
Proof.
  induction l as [|c l IH]; [reflexivity|].
  cbn [string_of_list_ascii String.length length]. rewrite IH. reflexivity.
Qed.

Lemma encoded_size bytes :
  (length (sextetsOf bytes) + length (padding (length bytes))
   = 4 * ((length bytes + 2) / 3))%nat.
Proof using.
  induction bytes as [| a | a b | a b c l IH] using list_ind3.
  - reflexivity.
  - reflexivity.
  - reflexivity.
  - cbn [sextetsOf]. rewrite length_app. cbn [length].
    rewrite padding_plus3.
    revert IH. generalize (length (sextetsOf l)) (length (padding (length l)))
      (length l).
    intros s p n IH. euclid.
Qed.

Lemma b64char_known n : In (b64char n) alphabet \/ b64char n = padChar.
Proof.
  unfold b64char. destruct (nth_in_or_default n alphabet padChar); auto.
Qed.

(** X21. The base64 text of [n] bytes has [4 * ceil (n / 3)] characters,
    each of them a character of the base64 alphabet or the padding
    character [=]. *)
Theorem encode_size_and_alphabet bytes :
  String.length (encode bytes) = (4 * ((length bytes + 2) / 3))%nat
  /\ Forall (fun c => In c alphabet \/ c = padChar)
       (list_ascii_of_string (encode bytes)).
Proof.
  unfold encode, btoa.
  set (binary :=
         List.map nat_of_ascii
           (list_ascii_of_string
              (string_of_list_ascii (List.map fromCharCode bytes)))).
  assert (Hlength : length binary = length bytes)
    by (subst binary;
        rewrite list_ascii_of_string_of_list_ascii, !length_map; reflexivity).
  split.
  - rewrite length_string_of_list_ascii, length_app, length_map, <- Hlength.
    apply encoded_size.
  - rewrite list_ascii_of_string_of_list_ascii. apply List.Forall_app. split.
    + apply List.Forall_map, List.Forall_forall. intros n _.
      apply b64char_known.
    + destruct (padding_cases (length binary)) as [->|[->| ->]];
        repeat (apply List.Forall_cons; [right; reflexivity|]);
        apply List.Forall_nil.
Qed.

Lemma In_dropPad c l : In c l -> c <> padChar -> In c (dropPad l).
Proof.
  intros Hin Hc. destruct l as [|x l]; [exact Hin|].
  cbn [dropPad]. destruct (Ascii.eqb_spec x padChar) as [E|_]; [|exact Hin].
  destruct Hin as [<-|Hin]; [contradiction | exact Hin].
Qed.

Lemma In_stripPadding c l : In c l -> c <> padChar -> In c (stripPadding l).
Proof.
  intros Hin Hc. unfold stripPadding.
  destruct (Nat.eqb (length l mod 4) 0); [|exact Hin].
  apply in_rev. rewrite rev_involutive.
  apply In_dropPad; [|exact Hc]. apply In_dropPad; [|exact Hc].
  apply in_rev. rewrite rev_involutive. exact Hin.
Qed.

Lemma valuesOf_foreign c l : In c l -> b64value c = None -> valuesOf l = None.
Proof.
  intros Hin Hc. induction l as [|x l IH]; [contradiction|].
  cbn [valuesOf]. destruct Hin as [->|Hin].
  - rewrite Hc. reflexivity.
  - rewrite (IH Hin). destruct (b64value x); reflexivity.
Qed.

(** X22. [decode] refuses a text with a foreign character: when the text
    has a character that is none of the base64 alphabet, the white space
    that [atob] skips and the padding character, [atob] raises and there
    are no bytes, wherever the character stands. *)
Theorem decode_refuses_foreign_characters text c :
  In c (list_ascii_of_string text) ->
  b64value c = None ->
  isBase64Space c = false ->
  c <> padChar ->
  decode text = None.
Proof.
  intros Hin Hvalue Hspace Hpad. unfold decode, atob.
  rewrite (valuesOf_foreign c); [reflexivity| |exact Hvalue].
  apply In_stripPadding; [|exact Hpad].
  apply filter_In. split; [exact Hin|]. rewrite Hspace. reflexivity.
Qed.

End Overlay.

(** ** The theorems at work on the sample data *)

Lemma sampleState_titled :
  titled todo_title (todos sampleState)
  /\ titled note_title (notes sampleState)
  /\ titled event_title (events sampleState).
Proof. repeat split; repeat constructor; discriminate. Qed.

(** Deleting the todos that contain MILK, in any case, keeps [walkDog];
    completing those that contain DOG changes the flag of [walkDog] and
    nothing else. *)
Lemma delete_and_complete_witness :
  todos
    (store
       (snd
          (handleToolCall sampleIds sampleStringify sampleTypeError atTheCall
             sampleState
             (sampleCall "c1" "deleteItem" [("type", "todo"); ("title", "MILK")])
             (mounted sampleState))))
  = [walkDog]
  /\ todos
       (store
          (snd
             (handleToolCall sampleIds sampleStringify sampleTypeError
                atTheCall sampleState
                (sampleCall "c2" "markTodoComplete" [("title", "DOG")])
                (mounted sampleState))))
     = [buyMilk; mkTodo "t2" (Some "Walk dog") true None None 0; milkshake].
Proof.
  split.
  - destruct
      (delete_and_complete_affect_exactly_the_matches sampleIds
         sampleStringify sampleTypeError atTheCall sampleState
         (sampleCall "c1" "deleteItem" [("type", "todo"); ("title", "MILK")])
         (mounted sampleState) "MILK" eq_refl) as [Hdel _].
    destruct (Hdel eq_refl eq_refl (proj1 sampleState_titled)) as [-> _].
    reflexivity.
  - destruct
      (delete_and_complete_affect_exactly_the_matches sampleIds
         sampleStringify sampleTypeError atTheCall sampleState
         (sampleCall "c2" "markTodoComplete" [("title", "DOG")])
         (mounted sampleState) "DOG" eq_refl) as (_ & _ & _ & Hdone).
    destruct (Hdone eq_refl (proj1 sampleState_titled)) as [-> _].
    reflexivity.
Defined.

(** Scenario B of the specification, on notes: there is no note about
    milk. *)
Lemma no_match_witness :
  fst
    (handleToolCall sampleIds sampleStringify sampleTypeError atTheCall sampleState
       (sampleCall "c1" "deleteItem" [("type", "note"); ("title", "milk")])
       (mounted sampleState))
  = Normal ("Error: Item " ++ dq ++ "milk" ++ dq ++ " not found.")
  /\ store
       (snd
          (handleToolCall sampleIds sampleStringify sampleTypeError atTheCall sampleState
             (sampleCall "c1" "deleteItem" [("type", "note"); ("title", "milk")])
             (mounted sampleState)))
     = sampleState.
Proof.
  destruct
    (no_match_is_an_error_and_changes_nothing sampleIds sampleStringify
       sampleTypeError atTheCall sampleState
       (sampleCall "c1" "deleteItem" [("type", "note"); ("title", "milk")])
       (mounted sampleState) "milk" eq_refl) as (_ & Hnote & _).
  apply (Hnote eq_refl eq_refl (proj1 (proj2 sampleState_titled))).
  intros n [<-|[]] Hmatch. apply titleHas_spec in Hmatch. discriminate Hmatch.
Defined.

(** Scenario D of the specification. *)
Lemma setTheme_witness :
  fst
    (handleToolCall sampleIds sampleStringify sampleTypeError atTheCall sampleState
       (sampleCall "c1" "setTheme" [("theme", "purple")]) (mounted sampleState))
  = Normal "Error: Invalid theme specified."
  /\ store
       (snd
          (handleToolCall sampleIds sampleStringify sampleTypeError atTheCall sampleState
             (sampleCall "c1" "setTheme" [("theme", "purple")])
             (mounted sampleState)))
     = sampleState.
Proof.
  destruct
    (setTheme_updates_or_rejects sampleIds sampleStringify sampleTypeError atTheCall
       sampleState (sampleCall "c1" "setTheme" [("theme", "purple")])
       (mounted sampleState) eq_refl) as [_ Hbad].
  apply Hbad; discriminate.
Defined.

Lemma undeclared_tool_witness :
  fst
    (handleToolCall sampleIds sampleStringify sampleTypeError atTheCall sampleState
       (sampleCall "c1" "sendEmail" []) (mounted sampleState))
  = Normal "OK".
Proof.
  apply
    (undeclared_tool_is_ignored sampleIds sampleStringify sampleTypeError atTheCall
       sampleState (sampleCall "c1" "sendEmail" []) (mounted sampleState)).
  cbn. intuition discriminate.
Defined.

(** Two chunks, half a second apart, and the end of the first buffer. *)
Lemma scheduled_starts_witness :
  backToBack
    (started
       (run sampleIds sampleStringify sampleTypeError atTheCall sampleState
          [Message (chunkMessage [0; 0; 0]%Z); Tick (1 # 2) 500;
           Message (chunkMessage [1; 2]%Z); Ended 0]
          (mounted sampleState))).
Proof.
  apply
    (proj1
       (scheduled_starts_are_gapless sampleIds sampleStringify sampleTypeError atTheCall
          sampleState)
       [Message (chunkMessage [0; 0; 0]%Z); Tick (1 # 2) 500;
        Message (chunkMessage [1; 2]%Z); Ended 0]
       sampleState).
  repeat constructor.
Defined.

(** The schedule of that run: the second buffer waits for the clock. *)
Example scheduled_starts_sample :
  started
    (run sampleIds sampleStringify sampleTypeError atTheCall sampleState
       [Message (chunkMessage [0; 0; 0]%Z); Tick (1 # 2) 500;
        Message (chunkMessage [1; 2]%Z); Ended 0]
       (mounted sampleState))
  = [mkScheduled 0 0 (3 # 24000); mkScheduled 1 (1 # 2) (2 # 24000)].
Proof. vm_compute. reflexivity. Qed.

(** After one chunk of three samples the cursor is at 3/24000 s; the
    interruption that follows puts it back to zero. *)
Lemma interruption_moves_cursor_back :
  let before :=
    run sampleIds sampleStringify sampleTypeError atTheCall sampleState
      [Message (chunkMessage [0; 0; 0]%Z)] (mounted sampleState) in
  let after :=
    step sampleIds sampleStringify sampleTypeError atTheCall sampleState
      (Message interruption) before in
  (nextStartTime after < nextStartTime before)%Q
  /\ ~ (nextStartTime before <= nextStartTime after)%Q.
Proof. vm_compute. split; [reflexivity | intros H; apply H; reflexivity]. Qed.

Lemma cursor_witness :
  (nextStartTime (mounted sampleState)
   <= nextStartTime
        (run sampleIds sampleStringify sampleTypeError atTheCall sampleState
           [Message (chunkMessage [0; 0; 0]%Z); Tick (1 # 2) 500; Ended 0]
           (mounted sampleState)))%Q
  /\ nextStartTime
       (step sampleIds sampleStringify sampleTypeError atTheCall sampleState
          (Message interruption) (mounted sampleState))
     = 0%Q.
Proof.
  destruct
    (cursor_moves_back_only_when_interrupted sampleIds sampleStringify
       sampleTypeError atTheCall sampleState (mounted sampleState)) as [Hrun Hint].
  split.
  - apply Hrun. repeat constructor.
  - apply Hint; [reflexivity | exact I].
Defined.

(** A turn in three deltas, then the flush. *)
Lemma flush_witness :
  exists id timestamp,
    history
      (run sampleIds sampleStringify sampleTypeError atTheCall sampleState
         [Message (inputDelta "Add "); Message (outputDelta "Sure.");
          Message (inputDelta "milk"); Message turnCompleted]
         (mounted sampleState))
    = [mkConversationTurn id "Add milk" "Sure." timestamp].
Proof.
  destruct
    (flush_commits_the_accumulated_turn sampleIds sampleStringify
       sampleTypeError atTheCall sampleState
       [Message (inputDelta "Add "); Message (outputDelta "Sure.");
        Message (inputDelta "milk")]
       turnCompleted (mounted sampleState))
    as (_ & _ & _ & Hcommit).
  - repeat constructor.
  - reflexivity.
  - exact (Hcommit eq_refl).
Defined.

(** A user transcript of one space is not empty, and yet the flush commits
    no turn for it. *)
Lemma blank_transcript_is_not_committed :
  let es := [Message (inputDelta " ")] in
  let w' :=
    run sampleIds sampleStringify sampleTypeError atTheCall sampleState
      (es ++ [Message turnCompleted])%list (mounted sampleState) in
  inputDeltas es ++ inputText turnCompleted = " "
  /\ " " <> EmptyString
  /\ history w' = []
  /\ userSpeech w' = EmptyString.
Proof. repeat split. discriminate. Qed.

(** Two calls in one message, under the batching of React: the second is
    dispatched before the response to the first is sent. Its updater is
    queued behind that of the first, so that it answers not found and
    removes the two tasks all the same. *)
Lemma second_call_is_dispatched_before_first_response :
  let w' :=
    onmessage sampleIds sampleStringify sampleTypeError firstOnly sampleState
      (toolCallMessage
         [sampleCall "c1" "setTheme" [("theme", "dark")];
          sampleCall "c2" "deleteItem" [("type", "todo"); ("title", "MILK")]])
      (mounted sampleState) in
  journal w'
  = [Dispatched "c1"; Dispatched "c2";
     ToolResponseSent "c1" "setTheme" "OK: Switched to dark mode.";
     ToolResponseSent "c2" "deleteItem"
       ("Error: Item " ++ dq ++ "MILK" ++ dq ++ " not found.")]
  /\ firstIndex (isDispatchOf "c2") (journal w') = Some 1%nat
  /\ firstIndex (isResponseTo "c1") (journal w') = Some 2%nat
  /\ todos (store w') = [walkDog].
Proof. vm_compute. repeat split. Qed.

Lemma tool_calls_witness :
  exists before,
    journal
      (onmessage sampleIds sampleStringify sampleTypeError firstOnly
         sampleState
         (toolCallMessage
            [sampleCall "c1" "setTheme" [("theme", "dark")];
             sampleCall "c2" "deleteItem" [("type", "todo"); ("title", "MILK")]])
         (mounted sampleState))
    = ([]
       ++ List.map dispatched
            [sampleCall "c1" "setTheme" [("theme", "dark")];
             sampleCall "c2" "deleteItem" [("type", "todo"); ("title", "MILK")]]
       ++ List.map (fun p => react (respond p))
            (fst
               (dispatchAll sampleIds sampleStringify sampleTypeError
                  firstOnly sampleState
                  [sampleCall "c1" "setTheme" [("theme", "dark")];
                   sampleCall "c2" "deleteItem"
                     [("type", "todo"); ("title", "MILK")]]
                  before)))%list.
Proof.
  destruct
    (tool_calls_are_answered_after_the_batch sampleIds sampleStringify
       sampleTypeError firstOnly sampleState
       (toolCallMessage
          [sampleCall "c1" "setTheme" [("theme", "dark")];
           sampleCall "c2" "deleteItem" [("type", "todo"); ("title", "MILK")]])
       [sampleCall "c1" "setTheme" [("theme", "dark")];
        sampleCall "c2" "deleteItem" [("type", "todo"); ("title", "MILK")]]
       (mounted sampleState) eq_refl I eq_refl)
    as (before & _ & Hjournal & _).
  exists before. exact Hjournal.
Defined.

(** A frame of four samples: full scale both ways, a half and a third. *)
Lemma captured_frame_witness :
  exists data,
    journal (onaudioprocess [1; -1; 1 # 2; -1 # 3]%Q (mounted sampleState))
    = [RealtimeInputSent (mkBlob data "audio/pcm;rate=16000")]
    /\ decode data
       = Some (bytesOfInt16Array [-32768; -32768; 16384; -10922]%Z).
Proof.
  destruct
    (captured_frame_is_pcm16_in_base64 [1; -1; 1 # 2; -1 # 3]%Q
       (mounted sampleState))
    as (data & Hjournal & _ & Hdecode & _).
  - repeat constructor; discriminate.
  - reflexivity.
  - exists data. split; [exact Hjournal | exact Hdecode].
Defined.

Example captured_frame_sample :
  blob_data
    (mkBlob (encode (bytesOfInt16Array [-32768; -32768; 16384; -10922]%Z))
       "audio/pcm;rate=16000")
  = "AIAAgABAVtU=".
Proof. vm_compute. reflexivity. Qed.

(** ** The further theorems at work on the sample data *)

Lemma sampleState_titles type :
  Forall (fun t => t <> None) (titlesOf type (store (mounted sampleState))).
Proof.
  unfold titlesOf.
  destruct (String.eqb type "todo");
    [|destruct (String.eqb type "note"); [|destruct (String.eqb type "event")]];
    cbn; repeat (apply List.Forall_cons; [discriminate|]);
    apply List.Forall_nil.
Qed.

Lemma addTodo_witness :
  fst
    (handleToolCall sampleIds sampleStringify sampleTypeError atTheCall sampleState
       (sampleCall "c1" "addTodo" [("title", "Call mum")])
       (mounted sampleState))
  = Normal ("OK: Added task " ++ dq ++ "Call mum" ++ dq ++ ".").
Proof.
  destruct
    (addTodo_prepends_an_open_task sampleIds sampleStringify sampleTypeError atTheCall
       sampleState (sampleCall "c1" "addTodo" [("title", "Call mum")])
       (mounted sampleState) eq_refl) as [H _].
  exact H.
Defined.

Lemma addNote_witness :
  notes
    (store
       (snd
          (handleToolCall sampleIds sampleStringify sampleTypeError atTheCall sampleState
             (sampleCall "c1" "addNote" [("title", "Wifi"); ("content", "zen")])
             (mounted sampleState))))
  = [mkNote "id-|" (Some "Wifi") (Some "zen") 0; gateCode].
Proof.
  destruct
    (addNote_prepends_a_note sampleIds sampleStringify sampleTypeError atTheCall
       sampleState
       (sampleCall "c1" "addNote" [("title", "Wifi"); ("content", "zen")])
       (mounted sampleState) eq_refl) as (_ & -> & _).
  reflexivity.
Defined.

(** An event that brings its own identifier keeps it. *)
Lemma addEvent_witness :
  events
    (store
       (snd
          (handleToolCall sampleIds sampleStringify sampleTypeError atTheCall sampleState
             (sampleCall "c1" "addEvent"
                [("title", "Dentist"); ("date", "2025-01-07");
                 ("startTime", "09:00"); ("endTime", "10:00"); ("id", "mine")])
             (mounted sampleState))))
  = [mkCalendarEvent "mine" (Some "Dentist") (Some "2025-01-07") (Some "09:00")
       (Some "10:00") None None].
Proof.
  destruct
    (addEvent_appends_an_event sampleIds sampleStringify sampleTypeError atTheCall
       sampleState
       (sampleCall "c1" "addEvent"
          [("title", "Dentist"); ("date", "2025-01-07");
           ("startTime", "09:00"); ("endTime", "10:00"); ("id", "mine")])
       (mounted sampleState) eq_refl) as (_ & -> & _).
  reflexivity.
Defined.

(** A language that the settings page does not offer is taken as well. *)
Lemma setLanguage_witness :
  language
    (store
       (snd
          (handleToolCall sampleIds sampleStringify sampleTypeError atTheCall sampleState
             (sampleCall "c1" "setLanguage" [("language", "klingon")])
             (mounted sampleState))))
  = Some "klingon".
Proof.
  destruct
    (setLanguage_accepts_anything sampleIds sampleStringify sampleTypeError atTheCall
       sampleState (sampleCall "c1" "setLanguage" [("language", "klingon")])
       (mounted sampleState) eq_refl) as (_ & -> & _).
  reflexivity.
Defined.

(** A deletion that comes second in its task, under batching: the note
    goes, the answer says that it was not found. *)
Lemma deleteItem_reports_witness :
  let busy :=
    snd
      (handleToolCall sampleIds sampleStringify sampleTypeError firstOnly
         sampleState (sampleCall "c1" "setTheme" [("theme", "dark")])
         (mounted sampleState)) in
  let r :=
    handleToolCall sampleIds sampleStringify sampleTypeError firstOnly
      sampleState
      (sampleCall "c2" "deleteItem" [("type", "note"); ("title", "GATE")])
      busy in
  fst r = Normal (itemNotFoundText (Some "GATE"))
  /\ notes (store (snd r)) = [].
Proof.
  intros busy r.
  assert (Htitled : Forall (fun t => t <> None) (titlesOf "note" (store busy)))
    by (repeat (apply List.Forall_cons; [discriminate|]); apply List.Forall_nil).
  destruct
    (deleteItem_reports_what_it_did sampleIds sampleStringify sampleTypeError
       firstOnly sampleState
       (sampleCall "c2" "deleteItem" [("type", "note"); ("title", "GATE")])
       busy "note" "GATE" eq_refl eq_refl eq_refl Htitled)
    as (Hstore & _ & Hqueued & _).
  split.
  - apply Hqueued. right. reflexivity.
  - fold r in Hstore. rewrite Hstore. reflexivity.
Defined.

Lemma markTodoComplete_reports_witness :
  let r :=
    handleToolCall sampleIds sampleStringify sampleTypeError atTheCall
      sampleState (sampleCall "c1" "markTodoComplete" [("title", "dog")])
      (mounted sampleState) in
  fst r = Normal (markedText "dog")
  /\ List.map todo_completed (todos (store (snd r))) = [false; true; true].
Proof.
  intros r.
  destruct
    (markTodoComplete_reports_what_it_did sampleIds sampleStringify
       sampleTypeError atTheCall sampleState
       (sampleCall "c1" "markTodoComplete" [("title", "dog")])
       (mounted sampleState) "dog" eq_refl eq_refl
       (proj1 sampleState_titled)) as ([Hstore _] & Hfound & _).
  split.
  - apply Hfound; [|reflexivity].
    apply Exists_cons_tl, Exists_cons_hd, titleHas_spec. reflexivity.
  - fold r in Hstore. rewrite Hstore. reflexivity.
Defined.

Lemma second_delete_witness :
  let fc := sampleCall "c1" "deleteItem" [("type", "todo"); ("title", "milk")] in
  let once :=
    snd
      (handleToolCall sampleIds sampleStringify sampleTypeError atTheCall
         sampleState fc (mounted sampleState)) in
  fst
    (handleToolCall sampleIds sampleStringify sampleTypeError atTheCall
       sampleState fc once)
  = Normal (itemNotFoundText (Some "milk")).
Proof.
  intros fc once.
  destruct
    (second_delete_finds_nothing sampleIds sampleStringify sampleTypeError
       atTheCall sampleState fc (mounted sampleState) "todo" "milk" eq_refl
       eq_refl eq_refl (sampleState_titles "todo")) as [H _].
  exact H.
Defined.

(** Two completions in one task, under batching: the first is answered
    with [OK], the second with the not-found error. *)
Lemma second_complete_witness :
  let fc := sampleCall "c1" "markTodoComplete" [("title", "milk")] in
  let first :=
    handleToolCall sampleIds sampleStringify sampleTypeError firstOnly
      sampleState fc (mounted sampleState) in
  let second :=
    handleToolCall sampleIds sampleStringify sampleTypeError firstOnly
      sampleState fc (snd first) in
  fst first = Normal (markedText "milk")
  /\ fst second = Normal (taskNotFoundText (Some "milk"))
  /\ store (snd second) = store (snd first).
Proof.
  intros fc first second.
  destruct
    (second_complete_changes_nothing sampleIds sampleStringify sampleTypeError
       firstOnly sampleState fc (mounted sampleState) "milk" eq_refl eq_refl
       (proj1 sampleState_titled)) as (Hstore & _ & _ & Hqueued).
  split; [reflexivity|]. split; [apply Hqueued; reflexivity | exact Hstore].
Defined.

(** Under batching the task is added and removed in one task, and the
    answer to the removal is the not-found error. *)
Lemma added_task_witness :
  let add := sampleCall "c1" "addTodo" [("title", "Call mum")] in
  let del :=
    sampleCall "c2" "deleteItem" [("type", "todo"); ("title", "Call mum")] in
  let added :=
    snd
      (handleToolCall sampleIds sampleStringify sampleTypeError firstOnly
         sampleState add (mounted sampleState)) in
  let r :=
    handleToolCall sampleIds sampleStringify sampleTypeError firstOnly
      sampleState del added in
  store (snd r) = sampleState
  /\ fst r = Normal (itemNotFoundText (Some "Call mum")).
Proof.
  intros add del added r.
  destruct
    (added_task_is_deleted_by_its_title sampleIds sampleStringify
       sampleTypeError firstOnly sampleState add del (mounted sampleState)
       "Call mum" eq_refl eq_refl eq_refl eq_refl eq_refl
       (proj1 sampleState_titled))
    as [Hstore Hanswer].
  split; [exact Hstore | exact Hanswer].
Defined.

(** A task added by voice without a title: the next deletion of a task
    leaves a type error for the render and answers not found. *)
Lemma type_error_witness :
  let add := sampleCall "c1" "addTodo" [] in
  let del := sampleCall "c2" "deleteItem" [("type", "todo"); ("title", "milk")] in
  let added :=
    snd
      (handleToolCall sampleIds sampleStringify sampleTypeError atTheCall
         sampleState add (mounted sampleState)) in
  let r :=
    handleToolCall sampleIds sampleStringify sampleTypeError atTheCall
      sampleState del added in
  fst r = Normal (itemNotFoundText (Some "milk"))
  /\ renderErrors (snd r) = [sampleTypeError].
Proof.
  intros add del added r.
  destruct
    (type_error_never_reaches_the_catch sampleIds sampleStringify
       sampleTypeError atTheCall sampleState del added "todo" eq_refl eq_refl)
    as (Hanswer & _ & Herrors & _).
  - right. apply Exists_cons_hd. reflexivity.
  - split; [exact Hanswer | exact Herrors].
Defined.

(** The store has lost its milk, the answer still shows it. *)
Lemma getWorkspaceData_witness :
  let before :=
    run sampleIds sampleStringify sampleTypeError atTheCall sampleState
      [Message
         (toolCallMessage
            [sampleCall "c1" "deleteItem" [("type", "todo"); ("title", "milk")]])]
      (mounted sampleState) in
  let after :=
    onmessage sampleIds sampleStringify sampleTypeError atTheCall sampleState
      (toolCallMessage [sampleCall "c2" "getWorkspaceData" []]) before in
  store after = store before.
Proof.
  intros before after.
  destruct
    (getWorkspaceData_answers_with_the_first_state sampleIds sampleStringify
       sampleTypeError atTheCall sampleState
       [Message
          (toolCallMessage
             [sampleCall "c1" "deleteItem" [("type", "todo"); ("title", "milk")]])]
       sampleState (sampleCall "c2" "getWorkspaceData" []) eq_refl)
    as (_ & H & _).
  exact H.
Defined.

(** A message whose audio is not base64, with a tool call and the
    interruption flag: the status is [speaking], nothing is dispatched. *)
Lemma unplayable_chunk_witness :
  let message :=
    mkLiveServerMessage None None false (Some "!!!")
      (Some [sampleCall "c1" "deleteItem" [("type", "todo"); ("title", "milk")]])
      true in
  let w' :=
    onmessage sampleIds sampleStringify sampleTypeError atTheCall sampleState
      message (mounted sampleState) in
  status w' = Speaking /\ store w' = sampleState /\ journal w' = [].
Proof.
  intros message w'.
  destruct
    (unplayable_chunk_ends_the_handler sampleIds sampleStringify
       sampleTypeError atTheCall sampleState message "!!!"
       (mounted sampleState) eq_refl eq_refl eq_refl)
    as (_ & Hstatus & _ & _ & _ & _ & Hstore & _ & Hjournal).
  split; [exact Hstatus|]. split; [exact Hstore | exact Hjournal].
Defined.

(** One chunk is playing, half a second has passed, when the interruption
    comes; the chunk after it starts at the half second. *)
Lemma interruption_witness :
  let playing :=
    run sampleIds sampleStringify sampleTypeError atTheCall sampleState
      [Message (chunkMessage [0; 0; 0]%Z); Tick (1 # 2) 500]
      (mounted sampleState) in
  let w' :=
    onmessage sampleIds sampleStringify sampleTypeError atTheCall sampleState
      interruption playing in
  (stopped w' = [0%nat] /\ sources w' = ∅ /\ status w' = Speaking)
  /\ exists when seconds,
       started
         (onmessage sampleIds sampleStringify sampleTypeError atTheCall
            sampleState (chunkMessage [1; 2]%Z) w')
       = [mkScheduled 0 0 (3 # 24000); mkScheduled 1 when seconds]
       /\ (when == 1 # 2)%Q.
Proof.
  intros playing w'.
  destruct
    (interruption_stops_every_source sampleIds sampleStringify sampleTypeError
       atTheCall sampleState interruption playing eq_refl eq_refl)
    as [(Hstopped & Hsources & _ & _ & Hstatus) Hnext].
  split.
  - split; [|split; [exact Hsources | exact Hstatus]].
    fold w' in Hstopped. rewrite Hstopped. vm_compute. reflexivity.
  - destruct
      (Hnext (chunkMessage [1; 2]%Z) (encode (bytesOfInt16Array [1; 2]%Z))
         eq_refl eq_refl eq_refl) as (when & seconds & Hstarted & Hwhen & _).
    + discriminate.
    + exists when, seconds. split; [exact Hstarted | exact Hwhen].
Defined.

Lemma interrupting_chunk_witness :
  let message :=
    mkLiveServerMessage None None false
      (Some (encode (bytesOfInt16Array [1; 2]%Z))) None true in
  let w' :=
    onmessage sampleIds sampleStringify sampleTypeError atTheCall sampleState
      message (mounted sampleState) in
  In 0%nat (stopped w') /\ sources w' = ∅.
Proof.
  intros message w'.
  destruct
    (chunk_of_an_interrupting_message_is_stopped sampleIds sampleStringify
       sampleTypeError atTheCall sampleState message
       (encode (bytesOfInt16Array [1; 2]%Z)) (mounted sampleState) eq_refl
       eq_refl eq_refl)
    as (_ & _ & Hin & Hsources & _).
  split; [exact Hin | exact Hsources].
Defined.

(** The toast of a success entry goes with its timer. *)
Lemma toast_witness :
  let shown :=
    snd (addLog sampleIds "Saved" LogSuccess None (mounted sampleState)) in
  toast shown = Some (mkToastMessage "id-|" "Saved" LogSuccess)
  /\ toast (toastTimeout "id-|" shown) = None.
Proof.
  intros shown.
  destruct
    (toast_is_dismissed_by_its_own_timer sampleIds "Saved" LogSuccess None
       (mounted sampleState) eq_refl) as (Hshown & Hgone & _).
  split; [exact Hshown | exact Hgone].
Defined.

(** Two tasks added in one message: the second is above the first. *)
Lemma additions_witness :
  List.map todo_title
    (todos
       (store
          (onmessage sampleIds sampleStringify sampleTypeError firstOnly
             sampleState
             (toolCallMessage
                [sampleCall "c1" "addTodo" [("title", "Call mum")];
                 sampleCall "c2" "addTodo" [("title", "Pay rent")]])
             (mounted sampleState))))
  = [Some "Pay rent"; Some "Call mum"; Some "Buy Milk"; Some "Walk dog";
     Some "milkshake"].
Proof.
  destruct
    (additions_of_a_batch_keep_their_order sampleIds sampleStringify
       sampleTypeError firstOnly sampleState
       (toolCallMessage
          [sampleCall "c1" "addTodo" [("title", "Call mum")];
           sampleCall "c2" "addTodo" [("title", "Pay rent")]])
       [sampleCall "c1" "addTodo" [("title", "Call mum")];
        sampleCall "c2" "addTodo" [("title", "Pay rent")]]
       (mounted sampleState) eq_refl eq_refl) as [Htodos _].
  destruct Htodos as [Htitles _].
  - repeat (apply List.Forall_cons; [reflexivity|]). apply List.Forall_nil.
  - exact Htitles.
Defined.

(** Two samples: the smallest step up and the lowest value. *)
Lemma decoded_chunk_witness :
  decodeAudioData (decode (encode (bytesOfInt16Array [1; -32768]%Z))) 24000 1
    (mounted sampleState)
  = (Normal (mkAudioBuffer 1 2 24000 [1 / 32768; -32768 / 32768]%Q),
     mounted sampleState).
Proof.
  destruct
    (decoded_chunk_holds_the_samples [1; -32768]%Z 24000 (mounted sampleState))
    as [Hbuffer _].
  - discriminate.
  - repeat (apply List.Forall_cons; [split; discriminate|]).
    apply List.Forall_nil.
  - exact Hbuffer.
Defined.

Lemma decode_refusal_witness : decode "AB!D" = None.
Proof.
  apply (decode_refuses_foreign_characters "AB!D" "!"%char).
  - right. right. left. reflexivity.
  - reflexivity.
  - reflexivity.
  - discriminate.
Defined.
